(** * Range vs. Range: the betting state machine of [rvr.core.api]

    A shallow embedding of the game-state half of [src/rvr/core/api.py]:
    [apply_action_result], [_deal_to_board], [_finish_betting_round],
    [_perform_action], [perform_action], the hand-history recorder, the
    history views and the timeout policy.

    Python objects mutated in place become records threaded through the
    functions; a seat ([rgp]) is always an element of [game.rgps], so it is
    named by its position in that list and every mutation of the seat is a
    list update, which keeps the aliasing between [rgp] and [game.rgps].
    A raised exception is the [Raised] outcome. *)

From Stdlib Require Import ZArith List Bool Lia Sorted.
From Stdlib Require Import DecimalString DecimalZ DecimalPos.
From stdpp Require Import base option list gmap strings.
Import ListNotations.
Local Open Scope Z_scope.

(** ** Cards, ranges *)

Inductive Suit := Spades | Hearts | Diamonds | Clubs.

Record Card := mkCard { rank : nat; suit : Suit }.

#[global] Instance Suit_eq_dec : EqDecision Suit.
Proof. solve_decision. Defined.

#[global] Instance Card_eq_dec : EqDecision Card.
Proof. solve_decision. Defined.

(** [card in cards] of Python. *)
Definition card_in (c : Card) (cards : list Card) : bool :=
  bool_decide (c ∈ cards).

(** Modelled from the spec: the hand range type lives in
    [rvr.poker.handrange], which is not under src/.  Section 3: a range is
    a weighted set of (higher_card, lower_card) combinations. *)
Record Combo := mkCombo { higher_card : Card; lower_card : Card; weight : Z }.

Definition Range := list Combo.

(** The constant [NOTHING]: the empty range. *)
Definition NOTHING : Range := [].

Definition combo_uses (board : list Card) (c : Combo) : bool :=
  card_in (higher_card c) board || card_in (lower_card c) board.

(** Modelled from the spec: [remove_board_from_range] is in
    [rvr.poker.handrange].  Section 4.4: every seat's range has
    board-conflicting combos stripped. *)
Definition remove_board_from_range (r : Range) (board : list Card) : Range :=
  List.filter (fun c => negb (combo_uses board c)) r.

(** Modelled from the spec: [concatenate] is in [rvr.infrastructure.util];
    it flattens the per-seat lists of dealt cards. *)
Definition concatenate {A} (ls : list (list A)) : list A := List.concat ls.

(** Modelled from the spec: [deal_cards] is in [rvr.poker.cards].  Section 6:
    a deterministic-but-unpredictable card dealer excluding a given card
    set.  The unpredictable part is the order [deck] in which the dealer
    proposes cards; the dealer hands out the first [number] proposals that
    are not excluded. *)
Definition deal_cards (deck excluded : list Card) (number : nat) : list Card :=
  take number (List.filter (fun c => negb (card_in c excluded)) deck).

(** ** Streets *)

Inductive Round := PREFLOP | FLOP | TURN | RIVER.

#[global] Instance Round_eq_dec : EqDecision Round.
Proof. solve_decision. Defined.

(** Modelled from the spec: the table [NEXT_ROUND] is in [rvr.poker.action].
    Section 3 orders the streets preflop, flop, turn, river; the river has
    no entry, which is a [KeyError] in Python. *)
Definition NEXT_ROUND (r : Round) : option Round :=
  match r with
  | PREFLOP => Some FLOP
  | FLOP => Some TURN
  | TURN => Some RIVER
  | RIVER => None
  end.

(** ** Action results and range actions *)

(** Section 3: ActionResult is one of fold, passive (call_cost), aggressive
    (raise_total, is_raise), terminate. *)
Inductive ActionResult :=
| Fold
| Passive (call_cost : Z)
| Aggressive (raise_total : Z) (is_raise : bool)
| Terminate.

Definition is_terminate (a : ActionResult) : bool :=
  match a with Terminate => true | _ => false end.

(** [dtos.ActionDetails]: the three sub-ranges and the raise total. *)
Record ActionDetails := mkActionDetails {
  fold_range : Range;
  passive_range : Range;
  aggressive_range : Range;
  raise_total : Z
}.

(** Section 3: CurrentOptions. *)
Record CurrentOptions := mkOptions {
  can_check : bool;
  is_raise : bool;
  can_raise : bool;
  min_raise_total : Z;
  max_raise_total : Z
}.

(** ** Hand history rows *)

Inductive HistoryBody :=
| HUserRange (userid : Z) (range_raw : Range)
| HRangeAction (userid : Z) (fold passive aggressive : Range)
    (raise_total : Z) (is_check is_raise : bool)
| HActionResult (userid : Z) (result : ActionResult)
| HBoard (street : Round) (cards : list Card)
| HTimeout (userid : Z).

(** A child row together with its [GameHistoryBase]: [gameid], [order],
    [time], and the child's own columns. *)
Record HistoryItem := mkItem {
  h_gameid : Z;
  h_order : Z;
  h_time : Z;
  h_body : HistoryBody
}.

(** ** Seats and games *)

(** [tables.RunningGameParticipant]. *)
Record RunningGameParticipant := mkRgp {
  userid : Z;
  order : Z;
  stack : Z;
  contributed : Z;
  range : Range;
  left_to_act : bool;
  folded : bool;
  cards_dealt : list Card
}.

(** [tables.RunningGame], with the game-state attributes [api.py] reads and
    assigns (see [_start_game]); [big_blind] is [game.situation.big_blind],
    [history] is the backref of [GameHistoryBase.game], and [is_finished]
    is the attribute [apply_action_result] sets and [_get_history_items]
    reads. *)
Record RunningGame := mkGame {
  gameid : Z;
  rgps : list RunningGameParticipant;
  board : list Card;
  current_round : Round;
  pot_pre : Z;
  increment : Z;
  bet_count : Z;
  big_blind : Z;
  current_userid : option Z;
  is_finished : bool;
  next_hh : Z;
  last_action_time : Z;
  history : list HistoryItem
}.

(** Field updates, one per attribute the code assigns. *)
Definition set_rgps (v : list RunningGameParticipant) (g : RunningGame) :=
  mkGame (gameid g) v (board g) (current_round g) (pot_pre g) (increment g)
    (bet_count g) (big_blind g) (current_userid g) (is_finished g)
    (next_hh g) (last_action_time g) (history g).
Definition set_board (v : list Card) (g : RunningGame) :=
  mkGame (gameid g) (rgps g) v (current_round g) (pot_pre g) (increment g)
    (bet_count g) (big_blind g) (current_userid g) (is_finished g)
    (next_hh g) (last_action_time g) (history g).
Definition set_current_round (v : Round) (g : RunningGame) :=
  mkGame (gameid g) (rgps g) (board g) v (pot_pre g) (increment g)
    (bet_count g) (big_blind g) (current_userid g) (is_finished g)
    (next_hh g) (last_action_time g) (history g).
Definition set_pot_pre (v : Z) (g : RunningGame) :=
  mkGame (gameid g) (rgps g) (board g) (current_round g) v (increment g)
    (bet_count g) (big_blind g) (current_userid g) (is_finished g)
    (next_hh g) (last_action_time g) (history g).
Definition set_increment (v : Z) (g : RunningGame) :=
  mkGame (gameid g) (rgps g) (board g) (current_round g) (pot_pre g) v
    (bet_count g) (big_blind g) (current_userid g) (is_finished g)
    (next_hh g) (last_action_time g) (history g).
Definition set_bet_count (v : Z) (g : RunningGame) :=
  mkGame (gameid g) (rgps g) (board g) (current_round g) (pot_pre g)
    (increment g) v (big_blind g) (current_userid g) (is_finished g)
    (next_hh g) (last_action_time g) (history g).
Definition set_current_userid (v : option Z) (g : RunningGame) :=
  mkGame (gameid g) (rgps g) (board g) (current_round g) (pot_pre g)
    (increment g) (bet_count g) (big_blind g) v (is_finished g)
    (next_hh g) (last_action_time g) (history g).
Definition set_is_finished (v : bool) (g : RunningGame) :=
  mkGame (gameid g) (rgps g) (board g) (current_round g) (pot_pre g)
    (increment g) (bet_count g) (big_blind g) (current_userid g) v
    (next_hh g) (last_action_time g) (history g).
Definition set_last_action_time (v : Z) (g : RunningGame) :=
  mkGame (gameid g) (rgps g) (board g) (current_round g) (pot_pre g)
    (increment g) (bet_count g) (big_blind g) (current_userid g)
    (is_finished g) (next_hh g) v (history g).

Definition set_stack (v : Z) (p : RunningGameParticipant) :=
  mkRgp (userid p) (order p) v (contributed p) (range p) (left_to_act p)
    (folded p) (cards_dealt p).
Definition set_contributed (v : Z) (p : RunningGameParticipant) :=
  mkRgp (userid p) (order p) (stack p) v (range p) (left_to_act p)
    (folded p) (cards_dealt p).
Definition set_range (v : Range) (p : RunningGameParticipant) :=
  mkRgp (userid p) (order p) (stack p) (contributed p) v (left_to_act p)
    (folded p) (cards_dealt p).
Definition set_left_to_act (v : bool) (p : RunningGameParticipant) :=
  mkRgp (userid p) (order p) (stack p) (contributed p) (range p) v
    (folded p) (cards_dealt p).
Definition set_folded (v : bool) (p : RunningGameParticipant) :=
  mkRgp (userid p) (order p) (stack p) (contributed p) (range p)
    (left_to_act p) v (cards_dealt p).

(** ** Outcomes: a returned value or a raised exception *)

Inductive exn := ValueError | KeyError | LookupError | AttributeError.

Inductive outcome (A : Type) :=
| Returned (a : A)
| Raised (e : exn).
Arguments Returned {A} a.
Arguments Raised {A} e.

#[global] Instance outcome_ret : MRet outcome := fun A a => Returned a.

#[global] Instance outcome_bind : MBind outcome := fun A B k m =>
  match m with
  | Returned a => k a
  | Raised e => Raised e
  end.

(** ** The seat actions of [rvr.poker.action] *)

(** A mutation of the seat object [rgp], seen through [game.rgps]. *)
Definition update_rgp (i : nat)
    (f : RunningGameParticipant -> RunningGameParticipant) (g : RunningGame)
  : RunningGame :=
  set_rgps (alter f i (rgps g)) g.

(** Modelled from the spec: [act_fold] is in [rvr.poker.action].  Section
    4.4: seat marked folded, removed from the left-to-act pool. *)
Definition act_fold (i : nat) (g : RunningGame) : RunningGame :=
  update_rgp i (fun p => set_left_to_act false (set_folded true p)) g.

(** Modelled from the spec: [act_passive] is in [rvr.poker.action].  Section
    4.4: the seat's contributed-this-round is raised by the call cost and
    [left_to_act] is cleared; the chips come out of the seat's stack
    (section 3: stack plus contributed is conserved). *)
Definition act_passive (i : nat) (call_cost : Z) (g : RunningGame)
  : RunningGame :=
  update_rgp i (fun p =>
    set_left_to_act false
      (set_contributed (contributed p + call_cost)
         (set_stack (stack p - call_cost) p))) g.

(** Modelled from the spec: [act_aggressive] is in [rvr.poker.action].
    Section 4.4: the seat's contributed-this-round is set to raise_total
    (the difference comes out of its stack), every other non-folded seat
    is left to act again, bet_count is incremented. *)
Definition act_aggressive (g : RunningGame) (i : nat) (raise_total : Z)
  : RunningGame :=
  let raiser p :=
    set_left_to_act false
      (set_contributed raise_total
         (set_stack (stack p - (raise_total - contributed p)) p)) in
  let other p := if folded p then p else set_left_to_act true p in
  set_bet_count (bet_count g + 1)
    (set_rgps (imap (fun j p => if decide (j = i) then raiser p else other p)
                 (rgps g)) g).

(** [min(seats, key=lambda p: p.order)]: the first seat of least order;
    [None] is the [ValueError] of an empty sequence. *)
Fixpoint min_by_order (l : list RunningGameParticipant)
  : option RunningGameParticipant :=
  match l with
  | [] => None
  | p :: rest =>
      match min_by_order rest with
      | Some q => if order q <? order p then Some q else Some p
      | None => Some p
      end
  end.

(** The loop at the end of [_finish_betting_round]. *)
Fixpoint sweep (pot : Z) (l : list RunningGameParticipant)
  : Z * list RunningGameParticipant :=
  match l with
  | [] => (pot, [])
  | p :: rest =>
      let pot1 := pot + contributed p in
      let p1 := set_contributed 0 p in
      let p2 := if folded p1 then p1 else set_left_to_act true p1 in
      let '(pot2, rest') := sweep pot1 rest in
      (pot2, p2 :: rest')
  end.

Definition is_nil {A} (l : list A) : bool :=
  match l with [] => true | _ => false end.

(** ** Users, situations and open games

    The user and open-game calls of [API] work on the tables of
    [rvr.db.tables]; a table is the list of its rows, a changed row is
    written back by primary key, and a sequence is the next value it
    hands out. *)

Module Lobby.

(** [tables.User]; [screenname] and [email] are declared unique, and
    [unsubscribed] is the column [login] and [unsubscribe] assign. *)
Record User := mkUser {
  u_userid : Z;
  u_identity : string;
  u_screenname : string;
  u_email : string;
  u_unsubscribed : bool
}.

(** [tables.OpenGame] *)
Record OpenGame := mkOpenGame {
  og_gameid : Z;
  og_situationid : Z;
  og_participants : Z
}.

(** [tables.OpenGameParticipant] *)
Record OpenGameParticipant := mkOgp {
  ogp_userid : Z;
  ogp_gameid : Z
}.

(** The child rows [_add_situation] writes for the players of a
    situation. *)
Record SituationPlayer := mkSituationPlayer {
  sp_order : Z;
  sp_stack : Z;
  sp_contributed : Z;
  sp_range_raw : Range;
  sp_left_to_act : bool
}.

(** [tables.Situation] with the columns [_add_situation] fills in;
    [sit_players] is [situation.ordered_players()]. *)
Record Situation := mkSituation {
  sit_situationid : Z;
  sit_description : string;
  sit_participants : Z;
  sit_is_limit : bool;
  sit_big_blind : Z;
  sit_board : list Card;
  sit_current_round : Round;
  sit_pot_pre : Z;
  sit_increment : Z;
  sit_bet_count : Z;
  sit_current_player_num : Z;
  sit_players : list SituationPlayer
}.

Record Tables := mkTables {
  users : list User;
  user_seq : Z;
  situations : list Situation;
  situation_seq : Z;
  open_games : list OpenGame;
  gameid_seq : Z;
  ogps : list OpenGameParticipant;
  running_games : gmap Z RunningGame
}.

Definition set_users (v : list User) (t : Tables) : Tables :=
  mkTables v (user_seq t) (situations t) (situation_seq t) (open_games t)
    (gameid_seq t) (ogps t) (running_games t).
Definition set_user_seq (v : Z) (t : Tables) : Tables :=
  mkTables (users t) v (situations t) (situation_seq t) (open_games t)
    (gameid_seq t) (ogps t) (running_games t).
Definition set_situations (v : list Situation) (t : Tables) : Tables :=
  mkTables (users t) (user_seq t) v (situation_seq t) (open_games t)
    (gameid_seq t) (ogps t) (running_games t).
Definition set_situation_seq (v : Z) (t : Tables) : Tables :=
  mkTables (users t) (user_seq t) (situations t) v (open_games t)
    (gameid_seq t) (ogps t) (running_games t).
Definition set_open_games (v : list OpenGame) (t : Tables) : Tables :=
  mkTables (users t) (user_seq t) (situations t) (situation_seq t) v
    (gameid_seq t) (ogps t) (running_games t).
Definition set_gameid_seq (v : Z) (t : Tables) : Tables :=
  mkTables (users t) (user_seq t) (situations t) (situation_seq t)
    (open_games t) v (ogps t) (running_games t).
Definition set_ogps (v : list OpenGameParticipant) (t : Tables) : Tables :=
  mkTables (users t) (user_seq t) (situations t) (situation_seq t)
    (open_games t) (gameid_seq t) v (running_games t).
Definition set_running_games (v : gmap Z RunningGame) (t : Tables) : Tables :=
  mkTables (users t) (user_seq t) (situations t) (situation_seq t)
    (open_games t) (gameid_seq t) (ogps t) v.

(** The error constants of [API] these calls return. *)
Inductive APIError :=
| ERR_UNKNOWN
| ERR_NO_SUCH_USER
| ERR_NO_SUCH_OPEN_GAME
| ERR_DUPLICATE_SCREENNAME
| ERR_JOIN_GAME_ALREADY_IN
| ERR_JOIN_GAME_GAME_FULL
| ERR_USER_NOT_IN_GAME
| ERR_DUPLICATE_SITUATION.

(** The exceptions these calls can meet. *)
Inductive exception :=
| IntegrityError
| MultipleResultsFound
| IndexError
| AttributeError.

Inductive attempt (A : Type) :=
| Done (a : A)
| Thrown (e : exception).
Arguments Done {A} a.
Arguments Thrown {A} e.

(** The decorator [api] over these tables: an [APIError] result or an
    exception rolls the session back, and [exception_mapper] turns the
    exception into [ERR_UNKNOWN]. *)
Definition api {R} (f : Tables -> attempt ((APIError + R) * Tables))
    (t : Tables) : (APIError + R) * Tables :=
  match f t with
  | Done (inl err, _) => (inl err, t)
  | Done (inr r, t') => (inr r, t')
  | Thrown _ => (inl ERR_UNKNOWN, t)
  end.

(** *** Users *)

(** [dtos.LoginRequest] and [dtos.LoginResponse], as [views/main.py] builds
    and reads them. *)
Record LoginRequest := mkLoginRequest {
  rq_identity : string;
  rq_email : string;
  rq_screenname : string
}.

Record LoginResponse := mkLoginResponse {
  rs_userid : Z;
  rs_screenname : string;
  rs_existed : bool
}.

(** [LoginResponse.from_user] *)
Definition from_user (user : User) (existed : bool) : LoginResponse :=
  mkLoginResponse (u_userid user) (u_screenname user) existed.

(** An assignment to a column of the row [userid]. *)
Definition update_user (userid : Z) (f : User -> User) (l : list User)
  : list User :=
  map (fun u => if decide (u_userid u = userid) then f u else u) l.

Definition set_unsubscribed (v : bool) (u : User) : User :=
  mkUser (u_userid u) (u_identity u) (u_screenname u) (u_email u) v.

Definition set_screenname (v : string) (u : User) : User :=
  mkUser (u_userid u) (u_identity u) v (u_email u) (u_unsubscribed u).

(** [session.flush()] of a new user row: the unique columns must be free. *)
Definition user_row_clashes (user : User) (l : list User) : bool :=
  existsb (fun u => bool_decide (u_screenname u = u_screenname user)
                    || bool_decide (u_email u = u_email user)) l.

(** The body of [API.login] *)
Definition login_body (request : LoginRequest) (t : Tables)
  : attempt ((APIError + LoginResponse) * Tables) :=
  let matches :=
    List.filter (fun u => bool_decide (u_identity u = rq_identity request)
                          && bool_decide (u_email u = rq_email request))
      (users t) in
  match matches with
  | user :: _ =>
      let user' := set_unsubscribed false user in
      Done (inr (from_user user' true),
            set_users (update_user (u_userid user) (set_unsubscribed false)
                         (users t)) t)
  | [] =>
      let user := mkUser (user_seq t) (rq_identity request)
                    (rq_screenname request) (rq_email request) false in
      if user_row_clashes user (users t) then
        let matches :=
          List.filter
            (fun u => bool_decide (u_screenname u = rq_screenname request))
            (users t) in
        match matches with
        | _ :: _ => Done (inl ERR_DUPLICATE_SCREENNAME, t)
        | [] => Thrown IntegrityError
        end
      else
        Done (inr (from_user user false),
              set_user_seq (user_seq t + 1)
                (set_users (users t ++ [user]) t))
  end.

(** [API.login] *)
Definition login (request : LoginRequest) (t : Tables)
  : (APIError + LoginResponse) * Tables :=
  api (login_body request) t.

(** [API.unsubscribe] *)
Definition unsubscribe (identity : string) (t : Tables)
  : (APIError + unit) * Tables :=
  api (fun t0 =>
         match List.filter (fun u => bool_decide (u_identity u = identity))
                 (users t0) with
         | [] => Done (inl ERR_NO_SUCH_USER, t0)
         | user :: _ =>
             Done (inr tt,
                   set_users (update_user (u_userid user)
                                (set_unsubscribed true) (users t0)) t0)
         end) t.

(** ["Player %d" % (userid,)] *)
Definition player_name (userid : Z) : string :=
  "Player " +:+ NilZero.string_of_int (Z.to_int userid).

(** [API.change_screenname], for [ChangeScreennameRequest(userid,
    screenname)]; [.one()] raises on several rows and its [NoResultFound]
    is caught. *)
Definition change_screenname (userid : Z) (screenname : string)
    (t : Tables) : (APIError + unit) * Tables :=
  api (fun t0 =>
         if String.prefix "Player " screenname
            && negb (bool_decide (screenname = player_name userid))
         then Done (inl ERR_DUPLICATE_SCREENNAME, t0)
         else
           match List.filter
                   (fun u => bool_decide (u_screenname u = screenname))
                   (users t0) with
           | _ :: _ => Done (inl ERR_DUPLICATE_SCREENNAME, t0)
           | [] =>
               match List.filter (fun u => bool_decide (u_userid u = userid))
                       (users t0) with
               | [] => Done (inl ERR_NO_SUCH_USER, t0)
               | [_] =>
                   Done (inr tt,
                         set_users (update_user userid
                                      (set_screenname screenname)
                                      (users t0)) t0)
               | _ => Thrown MultipleResultsFound
               end
           end) t.

(** [API.get_user]: the row as [dtos.DetailedUser] holds it. *)
Definition get_user (userid : Z) (t : Tables) : (APIError + User) * Tables :=
  api (fun t0 =>
         match List.filter (fun u => bool_decide (u_userid u = userid))
                 (users t0) with
         | [] => Done (inl ERR_NO_SUCH_USER, t0)
         | user :: _ => Done (inr user, t0)
         end) t.

(** [API.get_user_by_screenname]: [UserDetails(userid, screenname)] or
    [None]. *)
Definition get_user_by_screenname (screenname : string) (t : Tables)
  : (APIError + option (Z * string)) * Tables :=
  api (fun t0 =>
         match List.filter
                 (fun u => bool_decide (u_screenname u = screenname))
                 (users t0) with
         | user :: _ => Done (inr (Some (u_userid user, u_screenname user)), t0)
         | [] => Done (inr None, t0)
         end) t.

(** *** Situations *)

(** [dtos.SituationPlayerDetails] and [dtos.SituationDetails], as
    [_create_hu] builds them and [_add_situation] reads them. *)
Record SituationPlayerDetails := mkSituationPlayerDetails {
  spd_stack : Z;
  spd_contributed : Z;
  spd_left_to_act : bool;
  spd_range_raw : Range
}.

Record SituationDetails := mkSituationDetails {
  sd_description : string;
  sd_players : list SituationPlayerDetails;
  sd_current_player : Z;
  sd_is_limit : bool;
  sd_big_blind : Z;
  sd_board : list Card;
  sd_current_round : Round;
  sd_pot_pre : Z;
  sd_increment : Z;
  sd_bet_count : Z
}.

(** [enumerate(dto.players)] turned into child rows. *)
Fixpoint situation_players (order : Z) (l : list SituationPlayerDetails)
  : list SituationPlayer :=
  match l with
  | [] => []
  | player :: rest =>
      mkSituationPlayer order (spd_stack player) (spd_contributed player)
        (spd_range_raw player) (spd_left_to_act player)
      :: situation_players (order + 1) rest
  end.

(** [API._add_situation]: the commit fails on a description already in
    the table (the column is unique), and then nothing is kept. *)
Definition _add_situation (dto : SituationDetails) (t : Tables)
  : option APIError * Tables :=
  let situation :=
    mkSituation (situation_seq t) (sd_description dto)
      (Z.of_nat (length (sd_players dto))) (sd_is_limit dto)
      (sd_big_blind dto) (sd_board dto) (sd_current_round dto)
      (sd_pot_pre dto) (sd_increment dto) (sd_bet_count dto)
      (sd_current_player dto) (situation_players 0 (sd_players dto)) in
  if existsb (fun s => bool_decide (sit_description s = sd_description dto))
       (situations t)
  then (Some ERR_DUPLICATE_SITUATION, t)
  else (None,
        set_situation_seq (situation_seq t + 1)
          (set_situations (situations t ++ [situation]) t)).

(** [API._add_all_situations], for the two situations [_create_hu()] and
    [_create_three()] build: [err = err or ...]. *)
Definition _add_all_situations (hu three : SituationDetails) (t : Tables)
  : option APIError * Tables :=
  match _add_situation hu t with
  | (Some err, t1) => (Some err, t1)
  | (None, t1) => _add_situation three t1
  end.

(** *** Open games *)

(** The query of [ensure_open_games]: the open games of a situation that
    nobody has joined. *)
Definition empty_open (situationid : Z) (l : list OpenGame) : list OpenGame :=
  List.filter (fun g => (og_situationid g =? situationid)
                        && (og_participants g =? 0)) l.

(** [session.delete(game)]: the row goes and, by the cascade of its
    [ogps] backref, so do its participants. *)
Definition delete_open_game (gameid : Z) (t : Tables) : Tables :=
  set_ogps (List.filter (fun o => negb (ogp_gameid o =? gameid)) (ogps t))
    (set_open_games
       (List.filter (fun g => negb (og_gameid g =? gameid)) (open_games t))
       t).

(** One turn of the loop of [ensure_open_games]. *)
Definition ensure_step (t : Tables) (situation : Situation) : Tables :=
  let empty := empty_open (sit_situationid situation) (open_games t) in
  if (1 <? length empty)%nat then
    foldl (fun t0 game => delete_open_game (og_gameid game) t0) t
      (removelast empty)
  else if (length empty =? 0)%nat then
    let new_game :=
      mkOpenGame (gameid_seq t) (sit_situationid situation) 0 in
    set_gameid_seq (gameid_seq t + 1)
      (set_open_games (open_games t ++ [new_game]) t)
  else t.

Definition ensure_open_games_body (t : Tables) : Tables :=
  foldl ensure_step t (situations t).

(** [API.ensure_open_games] *)
Definition ensure_open_games (t : Tables) : (APIError + unit) * Tables :=
  api (fun t0 => Done (inr tt, ensure_open_games_body t0)) t.

(** [game.ogps] *)
Definition game_ogps (gameid : Z) (t : Tables) : list OpenGameParticipant :=
  List.filter (fun o => ogp_gameid o =? gameid) (ogps t).

(** An assignment to [participants] of the row [gameid]. *)
Definition add_participants (gameid : Z) (d : Z) (l : list OpenGame)
  : list OpenGame :=
  map (fun g => if decide (og_gameid g = gameid)
                then mkOpenGame (og_gameid g) (og_situationid g)
                       (og_participants g + d)
                else g) l.

(** The body of [API.leave_game].  [session.delete(ogp)] removes the row
    of the primary key [(userid, gameid)] of the first participant of the
    game with that userid; the result commits before [ensure_open_games]
    runs, whose own result is dropped. *)
Definition leave_game_body (userid gameid : Z) (t : Tables)
  : attempt ((APIError + unit) * Tables) :=
  match List.filter (fun g => og_gameid g =? gameid) (open_games t) with
  | [] => Done (inl ERR_NO_SUCH_OPEN_GAME, t)
  | game :: _ =>
      match List.filter (fun u => u_userid u =? userid) (users t) with
      | [] => Done (inl ERR_NO_SUCH_USER, t)
      | _ :: _ =>
          if existsb (fun o => ogp_userid o =? userid)
               (game_ogps (og_gameid game) t)
          then
            let t1 :=
              set_ogps
                (List.filter
                   (fun o => negb ((ogp_userid o =? userid)
                                   && (ogp_gameid o =? og_gameid game)))
                   (ogps t)) t in
            let t2 :=
              set_open_games
                (add_participants (og_gameid game) (-1) (open_games t1))
                t1 in
            Done (inr tt, (ensure_open_games t2).2)
          else Done (inl ERR_USER_NOT_IN_GAME, t)
      end
  end.

(** [API.leave_game] *)
Definition leave_game (userid gameid : Z) (t : Tables)
  : (APIError + unit) * Tables :=
  api (leave_game_body userid gameid) t.

End Lobby.

(** ** Example games

    The heads-up situation of [_create_hu] (big blind 198 behind and 2 in,
    button 199 behind and 1 in, button to act), with short ranges. *)

Definition As := mkCard 14 Spades.
Definition Ks := mkCard 13 Spades.
Definition Qs := mkCard 12 Spades.
Definition Qh := mkCard 12 Hearts.
Definition c7 := mkCard 7 Clubs.
Definition c6 := mkCard 6 Clubs.
Definition h3 := mkCard 3 Hearts.
Definition h2 := mkCard 2 Hearts.

Definition hu_bb : RunningGameParticipant :=
  mkRgp 10 0 198 2 [mkCombo As Ks 1; mkCombo h3 h2 1] true false [As; Ks].

Definition hu_btn : RunningGameParticipant :=
  mkRgp 11 1 199 1 [mkCombo Qs Qh 1; mkCombo c7 c6 1] true false [Qs; Qh].

Definition hu_game : RunningGame :=
  mkGame 1 [hu_bb; hu_btn] [] PREFLOP 0 2 1 2 (Some 11) false 0 0 [].

(** The button has called and the big blind has checked. *)
Definition hu_called : RunningGame :=
  mkGame 1 [set_left_to_act false hu_bb;
            set_left_to_act false
              (set_contributed 2 (set_stack 198 hu_btn))]
    [] PREFLOP 0 2 1 2 (Some 10) false 4 0 [].

(** The same seats once the street has moved to the flop, before the deal. *)
Definition hu_flop : RunningGame := set_current_round FLOP hu_called.

(** A one-seat situation on the flop. *)
Definition lone_game : RunningGame :=
  mkGame 2 [mkRgp 10 0 195 0 [mkCombo As Ks 1] true false [As; Ks]]
    [c7; c6; h2] FLOP 16 2 0 2 (Some 10) false 0 0 [].

Definition example_deck : list Card :=
  [As; h3; Qh; mkCard 9 Clubs; mkCard 8 Clubs; c7; mkCard 5 Diamonds;
   mkCard 4 Diamonds].

(** Hold'em card counts per street. *)
Definition holdem_cards (r : Round) : nat :=
  match r with PREFLOP => 0 | FLOP => 3 | TURN => 4 | RIVER => 5 end.

(** Stand-ins for the collaborators: options that allow a raise to between
    4 and 200, a resolver that folds a fold-everything action and ends the
    hand on any other, and a [finish_game] that takes the game off turn. *)
Definition example_options (g : RunningGame) (i : nat) : CurrentOptions :=
  mkOptions false true true 4 200.

Definition example_resolver (g : RunningGame) (i : nat)
    (range_action : ActionDetails) (options : CurrentOptions)
  : ActionResult * RunningGame :=
  if is_nil (passive_range range_action)
     && is_nil (aggressive_range range_action)
  then (Fold, g) else (Terminate, g).

Definition example_finish_game (g : RunningGame) : RunningGame :=
  set_current_userid None g.

(** Stand-ins for the columns the session does not carry. *)
Definition example_screenname (u : Z) : string :=
  if u =? 10 then "bb" else "btn".

Definition example_description (g : RunningGame) : string :=
  "Heads-up preflop, 100 BB".

(** ** Example lobby

    Two users, and the two situations of [_create_hu] and [_create_three]
    with short ranges in place of the range descriptions. *)

Definition alice : Lobby.User :=
  Lobby.mkUser 1 "https://id.example/alice" "alice" "alice@example.org"
    false.

Definition bob : Lobby.User :=
  Lobby.mkUser 2 "https://id.example/bob" "bob" "bob@example.org" false.

Definition hu_details : Lobby.SituationDetails :=
  Lobby.mkSituationDetails "Heads-up preflop, 100 BB"
    [Lobby.mkSituationPlayerDetails 198 2 true
       [mkCombo As Ks 1; mkCombo h3 h2 1];
     Lobby.mkSituationPlayerDetails 199 1 true
       [mkCombo Qs Qh 1; mkCombo c7 c6 1]]
    1 false 2 [] PREFLOP 0 2 1.

Definition three_details : Lobby.SituationDetails :=
  Lobby.mkSituationDetails "Three-way flop"
    [Lobby.mkSituationPlayerDetails 195 0 true [mkCombo As Ks 1];
     Lobby.mkSituationPlayerDetails 195 0 true [mkCombo Qs Qh 1];
     Lobby.mkSituationPlayerDetails 195 0 true [mkCombo c7 c6 1]]
    0 false 2 [] FLOP 16 2 0.

(** The rows [_add_situation] writes for them. *)
Definition hu_situation : Lobby.Situation :=
  Lobby.mkSituation 1 "Heads-up preflop, 100 BB" 2 false 2 [] PREFLOP 0 2 1 1
    [Lobby.mkSituationPlayer 0 198 2 [mkCombo As Ks 1; mkCombo h3 h2 1] true;
     Lobby.mkSituationPlayer 1 199 1 [mkCombo Qs Qh 1; mkCombo c7 c6 1] true].

Definition three_situation : Lobby.Situation :=
  Lobby.mkSituation 2 "Three-way flop" 3 false 2 [] FLOP 16 2 0 0
    [Lobby.mkSituationPlayer 0 195 0 [mkCombo As Ks 1] true;
     Lobby.mkSituationPlayer 1 195 0 [mkCombo Qs Qh 1] true;
     Lobby.mkSituationPlayer 2 195 0 [mkCombo c7 c6 1] true].

Definition empty_tables : Lobby.Tables :=
  Lobby.mkTables [] 1 [] 1 [] 1 [] ∅.

(** Users and situations, no open game yet. *)
Definition lobby_bare : Lobby.Tables :=
  Lobby.mkTables [alice; bob] 3 [hu_situation; three_situation] 3 [] 1 [] ∅.

(** One empty open game per situation. *)
Definition lobby : Lobby.Tables :=
  Lobby.mkTables [alice; bob] 3 [hu_situation; three_situation] 3
    [Lobby.mkOpenGame 1 1 0; Lobby.mkOpenGame 2 2 0] 3 [] ∅.

(** Alice waits in the heads-up game 1. *)
Definition lobby_seated : Lobby.Tables :=
  Lobby.mkTables [alice; bob] 3 [hu_situation; three_situation] 3
    [Lobby.mkOpenGame 1 1 1; Lobby.mkOpenGame 2 2 0; Lobby.mkOpenGame 3 1 0]
    4 [Lobby.mkOgp 1 1] ∅.

(** A dealer for [deal_from_ranges]: hole cards by seat order. *)
Definition example_deal (players : list Lobby.SituationPlayer)
    (board : list Card) (s_p : Lobby.SituationPlayer) : list Card :=
  if Lobby.sp_order s_p =? 0 then [As; Ks] else [Qs; Qh].

Section Engine.

Set Default Proof Using "Type".

(** The order in which the dealer proposes cards, the clock reading of the
    call, and the table [TOTAL_COMMUNITY_CARDS] of [rvr.poker.action]. *)
Variable deck : list Card.
Variable utcnow : Z.
Variable TOTAL_COMMUNITY_CARDS : Round -> nat.

(** [API._record_hand_history_item] *)
Definition _record_hand_history_item (g : RunningGame) (item : HistoryBody)
  : RunningGame :=
  let base_order := next_hh g in
  mkGame (gameid g) (rgps g) (board g) (current_round g) (pot_pre g)
    (increment g) (bet_count g) (big_blind g) (current_userid g)
    (is_finished g) (next_hh g + 1) (last_action_time g)
    (history g ++ [mkItem (gameid g) base_order utcnow item]).

(** [API._record_board] *)
Definition _record_board (g : RunningGame) : RunningGame :=
  _record_hand_history_item g (HBoard (current_round g) (board g)).

(** [API._deal_to_board] *)
Definition _deal_to_board (g : RunningGame) : RunningGame :=
  let total := TOTAL_COMMUNITY_CARDS (current_round g) in
  let current := length (board g) in
  let excluded_cards := concatenate (map cards_dealt (rgps g)) ++ board g in
  let new_board :=
    board g ++ deal_cards deck excluded_cards (total - current) in
  let g1 := set_board new_board g in
  let g2 := if (current <? total)%nat then _record_board g1 else g1 in
  set_rgps
    (map (fun p => set_range (remove_board_from_range (range p) (board g2)) p)
       (rgps g2)) g2.

Arguments _deal_to_board : simpl never.

(** [API._finish_betting_round] *)
Definition _finish_betting_round (g : RunningGame)
    (remain : list RunningGameParticipant)
  : outcome RunningGame :=
  match min_by_order remain with
  | None => Raised ValueError
  | Some current_user =>
      let g1 := set_current_userid (Some (userid current_user)) g in
      match NEXT_ROUND (current_round g1) with
      | None => Raised KeyError
      | Some r =>
          let g2 := set_current_round r g1 in
          let g3 := _deal_to_board g2 in
          let g4 := set_increment (big_blind g3) g3 in
          let g5 := set_bet_count 0 g4 in
          let '(pot, seats) := sweep (pot_pre g5) (rgps g5) in
          Returned (set_rgps seats (set_pot_pre pot g5))
      end
  end.

(** The first four branches of [API.apply_action_result]. *)
Definition act (g : RunningGame) (i : nat) (action_result : ActionResult)
  : outcome RunningGame :=
  match action_result with
  | Fold => Returned (act_fold i g)
  | Passive call_cost => Returned (act_passive i call_cost g)
  | Aggressive raise_total _ => Returned (act_aggressive g i raise_total)
  | Terminate => Raised ValueError
  end.

Definition seats_left_to_act (g : RunningGame)
  : list RunningGameParticipant :=
  List.filter left_to_act (rgps g).

Definition seats_remain (g : RunningGame)
  : list RunningGameParticipant :=
  List.filter (fun p => negb (left_to_act p) && negb (folded p)) (rgps g).

(** The rest of [API.apply_action_result], after the seat has acted;
    [rgp_order] is [rgp.order]. *)
Definition after_act (g : RunningGame) (rgp_order : Z) : outcome RunningGame :=
  let left := seats_left_to_act g in
  let remain := seats_remain g in
  if (length left =? 1)%nat && is_nil remain then
    Returned (set_is_finished true g)
  else if is_nil left then
    if (length remain =? 1)%nat || bool_decide (current_round g = RIVER) then
      Returned (set_is_finished true g)
    else
      _finish_betting_round g remain
  else
    let later := List.filter (fun p => rgp_order <? order p) left in
    let earlier := List.filter (fun p => order p <? rgp_order) left in
    let chosen := if is_nil later then earlier else later in
    match min_by_order chosen with
    | None => Raised ValueError
    | Some next_rgp => Returned (set_current_userid (Some (userid next_rgp)) g)
    end.

(** [API.apply_action_result]; the seat [rgp] is [game.rgps[i]], and no
    seat action assigns [order]. *)
Definition apply_action_result (g : RunningGame) (i : nat)
    (action_result : ActionResult) : outcome RunningGame :=
  match rgps g !! i with
  | None => Raised LookupError
  | Some rgp =>
      g1 ← act g i action_result;
      after_act g1 (order rgp)
  end.

(** ** Recording actions *)

(** [API._record_action_result] *)
Definition _record_action_result (g : RunningGame)
    (rgp : RunningGameParticipant) (action_result : ActionResult)
  : outcome RunningGame :=
  if is_terminate action_result then Raised ValueError
  else
    let g1 := _record_hand_history_item g
                (HActionResult (userid rgp) action_result) in
    Returned (set_last_action_time utcnow g1).

(** [API._record_rgp_range] *)
Definition _record_rgp_range (g : RunningGame) (rgp : RunningGameParticipant)
    (range_raw : Range) : RunningGame :=
  _record_hand_history_item g (HUserRange (userid rgp) range_raw).

(** [API._record_range_action] *)
Definition _record_range_action (g : RunningGame) (rgp : RunningGameParticipant)
    (range_action : ActionDetails) (is_check is_raise : bool) : RunningGame :=
  _record_hand_history_item g
    (HRangeAction (userid rgp) (fold_range range_action)
       (passive_range range_action) (aggressive_range range_action)
       (raise_total range_action) is_check is_raise).

(** [API._record_timeoout] *)
Definition _record_timeoout (g : RunningGame) (rgp : RunningGameParticipant)
  : RunningGame :=
  _record_hand_history_item g (HTimeout (userid rgp)).

(** ** Performing a range action *)

(** The collaborators of [rvr.poker.action] that are not under src/:
    the options calculator, the resolver [WhatCouldBe] (constructed,
    [consider_all], [calculate_what_will_be]: it returns the action result
    and leaves the seat's reduced range in the game), and [finish_game].
    [notify_current_player] sends mail and touches no game state. *)
Variable calculate_current_options : RunningGame -> nat -> CurrentOptions.
Variable calculate_what_will_be :
  RunningGame -> nat -> ActionDetails -> CurrentOptions ->
  ActionResult * RunningGame.
Variable finish_game : RunningGame -> RunningGame.

(** The seat object after earlier mutations of the game. *)
Definition seat (g : RunningGame) (i : nat) : outcome RunningGameParticipant :=
  match rgps g !! i with
  | Some rgp => Returned rgp
  | None => Raised LookupError
  end.

(** [API._perform_action] *)
Definition _perform_action (g : RunningGame) (i : nat)
    (range_action : ActionDetails) (current_options : CurrentOptions)
  : outcome (ActionResult * RunningGame) :=
  rgp ← seat g i;
  let g1 := _record_range_action g rgp range_action
              (can_check current_options) (is_raise current_options) in
  let '(action_result, g2) :=
    calculate_what_will_be g1 i range_action current_options in
  g5 ← (if is_terminate action_result then
          Returned (update_rgp i (set_left_to_act false)
                      (set_is_finished true g2))
        else
          rgp2 ← seat g2 i;
          g3 ← _record_action_result g2 rgp2 action_result;
          let g4 := _record_rgp_range g3 rgp2 (range rgp2) in
          apply_action_result g4 i action_result);
  let g6 := if is_finished g5 then finish_game g5 else g5 in
  Returned (action_result, g6).

(** The error constants of [API]. *)
Inductive APIError :=
| ERR_UNKNOWN
| ERR_NO_SUCH_USER
| ERR_NO_SUCH_RUNNING_GAME
| ERR_NOT_USERS_TURN
| ERR_INVALID_RAISE_TOTAL
| ERR_INVALID_RANGES.

(** The session: the [running_game] table keyed by [gameid], and the
    userids of the [user] table. *)
Record Session := mkSession {
  running_games : gmap Z RunningGame;
  users : gset Z
}.

Definition put_game (k : Z) (g : RunningGame) (s : Session) : Session :=
  mkSession (<[k := g]> (running_games s)) (users s).

(** The decorator [api]: [exception_mapper] turns an exception into
    [ERR_UNKNOWN]; an [APIError] result or an exception rolls the session
    back. *)
Definition api {R} (f : Session -> outcome ((APIError + R) * Session))
    (s : Session) : (APIError + R) * Session :=
  match f s with
  | Returned (inl err, _) => (inl err, s)
  | Returned (inr r, s') => (inr r, s')
  | Raised _ => (inl ERR_UNKNOWN, s)
  end.

(** Modelled from the spec: the property [current_rgp] of
    [tables.RunningGame] is not in src/rvr/db/tables.py.  Section 3: the
    seat currently on turn is the one named by [current_userid]. *)
Fixpoint find_seat (u : Z) (l : list RunningGameParticipant) : option nat :=
  match l with
  | [] => None
  | p :: rest => if decide (userid p = u) then Some 0%nat
                 else S <$> find_seat u rest
  end.

Definition current_rgp (g : RunningGame) : outcome nat :=
  match current_userid g with
  | None => Raised LookupError
  | Some u => match find_seat u (rgps g) with
              | Some i => Returned i
              | None => Raised LookupError
              end
  end.

#[global] Instance Combo_eq_dec : EqDecision Combo.
Proof. solve_decision. Defined.

Definition combo_in (c : Combo) (r : Range) : bool := bool_decide (c ∈ r).

Inductive ValidationError := InvalidPartition | InvalidRaiseTotal.

(** Modelled from the spec: [range_action_fits] is in [rvr.poker.action].
    Section 4.2: the three sub-ranges must cover the seat's range exactly,
    every combo in exactly one of them and none outside it; an aggressive
    sub-range needs [can_raise] and a raise total within the legal bounds;
    a raise total without an aggressive sub-range is rejected. *)
Definition range_action_fits (range_action : ActionDetails)
    (options : CurrentOptions) (original : Range)
  : bool * option ValidationError :=
  let f := fold_range range_action in
  let p := passive_range range_action in
  let a := aggressive_range range_action in
  let times c := (Nat.b2n (combo_in c f) + Nat.b2n (combo_in c p)
                  + Nat.b2n (combo_in c a))%nat in
  if negb (forallb (fun c => (times c =? 1)%nat) original
           && forallb (fun c => combo_in c original) (f ++ p ++ a))
  then (false, Some InvalidPartition)
  else if negb (is_nil a) && negb (can_raise options)
  then (false, Some InvalidPartition)
  else if negb (is_nil a)
          && negb ((min_raise_total options <=? raise_total range_action)
                   && (raise_total range_action <=? max_raise_total options))
  then (false, Some InvalidRaiseTotal)
  else if is_nil a && negb (raise_total range_action =? 0)
  then (false, Some InvalidRaiseTotal)
  else (true, None).

(** The body of [API.perform_action], under its decorator. *)
Definition perform_action_body (gameid : Z) (userid : Z)
    (range_action : ActionDetails) (s : Session)
  : outcome ((APIError + ActionResult) * Session) :=
  match running_games s !! gameid with
  | None => Returned (inl ERR_NO_SUCH_RUNNING_GAME, s)
  | Some game =>
      if decide (current_userid game = Some userid) then
        i ← current_rgp game;
        rgp ← seat game i;
        let current_options := calculate_current_options game i in
        let '(is_valid, _err) :=
          range_action_fits range_action current_options (range rgp) in
        if negb is_valid then Returned (inl ERR_INVALID_RANGES, s)
        else
          '(result, game') ← _perform_action game i range_action
                                current_options;
          Returned (inr result, put_game gameid game' s)
      else Returned (inl ERR_NOT_USERS_TURN, s)
  end.

(** [API.perform_action] *)
Definition perform_action (gameid : Z) (userid : Z)
    (range_action : ActionDetails) (s : Session)
  : (APIError + ActionResult) * Session :=
  api (perform_action_body gameid userid range_action) s.

(** ** Timeouts *)

(** [datetime.timedelta(days=7)], in seconds. *)
Definition timeout_period : Z := 7 * 24 * 60 * 60.

(** The fold-everything range action built by [API._timeout]. *)
Definition timeout_action (rgp : RunningGameParticipant) : ActionDetails :=
  mkActionDetails (range rgp) NOTHING NOTHING 0.

(** [API._timeout] *)
Definition _timeout (g : RunningGame) : outcome RunningGame :=
  i ← current_rgp g;
  rgp ← seat g i;
  let current_options := calculate_current_options g i in
  let range_action := timeout_action rgp in
  let g1 := _record_timeoout g rgp in
  '(_, g2) ← _perform_action g1 i range_action current_options;
  Returned g2.

Definition timed_out (g : RunningGame) : bool :=
  last_action_time g + timeout_period <? utcnow.

(** One iteration of the loop of [API.process_timeouts]. *)
Definition timeout_step (acc : Z * Session) (row : Z * RunningGame)
  : outcome (Z * Session) :=
  let '(count, s) := acc in
  let '(k, game) := row in
  if timed_out game then
    game' ← _timeout game;
    Returned (count + 1, put_game k game' s)
  else Returned (count, s).

Fixpoint timeout_loop (rows : list (Z * RunningGame)) (acc : Z * Session)
  : outcome (Z * Session) :=
  match rows with
  | [] => Returned acc
  | row :: rest => acc' ← timeout_step acc row; timeout_loop rest acc'
  end.

(** The query of [API.process_timeouts]: the games still on turn. *)
Definition games_on_turn (s : Session) : list (Z * RunningGame) :=
  List.filter (fun row => bool_decide (current_userid row.2 <> None))
    (map_to_list (running_games s)).

(** [API.process_timeouts] *)
Definition process_timeouts (s : Session) : (APIError + Z) * Session :=
  api (fun s0 =>
         '(count, s1) ← timeout_loop (games_on_turn s0) (0, s0);
         Returned (inr count, s1)) s.

(** ** History views *)

(** The child tables, the keys of [MAP_TABLE_DTO]. *)
Inductive HistoryTable :=
| GameHistoryUserRange
| GameHistoryRangeAction
| GameHistoryActionResult
| GameHistoryBoard
| GameHistoryTimeout.

Definition table_of (b : HistoryBody) : HistoryTable :=
  match b with
  | HUserRange _ _ => GameHistoryUserRange
  | HRangeAction _ _ _ _ _ _ _ => GameHistoryRangeAction
  | HActionResult _ _ => GameHistoryActionResult
  | HBoard _ _ => GameHistoryBoard
  | HTimeout _ => GameHistoryTimeout
  end.

#[global] Instance HistoryTable_eq_dec : EqDecision HistoryTable.
Proof. solve_decision. Defined.

(** [session.query(table).filter(table.gameid == game.gameid).all()] *)
Definition query_child (g : RunningGame) (table : HistoryTable)
  : list HistoryItem :=
  List.filter (fun it => bool_decide (table_of (h_body it) = table)
                         && (h_gameid it =? gameid g))
    (history g).

(** [sorted(items, key=lambda c: c.order)]: a stable insertion sort. *)
Fixpoint insert_by_order (x : HistoryItem) (l : list HistoryItem)
  : list HistoryItem :=
  match l with
  | [] => [x]
  | y :: rest => if h_order y <=? h_order x then y :: insert_by_order x rest
                 else x :: l
  end.

Definition sorted_by_order (l : list HistoryItem) : list HistoryItem :=
  foldl (fun acc x => insert_by_order x acc) [] l.

(** The DTO side of [rvr.core.dtos] that is not under src/: the item type,
    [GameItem.from_game_history_child], [should_include_for] and the
    analysis items. *)
Variable GameItem : Type.
Variable from_game_history_child : HistoryItem -> GameItem.
Variable should_include_for : GameItem -> option Z -> bool.
Variable MAP_TABLE_DTO_keys : list HistoryTable.
Variable AnalysisItems : Type.
Variable _get_analysis_items : RunningGame -> AnalysisItems.

(** Two columns the session of this model does not carry: the
    [screenname] of the [user] row of a userid, and
    [running_game.situation.description]. *)
Variable user_screenname : Z -> string.
Variable situation_description : RunningGame -> string.

(** [dtos.UserDetails] and [dtos.RunningGameDetails] *)
Record UserDetails := mkUserDetails {
  ud_userid : Z;
  ud_screenname : string
}.

Record RunningGameDetails := mkRunningGameDetails {
  gd_gameid : Z;
  gd_users : list UserDetails;
  gd_description : string;
  current_user_details : UserDetails
}.

(** The relationships [rgp.user] and [running_game.current_user]: the
    [user] row of the userid, [None] when there is none. *)
Definition user_of (s : Session) (u : option Z) : option Z :=
  match u with
  | Some u0 => if bool_decide (u0 ∈ users s) then Some u0 else None
  | None => None
  end.

(** [UserDetails.from_user]: [user.userid] of [None] raises. *)
Definition from_user (user : option Z) : outcome UserDetails :=
  match user with
  | Some u => Returned (mkUserDetails u (user_screenname u))
  | None => Raised AttributeError
  end.

(** [[UserDetails.from_user(r.user) for r in running_game.rgps]] *)
Fixpoint from_users (s : Session) (l : list RunningGameParticipant)
  : outcome (list UserDetails) :=
  match l with
  | [] => Returned []
  | r :: rest =>
      d ← from_user (user_of s (Some (userid r)));
      ds ← from_users s rest;
      Returned (d :: ds)
  end.

(** [RunningGameDetails.from_running_game] *)
Definition from_running_game (s : Session) (running_game : RunningGame)
  : outcome RunningGameDetails :=
  users ← from_users s (rgps running_game);
  let description := situation_description running_game in
  user_details ← from_user (user_of s (current_userid running_game));
  Returned (mkRunningGameDetails (gameid running_game) users description
              user_details).

(** The list of DTOs built by [API._get_history_items] before it filters. *)
Definition child_dtos (g : RunningGame) : list GameItem :=
  let child_items := map (query_child g) MAP_TABLE_DTO_keys in
  let all_child_items := sorted_by_order (concatenate child_items) in
  map from_game_history_child all_child_items.

(** [API._get_history_items] *)
Definition _get_history_items (g : RunningGame) (userid : option Z)
  : list GameItem :=
  List.filter (fun dto => is_finished g || should_include_for dto userid)
    (child_dtos g).

(** [dtos.RunningGameHistory] *)
Record RunningGameHistory := mkRunningGameHistory {
  game_details : RunningGameDetails;
  history_items : list GameItem;
  analysis_items : AnalysisItems;
  current_options : option CurrentOptions
}.

(** [API._get_game] *)
Definition _get_game (s : Session) (gameid : Z) (userid : option Z)
  : outcome (APIError + RunningGameHistory) :=
  let no_user := match userid with
                 | Some u => bool_decide (u ∉ users s)
                 | None => false
                 end in
  if no_user then Returned (inl ERR_NO_SUCH_USER)
  else
    match running_games s !! gameid with
    | None => Returned (inl ERR_NO_SUCH_RUNNING_GAME)
    | Some game =>
        details ← from_running_game s game;
        let items := _get_history_items game userid in
        let analysis := _get_analysis_items game in
        options ← match current_userid game with
                  | None => Returned None
                  | Some _ =>
                      i ← current_rgp game;
                      Returned (Some (calculate_current_options game i))
                  end;
        Returned (inr (mkRunningGameHistory details items analysis options))
    end.

(** [API.get_public_game] and [API.get_private_game]; reading a game
    changes no row, so the session is returned as it was. *)
Definition get_public_game (s : Session) (gameid : Z)
  : (APIError + RunningGameHistory) * Session :=
  api (fun s0 => r ← _get_game s0 gameid None; Returned (r, s0)) s.

Definition get_private_game (s : Session) (gameid : Z) (userid : Z)
  : (APIError + RunningGameHistory) * Session :=
  api (fun s0 => r ← _get_game s0 gameid (Some userid); Returned (r, s0)) s.

(** ** Starting a game *)

(** [l[n]] of Python: a negative index counts from the end, and an index
    out of range is an [IndexError]. *)
Definition python_index {A} (l : list A) (n : Z) : option A :=
  if (0 <=? n) && (n <? Z.of_nat (length l)) then l !! Z.to_nat n
  else if (- Z.of_nat (length l) <=? n) && (n <? 0)
       then l !! Z.to_nat (Z.of_nat (length l) + n)
       else None.

(** [deal_from_ranges] of [rvr.poker.handrange] is not under src/: it
    hands every situation player the cards dealt to it. *)
Variable deal_from_ranges :
  list Lobby.SituationPlayer -> list Card -> Lobby.SituationPlayer ->
  list Card.

(** The seats the loop of [_start_game] creates over
    [enumerate(zip(all_ogps, situation_players))]. *)
Fixpoint start_seats (order : Z) (all_ogps : list Lobby.OpenGameParticipant)
    (situation_players : list Lobby.SituationPlayer)
    (player_to_dealt : Lobby.SituationPlayer -> list Card)
  : list RunningGameParticipant :=
  match all_ogps, situation_players with
  | ogp :: ogps', s_p :: players' =>
      mkRgp (Lobby.ogp_userid ogp) order (Lobby.sp_stack s_p)
        (Lobby.sp_contributed s_p) (Lobby.sp_range_raw s_p)
        (Lobby.sp_left_to_act s_p) false (player_to_dealt s_p)
      :: start_seats (order + 1) ogps' players' player_to_dealt
  | _, _ => []
  end.

(** [open_game.situation] *)
Definition situation_of (open_game : Lobby.OpenGame) (t : Lobby.Tables)
  : option Lobby.Situation :=
  head (List.filter
          (fun s => Lobby.sit_situationid s =? Lobby.og_situationid open_game)
          (Lobby.situations t)).

(** [API._start_game]; the flush of the new running game fails when its
    gameid is taken, and the assertion in the loop compares
    [all_ogps[order].userid] with itself. *)
Definition _start_game (open_game : Lobby.OpenGame)
    (final_ogp : Lobby.OpenGameParticipant) (t : Lobby.Tables)
  : Lobby.attempt (RunningGame * Lobby.Tables) :=
  match situation_of open_game t with
  | None => Lobby.Thrown Lobby.AttributeError
  | Some situation =>
      let all_ogps :=
        Lobby.game_ogps (Lobby.og_gameid open_game) t ++ [final_ogp] in
      match python_index all_ogps (Lobby.sit_current_player_num situation)
      with
      | None => Lobby.Thrown Lobby.IndexError
      | Some current =>
          let running_game :=
            mkGame (Lobby.og_gameid open_game) []
              (Lobby.sit_board situation)
              (Lobby.sit_current_round situation)
              (Lobby.sit_pot_pre situation) (Lobby.sit_increment situation)
              (Lobby.sit_bet_count situation) (Lobby.sit_big_blind situation)
              (Some (Lobby.ogp_userid current)) false 0 utcnow [] in
          match Lobby.running_games t !! Lobby.og_gameid open_game with
          | Some _ => Lobby.Thrown Lobby.IntegrityError
          | None =>
              let player_to_dealt :=
                deal_from_ranges (Lobby.sit_players situation)
                  (board running_game) in
              let seats :=
                start_seats 0 all_ogps (Lobby.sit_players situation)
                  player_to_dealt in
              let t1 :=
                Lobby.delete_open_game (Lobby.og_gameid open_game) t in
              let running_game :=
                _deal_to_board (set_rgps seats running_game) in
              Lobby.Done
                (running_game,
                 Lobby.set_running_games
                   (<[Lobby.og_gameid open_game := running_game]>
                      (Lobby.running_games t1)) t1)
          end
      end
  end.

(** [running_game.gameid] and [rgp.userid == userid], named apart from the
    arguments [gameid] and [userid] of the calls below. *)
Definition started_gameid (running_game : RunningGame) : Z :=
  gameid running_game.

Definition seat_of_user (u : Z) (rgp : RunningGameParticipant) : bool :=
  userid rgp =? u.

(** The body of [API.join_game].  The commit is that of the only session
    at work, so it goes through and the retry after [IntegrityError] is
    not entered; the result of [ensure_open_games] is dropped. *)
Definition join_game_body (userid gameid : Z) (t : Lobby.Tables)
  : Lobby.attempt ((Lobby.APIError + option Z) * Lobby.Tables) :=
  match List.filter (fun g => Lobby.og_gameid g =? gameid)
          (Lobby.open_games t) with
  | [] => Lobby.Done (inl Lobby.ERR_NO_SUCH_OPEN_GAME, t)
  | game :: _ =>
      match List.filter (fun u => Lobby.u_userid u =? userid)
              (Lobby.users t) with
      | [] => Lobby.Done (inl Lobby.ERR_NO_SUCH_USER, t)
      | user :: _ =>
          if existsb (fun o => Lobby.ogp_userid o =? userid)
               (Lobby.game_ogps (Lobby.og_gameid game) t)
          then Lobby.Done (inl Lobby.ERR_JOIN_GAME_ALREADY_IN, t)
          else
            let t1 :=
              Lobby.set_open_games
                (Lobby.add_participants (Lobby.og_gameid game) 1
                   (Lobby.open_games t)) t in
            let game1 :=
              Lobby.mkOpenGame (Lobby.og_gameid game)
                (Lobby.og_situationid game)
                (Lobby.og_participants game + 1) in
            match situation_of game1 t1 with
            | None => Lobby.Thrown Lobby.AttributeError
            | Some situation =>
                if Lobby.sit_participants situation
                   <? Lobby.og_participants game1
                then Lobby.Done (inl Lobby.ERR_JOIN_GAME_GAME_FULL, t1)
                else
                  let ogp :=
                    Lobby.mkOgp (Lobby.u_userid user)
                      (Lobby.og_gameid game) in
                  if Lobby.og_participants game1
                     =? Lobby.sit_participants situation
                  then
                    match _start_game game1 ogp t1 with
                    | Lobby.Thrown e => Lobby.Thrown e
                    | Lobby.Done (running_game, t2) =>
                        Lobby.Done
                          (inr (Some (started_gameid running_game)),
                           (Lobby.ensure_open_games t2).2)
                    end
                  else
                    Lobby.Done
                      (inr None,
                       (Lobby.ensure_open_games
                          (Lobby.set_ogps (Lobby.ogps t1 ++ [ogp]) t1)).2)
            end
      end
  end.

(** [API.join_game] *)
Definition join_game (userid gameid : Z) (t : Lobby.Tables)
  : (Lobby.APIError + option Z) * Lobby.Tables :=
  Lobby.api (join_game_body userid gameid) t.

(** ** A user's games *)

(** [RunningGameSummary.from_running_game] of [rvr.core.dtos] is not
    under src/. *)
Variable RunningGameSummary : Type.
Variable summary_from_running_game : RunningGame -> RunningGameSummary.

(** The games of the rows [query(RunningGameParticipant).filter(userid ==
    userid)] returns, one per row. *)
Definition user_rgp_games (userid : Z) (t : Lobby.Tables) : list RunningGame :=
  concatenate
    (map (fun row : Z * RunningGame =>
            map (fun _ => row.2)
              (List.filter (seat_of_user userid) (rgps row.2)))
       (map_to_list (Lobby.running_games t))).

(** [dtos.UsersGameDetails] *)
Record UsersGameDetails := mkUsersGameDetails {
  ugd_userid : Z;
  running_details : list RunningGameSummary;
  finished_details : list RunningGameSummary
}.

(** [API.get_user_running_games] *)
Definition get_user_running_games (userid : Z) (t : Lobby.Tables)
  : (Lobby.APIError + UsersGameDetails) * Lobby.Tables :=
  Lobby.api
    (fun t0 =>
       let games := user_rgp_games userid t0 in
       let running_games :=
         map summary_from_running_game
           (List.filter (fun g => bool_decide (current_userid g <> None))
              games) in
       let finished_games :=
         map summary_from_running_game
           (List.filter (fun g => bool_decide (current_userid g = None))
              games) in
       Lobby.Done
         (inr (mkUsersGameDetails userid running_games finished_games), t0))
    t.

(** A range action that splits the button's range between fold and call. *)
Definition split_action : ActionDetails :=
  mkActionDetails [mkCombo c7 c6 1] [mkCombo Qs Qh 1] NOTHING 0.

(** The session holding the heads-up game and its two users. *)
Definition example_session : Session :=
  mkSession {[1 := hu_game]} {[10; 11]}.

(** A session whose only game is the one-seat game. *)
Definition lone_session : Session :=
  mkSession {[2 := lone_game]} {[10]}.

(** The action that folds the button's whole range. *)
Definition fold_all : ActionDetails :=
  mkActionDetails (range hu_btn) NOTHING NOTHING 0.

(** A visibility rule: a range row is shown to its owner only. *)
Definition example_should_include_for (item : HistoryItem)
    (viewer : option Z) : bool :=
  match h_body item with
  | HUserRange owner _ => bool_decide (viewer = Some owner)
  | _ => true
  end.

Definition all_tables : list HistoryTable :=
  [GameHistoryUserRange; GameHistoryRangeAction; GameHistoryActionResult;
   GameHistoryBoard; GameHistoryTimeout].

(** ** Vocabulary of the statements *)

(** Chips in front of the seats: stacks plus this round's contributions. *)
Definition seats_chips (l : list RunningGameParticipant) : Z :=
  foldr (fun p acc => stack p + contributed p + acc) 0 l.

Definition seats_contributed (l : list RunningGameParticipant) : Z :=
  foldr (fun p acc => contributed p + acc) 0 l.

(** The conserved quantity of sections 3 and 8. *)
Definition total_chips (g : RunningGame) : Z :=
  seats_chips (rgps g) + pot_pre g.

(** The cards [_deal_to_board] adds when the street is [r]. *)
Definition dealt_for (g : RunningGame) (r : Round) : list Card :=
  deal_cards deck (concatenate (map cards_dealt (rgps g)) ++ board g)
    (TOTAL_COMMUNITY_CARDS r - length (board g)).

(** The cards the dealer can still propose for the board of [g]. *)
Definition undealt (g : RunningGame) : list Card :=
  List.filter
    (fun c => negb (card_in c (concatenate (map cards_dealt (rgps g))
                               ++ board g)))
    deck.

(** The seats a running game needs for an action to go through: the actor
    exists, orders are distinct, and some other seat has not folded. *)
Definition action_ready (g : RunningGame) (i : nat) : Prop :=
  is_Some (rgps g !! i)
  /\ NoDup (order <$> rgps g)
  /\ exists j q, j <> i /\ rgps g !! j = Some q /\ folded q = false.

(** Seats still in the hand. *)
Definition count_unfolded (l : list RunningGameParticipant) : nat :=
  length (List.filter (fun p => negb (folded p)) l).

(** The shape of a hand in play: a folded seat is not left to act, and at
    least two seats have not folded. *)
Definition table_ok (g : RunningGame) : Prop :=
  Forall (fun p => folded p = true -> left_to_act p = false) (rgps g)
  /\ (2 <= count_unfolded (rgps g))%nat.

(** The rows of a game are numbered below [next_hh], in increasing order. *)
Definition hh_ordered (g : RunningGame) : Prop :=
  StronglySorted (fun a b => h_order a < h_order b) (history g)
  /\ Forall (fun it => h_order it < next_hh g) (history g).

(** What no seat action, deal or sweep changes about a seat: who sits
    there, where, and with which hole cards; and a fold is for good. *)
Definition seat_step (p p' : RunningGameParticipant) : Prop :=
  userid p' = userid p
  /\ order p' = order p
  /\ cards_dealt p' = cards_dealt p
  /\ (folded p = true -> folded p' = true).

(** The keys of the user table: screen names, emails and userids are
    distinct, and the sequence is ahead of every userid. *)
Definition users_ok (t : Lobby.Tables) : Prop :=
  NoDup (map Lobby.u_screenname (Lobby.users t))
  /\ NoDup (map Lobby.u_email (Lobby.users t))
  /\ NoDup (map Lobby.u_userid (Lobby.users t))
  /\ Forall (fun u => Lobby.u_userid u < Lobby.user_seq t) (Lobby.users t).

(** The keys of [open_game]: gameids are distinct and below the sequence
    they are drawn from. *)
Definition games_ok (t : Lobby.Tables) : Prop :=
  NoDup (map Lobby.og_gameid (Lobby.open_games t))
  /\ Forall (fun g => Lobby.og_gameid g < Lobby.gameid_seq t)
       (Lobby.open_games t).

(** Every situation of the table has exactly one open game nobody joined. *)
Definition one_empty_each (t : Lobby.Tables) : Prop :=
  Forall (fun s => length (Lobby.empty_open (Lobby.sit_situationid s)
                             (Lobby.open_games t)) = 1%nat)
    (Lobby.situations t).

(** What the deletions of [ensure_open_games] leave of the open games. *)
Definition kept_after (ds : list Lobby.OpenGame) (g : Lobby.OpenGame) : bool :=
  negb (existsb (fun d => Lobby.og_gameid g =? Lobby.og_gameid d) ds).

(** The keys of [situation]: descriptions and situationids are distinct,
    and the sequence is ahead of every situationid. *)
Definition situations_ok (t : Lobby.Tables) : Prop :=
  NoDup (map Lobby.sit_description (Lobby.situations t))
  /\ NoDup (map Lobby.sit_situationid (Lobby.situations t))
  /\ Forall (fun s => Lobby.sit_situationid s < Lobby.situation_seq t)
       (Lobby.situations t).

(** A description some situation of the table already has. *)
Definition description_taken (d : string) (t : Lobby.Tables) : Prop :=
  In d (map Lobby.sit_description (Lobby.situations t)).

(** Drops the collaborators a statement does not mention. *)
Ltac tidy :=
  try clear summary_from_running_game; try clear RunningGameSummary;
  try clear deal_from_ranges;
  try clear situation_description; try clear user_screenname;
  try clear _get_analysis_items;
  try clear should_include_for; try clear from_game_history_child;
  try clear MAP_TABLE_DTO_keys; try clear GameItem;
  try clear AnalysisItems; try clear finish_game;
  try clear calculate_what_will_be; try clear calculate_current_options;
  try clear TOTAL_COMMUNITY_CARDS; try clear utcnow; try clear deck.

(** * Chip conservation *)

Lemma seats_chips_alter f i l :
  (forall p, stack (f p) + contributed (f p) = stack p + contributed p) ->
  seats_chips (alter f i l) = seats_chips l.
Proof.
  intros Hf. revert i. induction l as [|p l IH]; intros [|i]; simpl; trivial.
  - rewrite Hf. reflexivity.
  - f_equal. apply IH.
Qed.

Lemma seats_chips_imap
    (f : nat -> RunningGameParticipant -> RunningGameParticipant) l :
  (forall j p, stack (f j p) + contributed (f j p) = stack p + contributed p) ->
  seats_chips (imap f l) = seats_chips l.
Proof.
  revert f. induction l as [|p l IH]; intros f Hf; simpl; trivial.
  rewrite Hf, IH; [reflexivity|]. intros j q. apply Hf.
Qed.

Lemma act_total_chips g i ar g1 :
  act g i ar = Returned g1 -> total_chips g1 = total_chips g.
Proof.
  destruct ar; simpl; intros H; inversion H; subst; clear H;
    unfold total_chips, act_fold, act_passive, act_aggressive, update_rgp;
    simpl; f_equal.
  - apply seats_chips_alter. intros p. reflexivity.
  - apply seats_chips_alter. intros p. simpl. lia.
  - apply seats_chips_imap. intros j p. destruct (decide (j = i)); simpl.
    + lia.
    + destruct (folded p); reflexivity.
Qed.

Lemma sweep_spec l : forall pot pot' l',
  sweep pot l = (pot', l') ->
  pot' = pot + seats_contributed l
  /\ map stack l' = map stack l
  /\ Forall (fun p => contributed p = 0) l'
  /\ map folded l' = map folded l
  /\ Forall2 (fun p p' => left_to_act p' = if folded p then left_to_act p
                                        else true) l l'.
Proof.
  induction l as [|p l IH]; simpl; intros pot pot' l' H.
  - inversion H; subst. repeat split; auto. lia.
  - destruct (sweep (pot + contributed p) l) as [pot2 rest] eqn:E.
    inversion H; subst; clear H.
    destruct (IH _ _ _ E) as (-> & Hs & Hc & Hf & Hl).
    repeat split; simpl.
    + lia.
    + destruct (folded p); simpl; f_equal; assumption.
    + constructor; [destruct (folded p); reflexivity | assumption].
    + destruct (folded p) eqn:Ef; simpl; rewrite ?Ef; f_equal; assumption.
    + constructor; [destruct (folded p); reflexivity | assumption].
Qed.

Lemma seats_chips_split l :
  seats_chips l = foldr Z.add 0 (map stack l) + seats_contributed l.
Proof. induction l as [|p l IH]; simpl; lia. Qed.

Lemma seats_contributed_zero l :
  Forall (fun p => contributed p = 0) l -> seats_contributed l = 0.
Proof. induction 1 as [|p l Hp _ IH]; simpl; lia. Qed.

Lemma deal_to_board_seats g :
  map stack (rgps (_deal_to_board g)) = map stack (rgps g)
  /\ map contributed (rgps (_deal_to_board g)) = map contributed (rgps g)
  /\ map folded (rgps (_deal_to_board g)) = map folded (rgps g)
  /\ map left_to_act (rgps (_deal_to_board g)) = map left_to_act (rgps g)
  /\ pot_pre (_deal_to_board g) = pot_pre g
  /\ big_blind (_deal_to_board g) = big_blind g.
Proof.
  unfold _deal_to_board.
  destruct (length (board g) <? TOTAL_COMMUNITY_CARDS (current_round g))%nat;
    simpl; rewrite !map_map; simpl; repeat split; reflexivity.
Qed.

Lemma seats_contributed_map l l' :
  map contributed l = map contributed l' ->
  seats_contributed l = seats_contributed l'.
Proof.
  revert l'. induction l as [|p l IH]; intros [|p' l'] H; simpl in *;
    try discriminate; trivial.
  inversion H. rewrite (IH l'); [lia | assumption].
Qed.

(** ** What a seat action leaves alone *)

Lemma fmap_alter_preserved {B} (proj : RunningGameParticipant -> B) f
    (i : nat) (l : list RunningGameParticipant) :
  (forall p, proj (f p) = proj p) -> proj <$> alter f i l = proj <$> l.
Proof.
  intros Hf. apply list_eq. intros j. rewrite !list_lookup_fmap.
  destruct (decide (i = j)) as [->|Hne].
  - rewrite list_lookup_alter_eq. destruct (l !! j); simpl; f_equal; auto.
  - rewrite list_lookup_alter_ne by assumption. reflexivity.
Qed.

Lemma fmap_imap_preserved {B} (proj : RunningGameParticipant -> B) f
    (l : list RunningGameParticipant) :
  (forall j p, proj (f j p) = proj p) -> proj <$> imap f l = proj <$> l.
Proof.
  intros Hf. apply list_eq. intros j.
  rewrite !list_lookup_fmap, list_lookup_imap.
  destruct (l !! j); simpl; f_equal; auto.
Qed.

Lemma act_orders g i ar g1 :
  act g i ar = Returned g1 ->
  order <$> rgps g1 = order <$> rgps g
  /\ userid <$> rgps g1 = userid <$> rgps g
  /\ current_round g1 = current_round g
  /\ pot_pre g1 = pot_pre g.
Proof.
  destruct ar; simpl; intros H; inversion H; subst; clear H;
    unfold act_fold, act_passive, act_aggressive, update_rgp; simpl;
    repeat split;
    first [ apply fmap_alter_preserved; intros p; reflexivity
          | apply fmap_imap_preserved; intros j p;
            destruct (decide (j = i)); [reflexivity|];
            destruct (folded p); reflexivity ].
Qed.

Lemma act_lookup_self g i ar g1 p :
  act g i ar = Returned g1 -> rgps g !! i = Some p ->
  exists p', rgps g1 !! i = Some p' /\ left_to_act p' = false.
Proof.
  destruct ar; simpl; intros H Hp; inversion H; subst; clear H;
    unfold act_fold, act_passive, act_aggressive, update_rgp; simpl;
    rewrite ?list_lookup_alter_eq, ?list_lookup_imap, Hp; simpl;
    eexists; split; try reflexivity.
  destruct (decide (i = i)); [reflexivity | congruence].
Qed.

Lemma act_lookup_other g i ar g1 j q :
  act g i ar = Returned g1 -> j <> i -> rgps g !! j = Some q ->
  exists q', rgps g1 !! j = Some q' /\ folded q' = folded q.
Proof.
  destruct ar; simpl; intros H Hne Hq; inversion H; subst; clear H;
    unfold act_fold, act_passive, act_aggressive, update_rgp; simpl;
    rewrite ?list_lookup_imap, ?list_lookup_alter_ne, Hq by congruence;
    simpl; eexists; split; try reflexivity.
  destruct (decide (j = i)); [congruence|].
  destruct (folded q) eqn:E; simpl; congruence.
Qed.

(** ** [min] of a non-empty sequence *)

Lemma min_by_order_is_Some l : l <> [] -> is_Some (min_by_order l).
Proof.
  destruct l as [|p l]; [congruence|]. intros _. simpl.
  destruct (min_by_order l) as [q|]; [destruct (order q <? order p)|]; eauto.
Qed.

Lemma min_by_order_spec l m :
  min_by_order l = Some m ->
  In m l /\ (forall q, In q l -> order m <= order q).
Proof.
  revert m. induction l as [|p l IH]; simpl; intros m H; [discriminate|].
  destruct (min_by_order l) as [q|] eqn:E.
  - destruct (IH q eq_refl) as [Hin Hle].
    destruct (order q <? order p) eqn:Hlt; inversion H; subst; clear H.
    + apply Z.ltb_lt in Hlt. split; [auto|].
      intros r [<-|Hr]; [lia | auto].
    + apply Z.ltb_ge in Hlt. split; [auto|].
      intros r [<-|Hr]; [lia|]. specialize (Hle r Hr). lia.
  - inversion H; subst. destruct l; [|simpl in E;
      destruct (min_by_order l); [destruct (_ <? _)|]; discriminate].
    split; [auto|]. intros r [<-|[]]. lia.
Qed.

(** ** The end of a betting round *)

Lemma deal_to_board_board g :
  board (_deal_to_board g) = board g ++ dealt_for g (current_round g)
  /\ current_round (_deal_to_board g) = current_round g
  /\ current_userid (_deal_to_board g) = current_userid g
  /\ is_finished (_deal_to_board g) = is_finished g.
Proof.
  unfold _deal_to_board, dealt_for.
  destruct (length (board g) <? TOTAL_COMMUNITY_CARDS (current_round g))%nat;
    simpl; repeat split; reflexivity.
Qed.

Lemma finish_betting_round_spec g remain g' :
  _finish_betting_round g remain = Returned g' ->
  exists current_user r,
    min_by_order remain = Some current_user
    /\ NEXT_ROUND (current_round g) = Some r
    /\ current_userid g' = Some (userid current_user)
    /\ current_round g' = r
    /\ board g' = board g ++ dealt_for g r
    /\ increment g' = big_blind g
    /\ bet_count g' = 0
    /\ pot_pre g' = pot_pre g + seats_contributed (rgps g)
    /\ Forall (fun p => contributed p = 0) (rgps g')
    /\ map stack (rgps g') = map stack (rgps g)
    /\ map folded (rgps g') = map folded (rgps g)
    /\ is_finished g' = is_finished g
    /\ Forall2 (fun p p' => left_to_act p' = if folded p then left_to_act p
                                           else true)
         (rgps g) (rgps g').
Proof.
  unfold _finish_betting_round.
  destruct (min_by_order remain) as [cu|]; [|discriminate].
  cbv zeta. change (current_round (set_current_userid _ g))
    with (current_round g).
  destruct (NEXT_ROUND (current_round g)) as [r|]; [|discriminate].
  set (g2 := set_current_round r (set_current_userid (Some (userid cu)) g)).
  destruct (deal_to_board_seats g2) as (Ds & Dc & Df & Dl & Dp & Db).
  destruct (deal_to_board_board g2) as (Bb & Br & Bu & Bf).
  remember (_deal_to_board g2) as g3 eqn:E3.
  change (pot_pre (set_bet_count 0 (set_increment (big_blind g3) g3)))
    with (pot_pre g3).
  change (rgps (set_bet_count 0 (set_increment (big_blind g3) g3)))
    with (rgps g3).
  destruct (sweep (pot_pre g3) (rgps g3)) as [pot seats] eqn:E.
  intros H; inversion H; subst g'; clear H.
  destruct (sweep_spec _ _ _ _ E) as (Hpot & Hst & Hc & Hf & Hl).
  exists cu, r. simpl.
  repeat match goal with |- _ /\ _ => split end;
    try assumption; try reflexivity.
  - rewrite Hpot, Dp. f_equal. apply seats_contributed_map. exact Dc.
  - rewrite Hst. exact Ds.
  - rewrite Hf. exact Df.
  - change (rgps g) with (rgps g2).
    revert Hl Df Dl. generalize (rgps g3) (rgps g2). clear.
    intros l l0 Hl. revert l0.
    induction Hl as [|p p' l l' Hp _ IH]; intros [|p0 l0] Df Dl;
      simpl in *; try discriminate; constructor.
    + injection Df as Ef _. injection Dl as El _.
      rewrite <- Ef, <- El. exact Hp.
    + injection Df as _ Df. injection Dl as _ Dl. apply IH; assumption.
Qed.

Lemma finish_betting_round_returns g remain :
  remain <> [] -> current_round g <> RIVER ->
  exists g', _finish_betting_round g remain = Returned g'.
Proof.
  intros Hr Hriver. unfold _finish_betting_round.
  destruct (min_by_order_is_Some remain Hr) as [cu ->]. simpl.
  destruct (current_round g) eqn:E; simpl; try congruence;
    match goal with
    | |- context [sweep ?a ?b] => destruct (sweep a b)
    end; eauto.
Qed.

(** ** The three exits of [apply_action_result] *)

Lemma classic_walk g :
  (length (seats_left_to_act g) = 1%nat /\ seats_remain g = [])
  \/ ~ (length (seats_left_to_act g) = 1%nat /\ seats_remain g = []).
Proof.
  tidy.
  destruct (decide (length (seats_left_to_act g) = 1%nat)) as [H1|H1];
    [|right; tauto].
  destruct (seats_remain g); [left; auto | right; intros [_ H]; congruence].
Qed.

Lemma is_nil_true {A} (l : list A) : is_nil l = true <-> l = [].
Proof. destruct l; simpl; split; congruence. Qed.

Lemma is_nil_false {A} (l : list A) : is_nil l = false <-> l <> [].
Proof. destruct l; simpl; split; congruence. Qed.

Lemma after_act_walk g o :
  length (seats_left_to_act g) = 1%nat -> seats_remain g = [] ->
  after_act g o = Returned (set_is_finished true g).
Proof.
  intros Hl Hr. unfold after_act. rewrite Hl, Hr. reflexivity.
Qed.

Lemma after_act_closed g o :
  seats_left_to_act g = [] ->
  after_act g o =
  if (length (seats_remain g) =? 1)%nat
     || bool_decide (current_round g = RIVER)
  then Returned (set_is_finished true g)
  else _finish_betting_round g (seats_remain g).
Proof.
  intros Hl. unfold after_act. rewrite Hl. simpl. reflexivity.
Qed.

Lemma after_act_next g o :
  seats_left_to_act g <> [] ->
  ~ (length (seats_left_to_act g) = 1%nat /\ seats_remain g = []) ->
  after_act g o =
  let left := seats_left_to_act g in
  let later := List.filter (fun p => o <? order p) left in
  let earlier := List.filter (fun p => order p <? o) left in
  match min_by_order (if is_nil later then earlier else later) with
  | None => Raised ValueError
  | Some next_rgp => Returned (set_current_userid (Some (userid next_rgp)) g)
  end.
Proof.
  tidy.
  intros Hl Hw. unfold after_act.
  destruct ((length (seats_left_to_act g) =? 1)%nat
            && is_nil (seats_remain g)) eqn:E.
  - apply andb_true_iff in E as [E1 E2].
    apply Nat.eqb_eq in E1. apply is_nil_true in E2. tauto.
  - apply is_nil_false in Hl. rewrite Hl. reflexivity.
Qed.

Lemma after_act_total_chips g o g' :
  after_act g o = Returned g' -> total_chips g' = total_chips g.
Proof.
  unfold after_act.
  destruct (_ && _).
  { intros H; inversion H; reflexivity. }
  destruct (is_nil (seats_left_to_act g)).
  - destruct (_ || _).
    { intros H; inversion H; reflexivity. }
    intros H. apply finish_betting_round_spec in H
      as (cu & r & _ & _ & _ & _ & _ & _ & _ & Hp & Hc & Hs & _).
    unfold total_chips. rewrite !seats_chips_split, Hs, Hp.
    rewrite (seats_contributed_zero _ Hc). lia.
  - cbv zeta. destruct (min_by_order _); [|discriminate].
    intros H; inversion H; reflexivity.
Qed.

(** A seat still left to act after the action is not the actor, and under
    distinct orders it does not share the actor's order. *)
Lemma left_to_act_not_actor g i ar g1 rgp q :
  rgps g !! i = Some rgp -> act g i ar = Returned g1 ->
  NoDup (order <$> rgps g) ->
  In q (seats_left_to_act g1) -> order q <> order rgp.
Proof.
  intros Hi Hact Hnd Hq Heq.
  apply filter_In in Hq as [Hin Hlta].
  apply list_elem_of_In, list_elem_of_lookup in Hin as [j Hj].
  destruct (act_orders _ _ _ _ Hact) as (Ho & _).
  destruct (decide (j = i)) as [->|Hne].
  - destruct (act_lookup_self _ _ _ _ _ Hact Hi) as (p' & Hp' & Hf).
    congruence.
  - apply Hne. rewrite <- Ho in Hnd.
    apply (NoDup_lookup _ j i (order q) Hnd).
    + rewrite list_lookup_fmap, Hj. reflexivity.
    + rewrite Ho, list_lookup_fmap, Hi. simpl. congruence.
Qed.

Lemma chosen_not_nil g i ar g1 rgp :
  rgps g !! i = Some rgp -> act g i ar = Returned g1 ->
  NoDup (order <$> rgps g) ->
  seats_left_to_act g1 <> [] ->
  let left := seats_left_to_act g1 in
  let later := List.filter (fun p => order rgp <? order p) left in
  let earlier := List.filter (fun p => order p <? order rgp) left in
  (if is_nil later then earlier else later) <> [].
Proof.
  intros Hi Hact Hnd Hne. cbv zeta.
  pose proof (fun q => left_to_act_not_actor _ _ _ _ _ q Hi Hact Hnd) as Hneq.
  destruct (seats_left_to_act g1) as [|q rest]; [congruence|].
  specialize (Hneq q (or_introl eq_refl)). simpl.
  destruct (order rgp <? order q) eqn:E1; [simpl; congruence|].
  apply Z.ltb_ge in E1.
  assert ((order q <? order rgp) = true) as -> by (apply Z.ltb_lt; lia).
  destruct (is_nil _) eqn:E; [congruence | apply is_nil_false; exact E].
Qed.

Lemma apply_action_result_returns g i ar :
  action_ready g i -> ar <> Terminate ->
  exists g', apply_action_result g i ar = Returned g'.
Proof.
  intros ([rgp Hi] & Hnd & j & q & Hji & Hj & Hq) Har.
  unfold apply_action_result. rewrite Hi.
  assert (exists g1, act g i ar = Returned g1) as [g1 Hact]
    by (destruct ar; simpl; eauto; congruence).
  rewrite Hact. simpl.
  destruct (act_lookup_other _ _ _ _ _ _ Hact Hji Hj) as (q' & Hq' & Hf').
  assert (Hin : In q' (rgps g1))
    by (apply list_elem_of_In, list_elem_of_lookup; eauto).
  destruct (is_nil (seats_left_to_act g1)) eqn:El.
  - apply is_nil_true in El. rewrite (after_act_closed _ _ El).
    destruct (_ || _) eqn:E; [eauto|].
    apply orb_false_iff in E as [_ E]. apply bool_decide_eq_false in E.
    apply finish_betting_round_returns; [|assumption].
    assert (In q' (seats_remain g1)) as Hr; [|intros E0; rewrite E0 in Hr;
      exact Hr].
    apply filter_In. split; [assumption|].
    destruct (left_to_act q') eqn:Elta.
    + assert (In q' (seats_left_to_act g1)) as Hc
        by (apply filter_In; auto).
      rewrite El in Hc. destruct Hc.
    + rewrite Hf', Hq. reflexivity.
  - apply is_nil_false in El.
    destruct (classic_walk g1) as [[Hw1 Hw2]|Hw].
    + rewrite (after_act_walk _ _ Hw1 Hw2). eauto.
    + rewrite (after_act_next _ _ El Hw). cbv zeta.
      pose proof (chosen_not_nil _ _ _ _ _ Hi Hact Hnd El) as Hc.
      cbv zeta in Hc. destruct (min_by_order_is_Some _ Hc) as [m ->]. eauto.
Qed.

(** ** A hand in play keeps two seats

    From a table of two or more un-folded seats the state machine never
    leaves a game unfinished with fewer: the hand finishes when the
    last-but-one seat folds.  So [_finish_betting_round] is never reached
    with nobody remaining. *)

Lemma count_unfolded_folded l l' :
  map folded l = map folded l' -> count_unfolded l = count_unfolded l'.
Proof.
  unfold count_unfolded. revert l'.
  induction l as [|p l IH]; intros [|p' l'] H; simpl in *;
    try discriminate; trivial.
  injection H as Hp Hl. rewrite Hp. destruct (folded p'); simpl;
    [|f_equal]; apply IH; assumption.
Qed.

Lemma count_unfolded_alter f (i : nat) (l : list RunningGameParticipant) :
  (count_unfolded l <= S (count_unfolded (alter f i l)))%nat.
Proof.
  unfold count_unfolded. revert i.
  induction l as [|p l IH]; intros [|i]; simpl; try lia.
  - destruct (folded p), (folded (f p)); simpl; lia.
  - specialize (IH i). change (list_alter f i l) with (alter f i l).
    destruct (folded p); simpl; lia.
Qed.

Lemma act_count_unfolded g i ar g1 :
  act g i ar = Returned g1 ->
  (count_unfolded (rgps g) <= S (count_unfolded (rgps g1)))%nat.
Proof.
  destruct ar; simpl; intros H; inversion H; subst; clear H;
    unfold act_fold, act_passive, act_aggressive, update_rgp; simpl;
    try apply count_unfolded_alter.
  rewrite (count_unfolded_folded (rgps g)
             (imap (fun j p =>
                      if decide (j = i)
                      then set_left_to_act false
                             (set_contributed raise_total0
                                (set_stack
                                   (stack p - (raise_total0 - contributed p))
                                   p))
                      else if folded p then p else set_left_to_act true p)
                (rgps g))); [lia|].
  symmetry. apply (fmap_imap_preserved folded). intros j p.
  destruct (decide (j = i)); [reflexivity|].
  destruct (folded p) eqn:E; simpl; congruence.
Qed.

Lemma act_folded_not_left g i ar g1 :
  act g i ar = Returned g1 ->
  Forall (fun p => folded p = true -> left_to_act p = false) (rgps g) ->
  Forall (fun p => folded p = true -> left_to_act p = false) (rgps g1).
Proof.
  intros Hact Hinv. rewrite Forall_lookup in Hinv. apply Forall_lookup.
  intros j p1 Hj.
  destruct ar; simpl in Hact; inversion Hact; subst; clear Hact;
    unfold act_fold, act_passive, act_aggressive, update_rgp in Hj;
    simpl in Hj.
  - rewrite list_lookup_alter in Hj. case_decide; [|eauto].
    apply fmap_Some in Hj as (p & Hp & ->). reflexivity.
  - rewrite list_lookup_alter in Hj. case_decide; [|eauto].
    apply fmap_Some in Hj as (p & Hp & ->). reflexivity.
  - rewrite list_lookup_imap in Hj.
    apply fmap_Some in Hj as (p & Ep & ->).
    destruct (decide (j = i)); [reflexivity|].
    destruct (folded p) eqn:E; [eauto|]. simpl. congruence.
Qed.

Lemma seats_partition l :
  Forall (fun p => folded p = true -> left_to_act p = false) l ->
  (length (List.filter left_to_act l)
   + length (List.filter (fun p => negb (left_to_act p) && negb (folded p)) l)
   = count_unfolded l)%nat.
Proof.
  unfold count_unfolded.
  induction 1 as [|p l Hp _ IH]; simpl; [reflexivity|].
  destruct (left_to_act p) eqn:El, (folded p) eqn:Ef; simpl; try lia;
    specialize (Hp eq_refl); discriminate.
Qed.

Lemma finish_betting_round_folded_not_left g remain g' :
  _finish_betting_round g remain = Returned g' ->
  Forall (fun p => folded p = true -> left_to_act p = false) (rgps g) ->
  Forall (fun p => folded p = true -> left_to_act p = false) (rgps g').
Proof.
  intros H Hinv.
  destruct (finish_betting_round_spec _ _ _ H)
    as (_ & _ & _ & _ & _ & _ & _ & _ & _ & _ & _ & _ & Hf & _ & Hl).
  revert Hf Hinv. induction Hl as [|p p' l l' Hp _ IH]; simpl; intros Hf Hinv;
    [constructor|].
  injection Hf as Hfp Hf. inversion Hinv; subst.
  constructor; [|auto].
  intros Hfolded. rewrite Hp. rewrite Hfp in Hfolded. rewrite Hfolded. auto.
Qed.

Lemma running_keeps_two_unfolded g i ar g' :
  table_ok g ->
  apply_action_result g i ar = Returned g' ->
  is_finished g' = false ->
  table_ok g'.
Proof.
  intros [Hinv Hcount]. unfold apply_action_result.
  destruct (rgps g !! i) as [rgp|]; [|discriminate].
  destruct (act g i ar) as [g1|e] eqn:Hact; [|discriminate]. simpl.
  pose proof (act_count_unfolded _ _ _ _ Hact) as Hc1.
  pose proof (act_folded_not_left _ _ _ _ Hact Hinv) as Hinv1.
  pose proof (seats_partition _ Hinv1) as Hpart.
  fold (seats_left_to_act g1) in Hpart. fold (seats_remain g1) in Hpart.
  destruct (is_nil (seats_left_to_act g1)) eqn:El.
  - apply is_nil_true in El. rewrite (after_act_closed _ _ El).
    destruct (_ || _) eqn:E.
    { intros H Hf. inversion H; subst. discriminate Hf. }
    apply orb_false_iff in E as [E _]. apply Nat.eqb_neq in E.
    intros H _. split.
    + eapply finish_betting_round_folded_not_left; eassumption.
    + destruct (finish_betting_round_spec _ _ _ H)
        as (_ & _ & _ & _ & _ & _ & _ & _ & _ & _ & _ & _ & Hf & _).
      rewrite (count_unfolded_folded _ _ Hf).
      rewrite El in Hpart. simpl in Hpart. lia.
  - apply is_nil_false in El.
    destruct (classic_walk g1) as [[Hw1 Hw2]|Hw].
    { rewrite (after_act_walk _ _ Hw1 Hw2).
      intros H Hf. inversion H; subst. discriminate Hf. }
    rewrite (after_act_next _ _ El Hw). cbv zeta.
    destruct (min_by_order _); [|discriminate].
    intros H _. inversion H; subst; clear H. split; [exact Hinv1|]. simpl.
    destruct (seats_left_to_act g1) as [|q left] eqn:Eleft; [congruence|].
    destruct (seats_remain g1) as [|r0 remain] eqn:Er; simpl in *.
    + destruct left; simpl in *; [exfalso; apply Hw; auto | lia].
    + lia.
Qed.

(** C1: applying an accepted (non-terminate) action result leaves the sum
    over all seats of stack plus contributed, plus pot_pre, as it was, and
    a ready game does return from the call; in particular
    [_finish_betting_round] moves every contribution into pot_pre, zeroes
    the contributions and changes no stack. *)
Theorem chips_conserved :
  (forall g i ar g',
      apply_action_result g i ar = Returned g' ->
      total_chips g' = total_chips g)
  /\ (forall g i ar,
        action_ready g i -> ar <> Terminate ->
        exists g', apply_action_result g i ar = Returned g'
                   /\ total_chips g' = total_chips g)
  /\ (forall g remain g',
        _finish_betting_round g remain = Returned g' ->
        pot_pre g' = pot_pre g + seats_contributed (rgps g)
        /\ Forall (fun p => contributed p = 0) (rgps g')
        /\ map stack (rgps g') = map stack (rgps g)).
Proof.
  assert (Hsafe : forall g i ar g',
             apply_action_result g i ar = Returned g' ->
             total_chips g' = total_chips g).
  { intros g i ar g'. unfold apply_action_result.
    destruct (rgps g !! i) as [rgp|]; [|discriminate].
    destruct (act g i ar) as [g1|e] eqn:Hact; [|discriminate]. simpl.
    intros H. rewrite (after_act_total_chips _ _ _ H).
    eapply act_total_chips; eassumption. }
  split; [exact Hsafe|]. split.
  - intros g i ar Hready Har.
    destruct (apply_action_result_returns g i ar Hready Har) as [g' Hg'].
    exists g'. split; [assumption | eapply Hsafe; eassumption].
  - intros g remain g' H.
    apply finish_betting_round_spec in H
      as (cu & r & _ & _ & _ & _ & _ & _ & _ & Hp & Hc & Hs & _).
    auto.
Qed.

(** C2: on a table in play (two or more seats have not folded, and no
    folded seat is left to act), after a non-terminate action result is
    applied the game is marked finished when exactly one seat is left to
    act and no other seat remains un-folded; when no seat is left to act,
    the game is marked finished when at most one non-folded seat remains
    or the street is the river, and otherwise the betting round completes
    and the street advances. *)
Theorem finish_or_advance g i rgp ar g1 :
  table_ok g ->
  rgps g !! i = Some rgp ->
  act g i ar = Returned g1 ->
  (length (seats_left_to_act g1) = 1%nat -> seats_remain g1 = [] ->
   apply_action_result g i ar = Returned (set_is_finished true g1))
  /\ (seats_left_to_act g1 = [] ->
      (length (seats_remain g1) <= 1)%nat \/ current_round g1 = RIVER ->
      apply_action_result g i ar = Returned (set_is_finished true g1))
  /\ (seats_left_to_act g1 = [] ->
      ~ ((length (seats_remain g1) <= 1)%nat \/ current_round g1 = RIVER) ->
      exists g' r,
        apply_action_result g i ar = Returned g'
        /\ _finish_betting_round g1 (seats_remain g1) = Returned g'
        /\ NEXT_ROUND (current_round g1) = Some r
        /\ current_round g' = r
        /\ is_finished g' = is_finished g1).
Proof.
  tidy. intros [Hinv Hcount] Hi Hact.
  pose proof (act_count_unfolded _ _ _ _ Hact) as Hc1.
  pose proof (act_folded_not_left _ _ _ _ Hact Hinv) as Hinv1.
  pose proof (seats_partition _ Hinv1) as Hpart.
  fold (seats_left_to_act g1) in Hpart. fold (seats_remain g1) in Hpart.
  unfold apply_action_result. rewrite Hi, Hact. simpl.
  repeat split.
  - intros Hl Hr. apply after_act_walk; assumption.
  - intros Hl Hfin. rewrite (after_act_closed _ _ Hl).
    rewrite Hl in Hpart. simpl in Hpart.
    destruct Hfin as [Hone | ->].
    + assert (length (seats_remain g1) = 1%nat) as -> by lia. reflexivity.
    + rewrite bool_decide_eq_true_2 by reflexivity.
      rewrite orb_true_r. reflexivity.
  - intros Hl Hnot. rewrite (after_act_closed _ _ Hl).
    assert (Hn : (2 <= length (seats_remain g1))%nat) by lia.
    assert (Hriver : current_round g1 <> RIVER) by tauto.
    assert ((length (seats_remain g1) =? 1)%nat = false) as ->
      by (apply Nat.eqb_neq; lia).
    rewrite bool_decide_eq_false_2 by assumption. simpl.
    destruct (finish_betting_round_returns g1 (seats_remain g1))
      as [g' Hg']; [intros E; rewrite E in Hn; simpl in Hn; lia
                   | assumption |].
    destruct (finish_betting_round_spec _ _ _ Hg')
      as (cu & r & _ & Hr & _ & Hr' & _ & _ & _ & _ & _ & _ & _ & Hf & _).
    exists g', r. auto.
Qed.

(** C3: a completed betting round sweeps every contribution into pot_pre
    and zeroes it, moves to the next street, deals the board up to the new
    street's card count, resets the increment to the big blind and
    bet_count to 0, and sets left_to_act for every non-folded seat while a
    folded seat keeps its flag. *)
Theorem finish_betting_round_completes g remain :
  (remain <> [] -> current_round g <> RIVER ->
   exists g', _finish_betting_round g remain = Returned g')
  /\ (forall g',
        _finish_betting_round g remain = Returned g' ->
        exists r,
          NEXT_ROUND (current_round g) = Some r
          /\ current_round g' = r
          /\ pot_pre g' = pot_pre g + seats_contributed (rgps g)
          /\ Forall (fun p => contributed p = 0) (rgps g')
          /\ board g' = board g ++ dealt_for g r
          /\ ((length (board g) <= TOTAL_COMMUNITY_CARDS r)%nat ->
              (TOTAL_COMMUNITY_CARDS r - length (board g)
               <= length (undealt g))%nat ->
              length (board g') = TOTAL_COMMUNITY_CARDS r)
          /\ increment g' = big_blind g
          /\ bet_count g' = 0
          /\ Forall2 (fun p p' =>
                        left_to_act p' = if folded p then left_to_act p
                                         else true)
               (rgps g) (rgps g')).
Proof.
  split; [apply finish_betting_round_returns|].
  intros g' H.
  destruct (finish_betting_round_spec _ _ _ H)
    as (cu & r & _ & Hr & _ & Hr' & Hb & Hi & Hbc & Hp & Hc & _ & _ & _ & Hl).
  exists r. repeat match goal with |- _ /\ _ => split end; try assumption.
  intros Hle Henough. rewrite Hb, length_app.
  unfold dealt_for, deal_cards. rewrite length_take.
  unfold undealt in Henough. lia.
Qed.

(** C4: when play continues within the round (seats are still left to
    act and the hand is not a walk), the turn passes to the seat of least
    order above the actor's among those left to act, and when there is no
    such seat, to the seat of least order among all those left to act. *)
Theorem next_to_act g i rgp ar g1 :
  rgps g !! i = Some rgp ->
  act g i ar = Returned g1 ->
  NoDup (order <$> rgps g) ->
  seats_left_to_act g1 <> [] ->
  ~ (length (seats_left_to_act g1) = 1%nat /\ seats_remain g1 = []) ->
  exists next,
    In next (seats_left_to_act g1)
    /\ apply_action_result g i ar
       = Returned (set_current_userid (Some (userid next)) g1)
    /\ ((exists q, In q (seats_left_to_act g1) /\ order rgp < order q) ->
        order rgp < order next
        /\ forall q, In q (seats_left_to_act g1) -> order rgp < order q ->
                     order next <= order q)
    /\ ((forall q, In q (seats_left_to_act g1) -> ~ order rgp < order q) ->
        forall q, In q (seats_left_to_act g1) -> order next <= order q).
Proof.
  intros Hi Hact Hnd Hne Hw.
  unfold apply_action_result. rewrite Hi, Hact. simpl.
  rewrite (after_act_next _ _ Hne Hw). cbv zeta.
  pose proof (chosen_not_nil _ _ _ _ _ Hi Hact Hnd Hne) as Hc.
  cbv zeta in Hc.
  pose proof (fun q => left_to_act_not_actor _ _ _ _ _ q Hi Hact Hnd) as Hneq.
  set (left := seats_left_to_act g1) in *.
  set (later := List.filter (fun p => order rgp <? order p) left) in *.
  set (earlier := List.filter (fun p => order p <? order rgp) left) in *.
  destruct (min_by_order_is_Some _ Hc) as [next Hnext]. rewrite Hnext.
  apply min_by_order_spec in Hnext as [Hin Hmin].
  exists next.
  destruct (is_nil later) eqn:E.
  - apply is_nil_true in E.
    apply filter_In in Hin as [Hin Hlt]. apply Z.ltb_lt in Hlt.
    split; [assumption|]. split; [reflexivity|]. split.
    + intros (q & Hq & Hgt). exfalso.
      assert (In q later) as Hq'
        by (apply filter_In; split; [assumption | apply Z.ltb_lt; lia]).
      rewrite E in Hq'. destruct Hq'.
    + intros Hno q Hq. apply Hmin. apply filter_In. split; [assumption|].
      apply Z.ltb_lt. specialize (Hno q Hq). specialize (Hneq q Hq). lia.
  - apply filter_In in Hin as [Hin Hlt]. apply Z.ltb_lt in Hlt.
    split; [assumption|]. split; [reflexivity|]. split.
    + intros _. split; [assumption|]. intros q Hq Hgt. apply Hmin.
      apply filter_In. split; [assumption | apply Z.ltb_lt; lia].
    + intros Hno. exfalso. exact (Hno next Hin Hlt).
Qed.

(** ** Dealing *)

Lemma In_take {A} (x : A) n l : In x (take n l) -> In x l.
Proof.
  tidy.
  revert n. induction l as [|y l IH]; intros [|n]; simpl; try tauto.
  intros [->|H]; eauto.
Qed.

Lemma card_in_false c cards : card_in c cards = false <-> ~ In c cards.
Proof.
  tidy.
  unfold card_in. rewrite bool_decide_eq_false, list_elem_of_In. tauto.
Qed.

Lemma deal_cards_excluded excluded n c :
  In c (deal_cards deck excluded n) -> ~ In c excluded.
Proof.
  unfold deal_cards. intros H. apply In_take, filter_In in H as [_ H].
  apply negb_true_iff, card_in_false in H. exact H.
Qed.

Lemma remove_board_disjoint r b combo :
  In combo (remove_board_from_range r b) ->
  ~ In (higher_card combo) b /\ ~ In (lower_card combo) b.
Proof.
  unfold remove_board_from_range, combo_uses.
  intros H. apply filter_In in H as [_ H].
  apply negb_true_iff, orb_false_iff in H as [H1 H2].
  split; apply card_in_false; assumption.
Qed.

(** C5: a card [_deal_to_board] adds to the board is neither a hole card
    dealt to a seat nor a card already on the board, and afterwards no
    seat's range holds a combination that uses a board card. *)
Theorem deal_to_board_disjoint g :
  board (_deal_to_board g) = board g ++ dealt_for g (current_round g)
  /\ (forall c, In c (dealt_for g (current_round g)) ->
                ~ In c (board g)
                /\ forall p, In p (rgps g) -> ~ In c (cards_dealt p))
  /\ (forall p combo,
        In p (rgps (_deal_to_board g)) -> In combo (range p) ->
        ~ In (higher_card combo) (board (_deal_to_board g))
        /\ ~ In (lower_card combo) (board (_deal_to_board g))).
Proof.
  split; [apply deal_to_board_board|]. split.
  - intros c Hc. apply deal_cards_excluded in Hc.
    split.
    + intros Hb. apply Hc, in_or_app. right. exact Hb.
    + intros p Hp Hd. apply Hc, in_or_app. left.
      unfold concatenate. apply in_concat. exists (cards_dealt p).
      split; [apply in_map; exact Hp | exact Hd].
  - intros p combo Hp Hcombo. unfold _deal_to_board in *.
    cbv zeta in *.
    match type of Hp with
    | context [if ?b then ?x else ?y] =>
        set (g2 := if b then x else y) in *
    end.
    simpl in Hp. apply in_map_iff in Hp as (p0 & <- & _).
    simpl in Hcombo. apply remove_board_disjoint in Hcombo.
    exact Hcombo.
Qed.

(** * Hand history *)

Lemma StronglySorted_snoc {A} (R : A -> A -> Prop) l x :
  StronglySorted R l -> Forall (fun y => R y x) l ->
  StronglySorted R (l ++ [x]).
Proof.
  induction 1 as [|y l Hs IH Hy]; intros Hall; simpl.
  - repeat constructor.
  - inversion Hall; subst. constructor; [auto|].
    apply Forall_app. split; [assumption | repeat constructor; assumption].
Qed.

(** C9: a row written by [_record_hand_history_item] takes the game's
    [next_hh] as its order and [next_hh] is then incremented, so of two
    rows written in succession the later has the strictly greater order,
    and the rows of a game stay in strictly increasing order. *)
Theorem hand_history_orders_increase g item1 item2 :
  let g1 := _record_hand_history_item g item1 in
  let g2 := _record_hand_history_item g1 item2 in
  history g1 = history g ++ [mkItem (gameid g) (next_hh g) utcnow item1]
  /\ next_hh g1 = next_hh g + 1
  /\ gameid g1 = gameid g
  /\ (exists row1 row2,
        history g2 = history g ++ [row1; row2]
        /\ h_body row1 = item1 /\ h_body row2 = item2
        /\ h_order row1 = next_hh g
        /\ h_order row1 < h_order row2)
  /\ (hh_ordered g -> hh_ordered g1).
Proof.
  simpl. split; [reflexivity|]. split; [reflexivity|].
  split; [reflexivity|]. split.
  - eexists _, _. rewrite <- app_assoc. simpl.
    repeat split; simpl. lia.
  - intros [Hs Hb]. split; simpl.
    + apply StronglySorted_snoc; assumption.
    + apply Forall_app. split.
      * eapply Forall_impl; [exact Hb|]. simpl. intros; lia.
      * repeat constructor. simpl. lia.
Qed.

(** * Terminate is an internal signal *)

(** C6: a terminate result is never applied as an input action:
    [apply_action_result] raises on it, recording it in the hand history
    raises, and when the resolver produces it inside [_perform_action] the
    game is marked finished and the actor's left_to_act cleared, with no
    ActionResult row written and without [apply_action_result]. *)
Theorem terminate_is_internal :
  (forall g i g', apply_action_result g i Terminate <> Returned g')
  /\ (forall g i, is_Some (rgps g !! i) ->
                  apply_action_result g i Terminate = Raised ValueError)
  /\ (forall g rgp, _record_action_result g rgp Terminate = Raised ValueError)
  /\ (forall g i rgp range_action options g2,
        rgps g !! i = Some rgp ->
        calculate_what_will_be
          (_record_range_action g rgp range_action (can_check options)
             (is_raise options))
          i range_action options = (Terminate, g2) ->
        let g5 := update_rgp i (set_left_to_act false)
                    (set_is_finished true g2) in
        _perform_action g i range_action options
        = Returned (Terminate, finish_game g5)
        /\ is_finished g5 = true
        /\ history g5 = history g2
        /\ next_hh g5 = next_hh g2
        /\ rgps g5 !! i = set_left_to_act false <$> rgps g2 !! i
        /\ (forall j, j <> i -> rgps g5 !! j = rgps g2 !! j)).
Proof.
  split; [|split; [|split]].
  - intros g i g'. unfold apply_action_result.
    destruct (rgps g !! i); discriminate.
  - intros g i [rgp Hi]. unfold apply_action_result. rewrite Hi. reflexivity.
  - reflexivity.
  - intros g i rgp range_action options g2 Hi Hres g5.
    split; [|split; [|split; [|split; [|split]]]]; try reflexivity.
    + unfold _perform_action, seat. rewrite Hi. simpl. rewrite Hres.
      reflexivity.
    + simpl. apply list_lookup_alter_eq.
    + intros j Hj. simpl. apply list_lookup_alter_ne. congruence.
Qed.

(** * Validation failures *)

Lemma api_error_rolls_back {R}
    (f : Session -> outcome ((APIError + R) * Session)) s err s' :
  api f s = (inl err, s') -> s' = s.
Proof.
  unfold api. destruct (f s) as [[[e|r] s1]|e]; intros H; inversion H;
    reflexivity.
Qed.

(** C7: when [perform_action] fails validation (no such running game, not
    the submitting user's turn, or a range action that does not fit the
    user's range and options) it returns an error and the session, hence
    every game state in it, is as it was; no error result keeps a
    mutation. *)
Theorem validation_failure_leaves_state s gameid userid range_action :
  (running_games s !! gameid = None ->
   perform_action gameid userid range_action s
   = (inl ERR_NO_SUCH_RUNNING_GAME, s))
  /\ (forall g, running_games s !! gameid = Some g ->
                current_userid g <> Some userid ->
                perform_action gameid userid range_action s
                = (inl ERR_NOT_USERS_TURN, s))
  /\ (forall g i rgp,
        running_games s !! gameid = Some g ->
        current_userid g = Some userid ->
        current_rgp g = Returned i ->
        rgps g !! i = Some rgp ->
        (range_action_fits range_action (calculate_current_options g i)
           (range rgp)).1 = false ->
        perform_action gameid userid range_action s
        = (inl ERR_INVALID_RANGES, s))
  /\ (forall err s',
        perform_action gameid userid range_action s = (inl err, s') ->
        s' = s).
Proof.
  unfold perform_action. repeat split.
  - intros H. unfold api, perform_action_body. rewrite H. reflexivity.
  - intros g Hg Hu. unfold api, perform_action_body. rewrite Hg.
    destruct (decide (current_userid g = Some userid)); [contradiction|].
    reflexivity.
  - intros g i rgp Hg Hu Hi Hrgp Hfit.
    unfold api, perform_action_body. rewrite Hg.
    destruct (decide (current_userid g = Some userid)); [|contradiction].
    rewrite Hi. simpl. unfold seat. rewrite Hrgp. simpl.
    destruct (range_action_fits _ _ _) as [valid e0]. simpl in Hfit.
    subst valid. reflexivity.
  - intros err s'. apply api_error_rolls_back.
Qed.

(** * Timeouts *)

Lemma fold_everything_fits rgp options :
  range_action_fits (timeout_action rgp) options (range rgp) = (true, None).
Proof.
  unfold range_action_fits, timeout_action, NOTHING.
  cbn [fold_range passive_range aggressive_range raise_total is_nil].
  match goal with
  | |- context [negb (?a && ?b)] =>
      assert (H1 : a = true); [|assert (H2 : b = true); [|rewrite H1, H2]]
  end.
  - apply forallb_forall. intros c Hc. unfold combo_in.
    rewrite bool_decide_eq_true_2 by (apply list_elem_of_In; exact Hc).
    rewrite bool_decide_eq_false_2 by (apply not_elem_of_nil).
    reflexivity.
  - apply forallb_forall. intros c Hc. rewrite !app_nil_r in Hc.
    unfold combo_in. apply bool_decide_eq_true_2, list_elem_of_In, Hc.
  - reflexivity.
Qed.

Lemma NoDup_fst_filter {A B} (f : A * B -> bool) (l : list (A * B)) :
  NoDup l.*1 -> NoDup (List.filter f l).*1.
Proof.
  tidy.
  induction l as [|x l IH]; simpl; [auto|].
  rewrite NoDup_cons. intros [Hx Hl]. destruct (f x); [|auto].
  simpl. apply NoDup_cons. split; [|auto].
  intros Hin. apply Hx. apply list_elem_of_fmap in Hin as (y & -> & Hy).
  apply list_elem_of_fmap. exists y. split; [reflexivity|].
  apply list_elem_of_In. apply list_elem_of_In in Hy.
  apply filter_In in Hy. tauto.
Qed.

Lemma timeout_loop_spec rows : NoDup rows.*1 ->
  forall c s c' s',
    timeout_loop rows (c, s) = Returned (c', s') ->
    users s' = users s
    /\ (forall k, k ∉ rows.*1 ->
                  running_games s' !! k = running_games s !! k)
    /\ (forall k g, (k, g) ∈ rows ->
                    if timed_out g
                    then exists g', _timeout g = Returned g'
                                    /\ running_games s' !! k = Some g'
                    else running_games s' !! k = running_games s !! k).
Proof.
  induction rows as [|[k0 g0] rows IH]; simpl; intros Hnd c s c' s' H.
  - inversion H; subst. repeat split. intros k g Hin.
    apply elem_of_nil in Hin. destruct Hin.
  - apply NoDup_cons in Hnd as [Hk0 Hnd].
    destruct (timed_out g0) eqn:Et.
    + destruct (_timeout g0) as [g0'|e] eqn:E0; [|discriminate].
      simpl in H. destruct (IH Hnd _ _ _ _ H) as (Hu & Hout & Hin).
      split; [exact Hu|]. split.
      * intros k Hk. apply not_elem_of_cons in Hk as [Hne Hk].
        rewrite (Hout k Hk). simpl. apply lookup_insert_ne. congruence.
      * intros k g Hkg. apply elem_of_cons in Hkg as [Heq|Hkg].
        -- inversion Heq; subst. rewrite Et. exists g0'.
           split; [assumption|]. rewrite (Hout k0 Hk0). simpl.
           apply lookup_insert_eq.
        -- specialize (Hin k g Hkg). destruct (timed_out g); [exact Hin|].
           rewrite Hin. simpl. apply lookup_insert_ne.
           intros ->. apply Hk0. apply list_elem_of_fmap.
           exists (k, g). auto.
    + simpl in H. destruct (IH Hnd _ _ _ _ H) as (Hu & Hout & Hin).
      split; [exact Hu|]. split.
      * intros k Hk. apply not_elem_of_cons in Hk as [Hne Hk]. auto.
      * intros k g Hkg. apply elem_of_cons in Hkg as [Heq|Hkg].
        -- inversion Heq; subst. rewrite Et. auto.
        -- exact (Hin k g Hkg).
Qed.


Lemma games_on_turn_elem s k g :
  (k, g) ∈ games_on_turn s <->
  running_games s !! k = Some g /\ current_userid g <> None.
Proof.
  tidy.
  unfold games_on_turn. rewrite list_elem_of_In, filter_In.
  rewrite <- list_elem_of_In, elem_of_map_to_list. simpl.
  rewrite bool_decide_eq_true. tauto.
Qed.



(** * History views *)

Lemma filter_all {A} (f : A -> bool) l :
  (forall x, In x l -> f x = true) -> List.filter f l = l.
Proof.
  induction l as [|x l IH]; simpl; intros H; [reflexivity|].
  rewrite (H x) by auto. f_equal. apply IH. auto.
Qed.

(** C10: the history of an unfinished game holds a child item only if it
    should be included for the requesting userid, and that of a finished
    game holds every item whoever asks; so the public view of an
    unfinished game holds no item private to a viewer, and a finished game
    shows the same items to every userid. *)
Theorem history_view g :
  (is_finished g = false ->
   forall userid dto,
     In dto (_get_history_items g userid) <->
     In dto (child_dtos g) /\ should_include_for dto userid = true)
  /\ (is_finished g = true ->
      forall userid, _get_history_items g userid = child_dtos g)
  /\ (is_finished g = false ->
      forall dto, In dto (_get_history_items g None) ->
                  should_include_for dto None = true)
  /\ (is_finished g = true ->
      forall userid1 userid2,
        _get_history_items g userid1 = _get_history_items g userid2)
  /\ (forall s userid view,
        _get_game s (gameid g) userid = Returned (inr view) ->
        running_games s !! gameid g = Some g ->
        history_items view = _get_history_items g userid).
Proof.
  tidy.
  assert (Hfin : is_finished g = true ->
                 forall userid, _get_history_items g userid = child_dtos g).
  { intros Hf userid. unfold _get_history_items. rewrite Hf.
    apply filter_all. reflexivity. }
  assert (Hrun : is_finished g = false ->
                 forall userid dto,
                   In dto (_get_history_items g userid) <->
                   In dto (child_dtos g)
                   /\ should_include_for dto userid = true).
  { intros Hf userid dto. unfold _get_history_items. rewrite Hf.
    rewrite filter_In. simpl. reflexivity. }
  split; [exact Hrun|]. split; [exact Hfin|]. split; [|split].
  - intros Hf dto Hin. apply (Hrun Hf) in Hin. tauto.
  - intros Hf u1 u2. rewrite !Hfin by assumption. reflexivity.
  - intros s userid view Hget Hg. unfold _get_game in Hget.
    destruct (match userid with
              | Some u => bool_decide (u ∉ users s)
              | None => false
              end); [discriminate|].
    rewrite Hg in Hget.
    destruct (from_running_game s g) as [details|e0]; [|discriminate].
    simpl in Hget.
    destruct (current_userid g) as [u|].
    + destruct (current_rgp g) as [i|e]; [|discriminate].
      simpl in Hget. inversion Hget; subst. reflexivity.
    + simpl in Hget. inversion Hget; subst. reflexivity.
Qed.

(** * Further properties of the state machine *)

(** ** Seats keep their identity *)

Lemma seat_step_refl p : seat_step p p.
Proof. tidy. repeat split; auto. Qed.

Lemma seat_step_trans p q r : seat_step p q -> seat_step q r -> seat_step p r.
Proof.
  tidy. intros (H1 & H2 & H3 & H4) (K1 & K2 & K3 & K4).
  repeat split; try congruence. auto.
Qed.

Lemma Forall2_seat_step_refl l : Forall2 seat_step l l.
Proof. induction l; constructor; auto using seat_step_refl. Qed.

Lemma Forall2_seat_step_trans l1 l2 l3 :
  Forall2 seat_step l1 l2 -> Forall2 seat_step l2 l3 ->
  Forall2 seat_step l1 l3.
Proof.
  intros H. revert l3. induction H as [|p q l1 l2 Hp _ IH]; intros l3 H3;
    inversion H3; subst; constructor; eauto using seat_step_trans.
Qed.

Lemma Forall2_alter_self (R : relation RunningGameParticipant) f
    (i : nat) (l : list RunningGameParticipant) :
  (forall p, R p p) -> (forall p, R p (f p)) -> Forall2 R l (alter f i l).
Proof.
  intros Hr Hf. revert i. induction l as [|p l IH]; intros [|i]; simpl;
    constructor; auto.
  - clear IH. induction l; constructor; auto.
  - apply IH.
Qed.

Lemma Forall2_imap_self (R : relation RunningGameParticipant)
    (f : nat -> RunningGameParticipant -> RunningGameParticipant) l :
  (forall j p, R p (f j p)) -> Forall2 R l (imap f l).
Proof.
  revert f. induction l as [|p l IH]; intros f Hf; simpl; constructor; auto.
  apply IH. intros j q. apply Hf.
Qed.

Lemma Forall2_map_self (R : relation RunningGameParticipant) f l :
  (forall p, R p (f p)) -> Forall2 R l (map f l).
Proof. intros Hf. induction l; simpl; constructor; auto. Qed.

Lemma sweep_seat_step l : forall pot, Forall2 seat_step l (sweep pot l).2.
Proof.
  induction l as [|p l IH]; intros pot; simpl; [constructor|].
  specialize (IH (pot + contributed p)).
  destruct (sweep (pot + contributed p) l) as [pot2 rest]. simpl in *.
  constructor; [|exact IH].
  destruct (folded p) eqn:E; repeat split; simpl; auto.
Qed.

Lemma act_seat_step g i ar g1 :
  act g i ar = Returned g1 -> Forall2 seat_step (rgps g) (rgps g1).
Proof.
  destruct ar; simpl; intros H; inversion H; subst; clear H;
    unfold act_fold, act_passive, act_aggressive, update_rgp; simpl.
  - apply Forall2_alter_self; [apply seat_step_refl|].
    intros p. repeat split; auto.
  - apply Forall2_alter_self; [apply seat_step_refl|].
    intros p. repeat split; auto.
  - apply Forall2_imap_self. intros j p.
    destruct (decide (j = i)); [repeat split; auto|].
    destruct (folded p); repeat split; auto.
Qed.

Lemma deal_to_board_seat_step g :
  Forall2 seat_step (rgps g) (rgps (_deal_to_board g)).
Proof.
  unfold _deal_to_board.
  destruct (length (board g) <? TOTAL_COMMUNITY_CARDS (current_round g))%nat;
    simpl; apply Forall2_map_self; intros p; repeat split; auto.
Qed.

Lemma finish_betting_round_seat_step g remain g' :
  _finish_betting_round g remain = Returned g' ->
  Forall2 seat_step (rgps g) (rgps g')
  /\ gameid g' = gameid g /\ big_blind g' = big_blind g.
Proof.
  unfold _finish_betting_round.
  destruct (min_by_order remain) as [cu|]; [|discriminate].
  cbv zeta. change (current_round (set_current_userid _ g))
    with (current_round g).
  destruct (NEXT_ROUND (current_round g)) as [r|]; [|discriminate].
  set (g2 := set_current_round r (set_current_userid (Some (userid cu)) g)).
  pose proof (deal_to_board_seat_step g2) as Hd.
  assert (Hg : gameid (_deal_to_board g2) = gameid g
               /\ big_blind (_deal_to_board g2) = big_blind g).
  { unfold _deal_to_board.
    destruct (length (board g2)
              <? TOTAL_COMMUNITY_CARDS (current_round g2))%nat;
      simpl; auto. }
  remember (_deal_to_board g2) as g3 eqn:E3.
  change (pot_pre (set_bet_count 0 (set_increment (big_blind g3) g3)))
    with (pot_pre g3).
  change (rgps (set_bet_count 0 (set_increment (big_blind g3) g3)))
    with (rgps g3).
  pose proof (sweep_seat_step (rgps g3) (pot_pre g3)) as Hs.
  destruct (sweep (pot_pre g3) (rgps g3)) as [pot seats] eqn:E.
  intros H; inversion H; subst g'; clear H. simpl.
  split; [|exact Hg].
  eapply Forall2_seat_step_trans; [exact Hd | exact Hs].
Qed.

Lemma after_act_seat_step g o g' :
  after_act g o = Returned g' ->
  Forall2 seat_step (rgps g) (rgps g')
  /\ gameid g' = gameid g /\ big_blind g' = big_blind g
  /\ (is_finished g = true -> is_finished g' = true).
Proof.
  unfold after_act.
  destruct (_ && _).
  { intros H; inversion H; simpl.
    auto using Forall2_seat_step_refl. }
  destruct (is_nil (seats_left_to_act g)).
  - destruct (_ || _).
    { intros H; inversion H; simpl. auto using Forall2_seat_step_refl. }
    intros H. destruct (finish_betting_round_seat_step _ _ _ H)
      as (H1 & H2 & H3).
    destruct (finish_betting_round_spec _ _ _ H)
      as (_ & _ & _ & _ & _ & _ & _ & _ & _ & _ & _ & _ & _ & Hf & _).
    repeat split; auto. congruence.
  - cbv zeta. destruct (min_by_order _); [|discriminate].
    intros H; inversion H; simpl. auto using Forall2_seat_step_refl.
Qed.

Lemma act_frame g i ar g1 :
  act g i ar = Returned g1 ->
  gameid g1 = gameid g /\ big_blind g1 = big_blind g
  /\ is_finished g1 = is_finished g /\ board g1 = board g
  /\ history g1 = history g /\ next_hh g1 = next_hh g
  /\ current_userid g1 = current_userid g
  /\ map range (rgps g1) = map range (rgps g).
Proof.
  destruct ar; simpl; intros H; inversion H; subst; clear H;
    unfold act_fold, act_passive, act_aggressive, update_rgp; simpl;
    repeat split;
    first [ apply (fmap_alter_preserved range); intros p; reflexivity
          | apply (fmap_imap_preserved range); intros j p;
            destruct (decide (j = i)); [reflexivity|];
            destruct (folded p); reflexivity ].
Qed.

Lemma seat_step_orders l l' :
  Forall2 seat_step l l' ->
  map order l' = map order l /\ map userid l' = map userid l
  /\ map cards_dealt l' = map cards_dealt l /\ length l' = length l.
Proof.
  tidy. induction 1 as [|p p' l l' (H1 & H2 & H3 & _) _ (I1 & I2 & I3 & I4)];
    simpl; [auto|].
  repeat split; congruence.
Qed.

(** X2: whatever action result is applied, every seat keeps its user, its
    order and its hole cards, no seat is added or removed, a folded seat
    stays folded, and a finished game stays finished. *)
Theorem apply_action_result_keeps_seats g i ar g' :
  apply_action_result g i ar = Returned g' ->
  Forall2 seat_step (rgps g) (rgps g')
  /\ length (rgps g') = length (rgps g)
  /\ gameid g' = gameid g
  /\ big_blind g' = big_blind g
  /\ (is_finished g = true -> is_finished g' = true).
Proof.
  unfold apply_action_result.
  destruct (rgps g !! i) as [rgp|]; [|discriminate].
  destruct (act g i ar) as [g1|e] eqn:Hact; [|discriminate]. simpl.
  intros H.
  destruct (after_act_seat_step _ _ _ H) as (H1 & H2 & H3 & H4).
  destruct (act_frame _ _ _ _ Hact) as (F1 & F2 & F3 & _).
  pose proof (act_seat_step _ _ _ _ Hact) as Hs.
  assert (Hall : Forall2 seat_step (rgps g) (rgps g'))
    by (eapply Forall2_seat_step_trans; eassumption).
  split; [exact Hall|].
  split; [apply (seat_step_orders _ _ Hall)|].
  split; [congruence|]. split; [congruence|].
  intros Hf. apply H4. congruence.
Qed.

(** ** A hand in play never raises *)

Lemma unfolded_seat_exists (l : list RunningGameParticipant) :
  (1 <= count_unfolded l)%nat ->
  exists j q, l !! j = Some q /\ folded q = false.
Proof.
  unfold count_unfolded. induction l as [|p l IH]; simpl; [lia|].
  destruct (folded p) eqn:E; simpl; intros H.
  - destruct (IH H) as (j & q & Hj & Hq). exists (S j), q. auto.
  - exists 0%nat, p. auto.
Qed.

Lemma other_unfolded_seat (l : list RunningGameParticipant) (i : nat) :
  (2 <= count_unfolded l)%nat ->
  exists j q, j <> i /\ l !! j = Some q /\ folded q = false.
Proof.
  revert i. induction l as [|p l IH]; intros i; [unfold count_unfolded; simpl; lia|].
  intros H. destruct (folded p) eqn:E.
  - assert (H' : (2 <= count_unfolded l)%nat)
      by (unfold count_unfolded in *; simpl in H; rewrite E in H; exact H).
    destruct i as [|i].
    + destruct (IH 0%nat H') as (j & q & _ & Hj & Hq).
      exists (S j), q. auto.
    + destruct (IH i H') as (j & q & Hne & Hj & Hq).
      exists (S j), q. split; [congruence | auto].
  - assert (H' : (1 <= count_unfolded l)%nat)
      by (unfold count_unfolded in *; simpl in H; rewrite E in H;
          simpl in H; lia).
    destruct i as [|i].
    + destruct (unfolded_seat_exists l H') as (j & q & Hj & Hq).
      exists (S j), q. auto.
    + exists 0%nat, p. auto.
Qed.

(** X1: on a table where two or more seats have not folded, no folded seat
    is left to act and the seats' orders are distinct, applying a fold, a
    call or a raise for an existing seat never raises; and unless the
    result is a finished game, the table has the same three properties
    again, so the next action cannot raise either. *)
Theorem hand_in_play_never_raises g i ar :
  table_ok g ->
  NoDup (order <$> rgps g) ->
  is_Some (rgps g !! i) ->
  ar <> Terminate ->
  exists g',
    apply_action_result g i ar = Returned g'
    /\ NoDup (order <$> rgps g')
    /\ (is_finished g' = false -> table_ok g').
Proof.
  intros Hok Hnd Hi Har.
  destruct (apply_action_result_returns g i ar) as [g' Hg']; [|assumption|].
  { split; [assumption|]. split; [assumption|].
    apply other_unfolded_seat. apply Hok. }
  exists g'. split; [assumption|]. split.
  - assert (Hs : Forall2 seat_step (rgps g) (rgps g')).
    { revert Hg'. unfold apply_action_result.
      destruct (rgps g !! i) as [rgp|]; [|discriminate].
      destruct (act g i ar) as [g1|e] eqn:Hact; [|discriminate]. simpl.
      intros H. eapply Forall2_seat_step_trans.
      - eapply act_seat_step; eassumption.
      - eapply after_act_seat_step; eassumption. }
    apply seat_step_orders in Hs as (Ho & _).
    change (NoDup (map order (rgps g'))). rewrite Ho. exact Hnd.
  - intros Hf. eapply running_keeps_two_unfolded; eassumption.
Qed.

(** ** What an action writes *)

Lemma deal_to_board_trace g :
  let g' := _deal_to_board g in
  map range (rgps g')
  = map (fun p => remove_board_from_range (range p) (board g')) (rgps g)
  /\ gameid g' = gameid g
  /\ (if (length (board g) <? TOTAL_COMMUNITY_CARDS (current_round g))%nat
      then history g'
           = history g ++ [mkItem (gameid g) (next_hh g) utcnow
                             (HBoard (current_round g) (board g'))]
           /\ next_hh g' = next_hh g + 1
      else history g' = history g /\ next_hh g' = next_hh g).
Proof.
  unfold _deal_to_board.
  destruct (length (board g) <? TOTAL_COMMUNITY_CARDS (current_round g))%nat;
    simpl; rewrite map_map; simpl; auto.
Qed.

Lemma sweep_ranges l : forall pot,
  map range (sweep pot l).2 = map range l.
Proof.
  induction l as [|p l IH]; intros pot; simpl; [reflexivity|].
  specialize (IH (pot + contributed p)).
  destruct (sweep (pot + contributed p) l) as [pot2 rest]. simpl in *.
  rewrite IH. destruct (folded p); reflexivity.
Qed.

Lemma finish_betting_round_trace g remain g' :
  _finish_betting_round g remain = Returned g' ->
  exists r,
    NEXT_ROUND (current_round g) = Some r
    /\ current_round g' = r
    /\ board g' = board g ++ dealt_for g r
    /\ map range (rgps g')
       = map (fun p => remove_board_from_range (range p) (board g'))
           (rgps g)
    /\ (if (length (board g) <? TOTAL_COMMUNITY_CARDS r)%nat
        then history g'
             = history g ++ [mkItem (gameid g) (next_hh g) utcnow
                               (HBoard r (board g'))]
             /\ next_hh g' = next_hh g + 1
        else history g' = history g /\ next_hh g' = next_hh g).
Proof.
  unfold _finish_betting_round.
  destruct (min_by_order remain) as [cu|]; [|discriminate].
  cbv zeta. change (current_round (set_current_userid _ g))
    with (current_round g).
  destruct (NEXT_ROUND (current_round g)) as [r|]; [|discriminate].
  set (g2 := set_current_round r (set_current_userid (Some (userid cu)) g)).
  pose proof (deal_to_board_trace g2) as Ht. cbv zeta in Ht.
  destruct (deal_to_board_board g2) as (Bb & Br & _ & _).
  remember (_deal_to_board g2) as g3 eqn:E3.
  change (pot_pre (set_bet_count 0 (set_increment (big_blind g3) g3)))
    with (pot_pre g3).
  change (rgps (set_bet_count 0 (set_increment (big_blind g3) g3)))
    with (rgps g3).
  pose proof (sweep_ranges (rgps g3) (pot_pre g3)) as Hs.
  destruct (sweep (pot_pre g3) (rgps g3)) as [pot seats] eqn:E.
  intros H; inversion H; subst g'; clear H. simpl in *.
  destruct Ht as (Hr & Hg & Hh).
  exists r. repeat match goal with |- _ /\ _ => split end; auto.
  congruence.
Qed.

(** X3: applying an action result either leaves the street, the board,
    every range, the pot and the hand history as they were, or completes
    the round: then the street advances, the board grows by the dealt
    cards, every range is stripped of the new board, and exactly one Board
    row numbered [next_hh] is appended when cards were needed (none
    otherwise).  The history is never rewritten. *)
Theorem apply_action_result_trace g i ar g' :
  apply_action_result g i ar = Returned g' ->
  (current_round g' = current_round g
   /\ board g' = board g
   /\ history g' = history g
   /\ next_hh g' = next_hh g
   /\ pot_pre g' = pot_pre g
   /\ map range (rgps g') = map range (rgps g))
  \/ (exists r,
        NEXT_ROUND (current_round g) = Some r
        /\ current_round g' = r
        /\ board g' = board g ++ dealt_for g r
        /\ map range (rgps g')
           = map (fun p => remove_board_from_range (range p) (board g'))
               (rgps g)
        /\ (if (length (board g) <? TOTAL_COMMUNITY_CARDS r)%nat
            then history g'
                 = history g ++ [mkItem (gameid g) (next_hh g) utcnow
                                   (HBoard r (board g'))]
                 /\ next_hh g' = next_hh g + 1
            else history g' = history g /\ next_hh g' = next_hh g)).
Proof.
  unfold apply_action_result.
  destruct (rgps g !! i) as [rgp|]; [|discriminate].
  destruct (act g i ar) as [g1|e] eqn:Hact; [|discriminate]. simpl.
  destruct (act_frame _ _ _ _ Hact) as (F1 & F2 & F3 & F4 & F5 & F6 & F7 & F8).
  destruct (act_orders _ _ _ _ Hact) as (_ & _ & Fr & Fp).
  pose proof (act_seat_step _ _ _ _ Hact) as Hs.
  apply seat_step_orders in Hs as (_ & _ & Hc & _).
  unfold after_act.
  destruct (_ && _).
  { intros H; inversion H; subst; simpl. left. repeat split; congruence. }
  destruct (is_nil (seats_left_to_act g1)).
  - destruct (_ || _).
    { intros H; inversion H; subst; simpl. left. repeat split; congruence. }
    intros H. right.
    destruct (finish_betting_round_trace _ _ _ H)
      as (r & Hr & Hr' & Hb & Hrange & Hh).
    exists r. unfold dealt_for in *. rewrite Hc, F4, Fr, F1, F5, F6 in *.
    repeat match goal with |- _ /\ _ => split end; auto.
    rewrite Hrange.
    clear -F8. revert F8. generalize (rgps g1) (rgps g) (board g').
    intros l. induction l as [|p l IH]; intros [|q l'] b H; simpl in *;
      try discriminate; [reflexivity|].
    injection H as Hp Hl. rewrite Hp. f_equal. apply IH. exact Hl.
  - cbv zeta. destruct (min_by_order _); [|discriminate].
    intros H; inversion H; subst; simpl. left. repeat split; congruence.
Qed.

(** ** Dealing twice *)

Lemma remove_board_idempotent r b :
  remove_board_from_range (remove_board_from_range r b) b
  = remove_board_from_range r b.
Proof.
  tidy. unfold remove_board_from_range. apply filter_all.
  intros c Hc. apply filter_In in Hc. tauto.
Qed.

(** X4: when the board already holds the street's number of cards,
    [_deal_to_board] deals nothing and records no Board row; and once a
    deal has brought the board to that number, dealing again changes
    nothing at all. *)
Theorem deal_to_board_idempotent g :
  (length (board g) = TOTAL_COMMUNITY_CARDS (current_round g) ->
   board (_deal_to_board g) = board g
   /\ history (_deal_to_board g) = history g
   /\ next_hh (_deal_to_board g) = next_hh g)
  /\ (length (board (_deal_to_board g))
      = TOTAL_COMMUNITY_CARDS (current_round g) ->
      _deal_to_board (_deal_to_board g) = _deal_to_board g).
Proof.
  split.
  - intros Hlen. unfold _deal_to_board. cbv zeta.
    rewrite Hlen, Nat.ltb_irrefl, Nat.sub_diag. unfold deal_cards.
    simpl. rewrite app_nil_r. auto.
  - intros Hlen.
    destruct (deal_to_board_board g) as (Hb & Hr & _).
    remember (_deal_to_board g) as g1 eqn:E1.
    unfold _deal_to_board at 1. cbv zeta.
    rewrite Hr, Hlen, Nat.ltb_irrefl, Nat.sub_diag. unfold deal_cards.
    simpl. rewrite app_nil_r.
    assert (Hranges :
              map (fun p => set_range
                              (remove_board_from_range (range p) (board g1))
                              p) (rgps g1) = rgps g1).
    { subst g1. unfold _deal_to_board. cbv zeta.
      destruct (_ <? _)%nat; simpl; rewrite map_map; apply map_ext;
        intros p; simpl; rewrite remove_board_idempotent; reflexivity. }
    rewrite Hranges. destruct g1; reflexivity.
Qed.

(** ** Rows of an accepted action *)

(** X5: when the resolver answers a range action with a fold, call or
    raise, [_perform_action] hands [apply_action_result] a game whose
    history is the resolver's plus an ActionResult row and a UserRange
    row holding the seat's reduced range, numbered consecutively, with
    the last action time set to now; the resolver itself had been given
    the game with the RangeAction row already written; and the returned
    action result is the resolver's. *)
Theorem perform_action_rows g i rgp range_action options ar g2 rgp2 :
  rgps g !! i = Some rgp ->
  calculate_what_will_be
    (_record_range_action g rgp range_action (can_check options)
       (is_raise options))
    i range_action options = (ar, g2) ->
  ar <> Terminate ->
  rgps g2 !! i = Some rgp2 ->
  history (_record_range_action g rgp range_action (can_check options)
             (is_raise options))
  = history g ++ [mkItem (gameid g) (next_hh g) utcnow
                    (HRangeAction (userid rgp) (fold_range range_action)
                       (passive_range range_action)
                       (aggressive_range range_action)
                       (raise_total range_action) (can_check options)
                       (is_raise options))]
  /\ exists g4,
      history g4
      = history g2 ++ [mkItem (gameid g2) (next_hh g2) utcnow
                         (HActionResult (userid rgp2) ar);
                       mkItem (gameid g2) (next_hh g2 + 1) utcnow
                         (HUserRange (userid rgp2) (range rgp2))]
      /\ next_hh g4 = next_hh g2 + 2
      /\ last_action_time g4 = utcnow
      /\ rgps g4 = rgps g2
      /\ _perform_action g i range_action options
         = match apply_action_result g4 i ar with
           | Returned g5 =>
               Returned (ar, if is_finished g5 then finish_game g5 else g5)
           | Raised e => Raised e
           end.
Proof.
  intros Hi Hres Har Hi2. split; [reflexivity|].
  eexists. repeat match goal with |- _ /\ _ => split end.
  5: { unfold _perform_action, seat. rewrite Hi. simpl. rewrite Hres.
       assert (is_terminate ar = false) as ->
         by (destruct ar; try reflexivity; congruence).
       rewrite Hi2. simpl.
       unfold _record_action_result.
       assert (is_terminate ar = false) as ->
         by (destruct ar; try reflexivity; congruence).
       simpl. reflexivity. }
  - simpl. rewrite <- app_assoc. reflexivity.
  - simpl. lia.
  - reflexivity.
  - reflexivity.
Qed.

(** X6: [perform_action] for one game never touches another game or the
    users, whatever it returns. *)
Theorem perform_action_frame s gameid userid range_action k :
  k <> gameid ->
  let s' := (perform_action gameid userid range_action s).2 in
  running_games s' !! k = running_games s !! k /\ users s' = users s.
Proof.
  intros Hk. unfold perform_action, api.
  destruct (perform_action_body gameid userid range_action s)
    as [[[err|r] s1]|e] eqn:E; simpl; auto.
  unfold perform_action_body in E.
  destruct (running_games s !! gameid) as [game|]; [|discriminate].
  destruct (decide (current_userid game = Some userid)); [|discriminate].
  destruct (current_rgp game) as [i|]; [|discriminate]. simpl in E.
  destruct (seat game i) as [rgp|]; [|discriminate]. simpl in E.
  destruct (range_action_fits _ _ _) as [valid e0].
  destruct (negb valid); [discriminate|].
  destruct (_perform_action _ _ _ _) as [[result game']|]; [|discriminate].
  simpl in E. inversion E; subst. simpl.
  split; [|reflexivity]. apply lookup_insert_ne. congruence.
Qed.

(** ** The timeout sweep *)

Lemma timeout_loop_count rows : forall c s c' s',
  timeout_loop rows (c, s) = Returned (c', s') ->
  c' = c + Z.of_nat (length (List.filter (fun row => timed_out row.2) rows)).
Proof.
  induction rows as [|[k0 g0] rows IH]; intros c s c' s' H;
    cbn [timeout_loop] in H.
  - inversion H; subst. simpl. lia.
  - unfold timeout_step in H. simpl. destruct (timed_out g0).
    + destruct (_timeout g0) as [g0'|]; [|discriminate]. simpl in H.
      apply IH in H. simpl. lia.
    + simpl in H. apply IH in H. exact H.
Qed.

Lemma timeout_loop_raises rows k g e :
  (k, g) ∈ rows -> timed_out g = true -> _timeout g = Raised e ->
  forall acc, exists e', timeout_loop rows acc = Raised e'.
Proof.
  intros Hin Ht He.
  induction rows as [|[k0 g0] rows IH]; intros [c s];
    [apply elem_of_nil in Hin; destruct Hin|].
  cbn [timeout_loop]. unfold timeout_step.
  apply elem_of_cons in Hin as [Heq|Hin].
  - inversion Heq; subst. rewrite Ht, He. simpl. eauto.
  - destruct (timed_out g0).
    + destruct (_timeout g0) as [g0'|e0]; simpl; [apply IH; exact Hin|eauto].
    + simpl. apply IH. exact Hin.
Qed.

(** X7: a successful [process_timeouts] returns the number of games on
    turn that were idle past the threshold, leaves the users alone, and
    leaves every game that is finished or not yet idle exactly as it was;
    it neither adds nor removes a game. *)
Theorem process_timeouts_count_and_frame s n s' :
  process_timeouts s = (inr n, s') ->
  n = Z.of_nat (length (List.filter (fun row => timed_out row.2)
                          (games_on_turn s)))
  /\ users s' = users s
  /\ (forall k g, running_games s !! k = Some g ->
                  current_userid g = None \/ timed_out g = false ->
                  running_games s' !! k = Some g)
  /\ (forall k, running_games s !! k = None ->
                running_games s' !! k = None).
Proof.
  intros Hp. unfold process_timeouts, api in Hp.
  destruct (timeout_loop (games_on_turn s) (0, s)) as [[c s1]|e] eqn:El;
    simpl in Hp; [|discriminate].
  inversion Hp; subst; clear Hp.
  assert (Hnd : NoDup (games_on_turn s).*1)
    by (apply NoDup_fst_filter, NoDup_fst_map_to_list).
  destruct (timeout_loop_spec _ Hnd _ _ _ _ El) as (Hu & Hout & Hin).
  split; [apply (timeout_loop_count _ _ _ _ _ El)|].
  split; [exact Hu|]. split.
  - intros k g Hg Hidle.
    destruct (decide (k ∈ (games_on_turn s).*1)) as [Hk|Hk].
    + apply list_elem_of_fmap in Hk as ([k1 g1] & -> & Hk1). simpl in *.
      pose proof Hk1 as Hk2. apply games_on_turn_elem in Hk2 as [Hl Hon].
      assert (g1 = g) by congruence. subst g1.
      destruct Hidle as [Hnone|Hnot]; [contradiction|].
      specialize (Hin _ _ Hk1). rewrite Hnot in Hin. congruence.
    + rewrite (Hout k Hk). exact Hg.
  - intros k Hnone. rewrite (Hout k); [exact Hnone|].
    intros Hk. apply list_elem_of_fmap in Hk as ([k1 g1] & -> & Hk1).
    apply games_on_turn_elem in Hk1 as [Hl _]. simpl in Hnone. congruence.
Qed.

(** X8: the sweep is all or nothing: if the timeout of any idle game on
    turn raises, [process_timeouts] returns the internal error and the
    session it was given, with no game timed out. *)
Theorem process_timeouts_all_or_nothing s k g e :
  running_games s !! k = Some g ->
  current_userid g <> None ->
  timed_out g = true ->
  _timeout g = Raised e ->
  process_timeouts s = (inl ERR_UNKNOWN, s).
Proof.
  intros Hg Hon Ht He. unfold process_timeouts, api.
  destruct (timeout_loop_raises (games_on_turn s) k g e) with (acc := (0, s))
    as [e' ->]; auto.
  apply games_on_turn_elem. auto.
Qed.

(** ** The order of a history view *)

Lemma insert_by_order_perm x l : Permutation (insert_by_order x l) (x :: l).
Proof.
  tidy. induction l as [|y l IH]; simpl; [reflexivity|].
  destruct (h_order y <=? h_order x); [|reflexivity].
  rewrite IH. apply perm_swap.
Qed.

Lemma insert_by_order_sorted x l :
  StronglySorted (fun a b => h_order a <= h_order b) l ->
  StronglySorted (fun a b => h_order a <= h_order b) (insert_by_order x l).
Proof.
  tidy. induction 1 as [|y l Hs IH Hy]; simpl; [repeat constructor|].
  destruct (h_order y <=? h_order x) eqn:E.
  - apply Z.leb_le in E. constructor; [exact IH|].
    apply Forall_forall. intros z Hz.
    apply list_elem_of_In in Hz.
    apply (Permutation_in _ (insert_by_order_perm x l)) in Hz.
    destruct Hz as [<-|Hz]; [exact E|].
    rewrite List.Forall_forall in Hy. auto.
  - apply Z.leb_gt in E. constructor; [constructor; assumption|].
    constructor; [lia|].
    eapply List.Forall_impl; [|exact Hy]. simpl. intros; lia.
Qed.

Lemma sorted_by_order_spec l :
  StronglySorted (fun a b => h_order a <= h_order b) (sorted_by_order l)
  /\ Permutation (sorted_by_order l) l.
Proof.
  tidy. unfold sorted_by_order.
  assert (H : forall acc,
             StronglySorted (fun a b => h_order a <= h_order b) acc ->
             StronglySorted (fun a b => h_order a <= h_order b)
               (foldl (fun acc x => insert_by_order x acc) acc l)
             /\ Permutation
                  (foldl (fun acc x => insert_by_order x acc) acc l)
                  (acc ++ l)).
  { induction l as [|x l IH]; intros acc Hacc; simpl.
    - rewrite app_nil_r. auto.
    - destruct (IH (insert_by_order x acc)
                  (insert_by_order_sorted x acc Hacc)) as [Hs Hp].
      split; [exact Hs|]. rewrite Hp, insert_by_order_perm.
      simpl. apply Permutation_middle. }
  destruct (H [] (SSorted_nil _)) as [Hs Hp]. auto.
Qed.

(** X9: the items of a history view come out in ascending order of their
    sequence number, and they are exactly the game's rows (each as often
    as its table is listed) that carry the game's id and sit in one of the
    listed child tables; what a viewer is shown is a sub-list of them in
    the same order. *)
Theorem history_items_sorted g :
  exists items,
    child_dtos g = map from_game_history_child items
    /\ StronglySorted (fun a b => h_order a <= h_order b) items
    /\ Permutation items
         (concatenate (map (query_child g) MAP_TABLE_DTO_keys))
    /\ (forall it, In it items <->
                   In it (history g)
                   /\ h_gameid it = gameid g
                   /\ In (table_of (h_body it)) MAP_TABLE_DTO_keys)
    /\ (forall userid,
          _get_history_items g userid
          = List.filter
              (fun dto => is_finished g || should_include_for dto userid)
              (map from_game_history_child items)).
Proof.
  exists (sorted_by_order
            (concatenate (map (query_child g) MAP_TABLE_DTO_keys))).
  destruct (sorted_by_order_spec
              (concatenate (map (query_child g) MAP_TABLE_DTO_keys)))
    as [Hs Hp].
  split; [reflexivity|]. split; [exact Hs|]. split; [exact Hp|].
  split; [|reflexivity].
  intros it. split.
  - intros Hin. apply (Permutation_in _ Hp) in Hin.
    unfold concatenate in Hin. apply in_concat in Hin as (l & Hl & Hit).
    apply in_map_iff in Hl as (t & <- & Ht).
    unfold query_child in Hit. apply filter_In in Hit as [Hh Hc].
    apply andb_true_iff in Hc as [Hk Hg].
    apply bool_decide_eq_true in Hk. apply Z.eqb_eq in Hg.
    subst t. auto.
  - intros (Hh & Hg & Ht). apply (Permutation_in _ (Permutation_sym Hp)).
    unfold concatenate. apply in_concat.
    exists (query_child g (table_of (h_body it))). split.
    + apply in_map. exact Ht.
    + unfold query_child. apply filter_In. split; [exact Hh|].
      apply andb_true_iff. split.
      * apply bool_decide_eq_true. reflexivity.
      * apply Z.eqb_eq. exact Hg.
Qed.

(** ** Reading a game *)

Lemma from_users_returns s l :
  Forall (fun p => userid p ∈ users s) l ->
  from_users s l
  = Returned (map (fun p => mkUserDetails (userid p)
                              (user_screenname (userid p))) l).
Proof.
  induction 1 as [|p l Hp _ IH]; simpl; [reflexivity|].
  rewrite bool_decide_eq_true_2 by exact Hp. simpl. rewrite IH. reflexivity.
Qed.

Lemma from_users_raises s l :
  ~ Forall (fun p => userid p ∈ users s) l ->
  from_users s l = Raised AttributeError.
Proof.
  induction l as [|p l IH]; simpl; intros Hno.
  - exfalso. apply Hno. constructor.
  - destruct (decide (userid p ∈ users s)) as [Hp|Hp].
    + rewrite bool_decide_eq_true_2 by exact Hp. simpl. rewrite IH.
      * reflexivity.
      * intros Hl. apply Hno. constructor; assumption.
    + rewrite bool_decide_eq_false_2 by exact Hp. reflexivity.
Qed.

Lemma from_running_game_raises s g :
  current_userid g = None
  \/ (exists u, current_userid g = Some u /\ u ∉ users s)
  \/ ~ Forall (fun p => userid p ∈ users s) (rgps g) ->
  from_running_game s g = Raised AttributeError.
Proof.
  intros H. unfold from_running_game.
  destruct (decide (Forall (fun p => userid p ∈ users s) (rgps g)))
    as [Hall|Hall].
  2:{ rewrite from_users_raises by exact Hall. reflexivity. }
  rewrite from_users_returns by exact Hall. simpl.
  destruct H as [->|[(u & -> & Hu)|H]]; [reflexivity| |contradiction].
  simpl. rewrite bool_decide_eq_false_2 by exact Hu. reflexivity.
Qed.

Lemma from_running_game_returns s g u :
  current_userid g = Some u ->
  u ∈ users s ->
  Forall (fun p => userid p ∈ users s) (rgps g) ->
  from_running_game s g
  = Returned
      (mkRunningGameDetails (gameid g)
         (map (fun p => mkUserDetails (userid p)
                          (user_screenname (userid p))) (rgps g))
         (situation_description g)
         (mkUserDetails u (user_screenname u))).
Proof.
  intros Hc Hu Hall. unfold from_running_game.
  rewrite from_users_returns by exact Hall. simpl. rewrite Hc. simpl.
  rewrite bool_decide_eq_true_2 by exact Hu. reflexivity.
Qed.

(** X10: [_get_game] checks the viewer before the game: an unknown userid
    gets NO_SUCH_USER even for a game that does not exist, the public view
    never gets NO_SUCH_USER, and a missing game gets NO_SUCH_RUNNING_GAME.
    For a stored game, [from_running_game] runs before the test of
    [current_userid]: a game with nobody on turn raises AttributeError, so
    the branch without options is never returned and the public view
    answers ERR_UNKNOWN; so does a game whose current user or a seat's
    user has no row.  Otherwise a current user without a seat raises, and
    one with a seat gets the game's id, its seats' users, itself as
    current user and that seat's options. *)
Theorem get_game_errors s k :
  (forall u, u ∉ users s ->
             _get_game s k (Some u) = Returned (inl ERR_NO_SUCH_USER))
  /\ _get_game s k None <> Returned (inl ERR_NO_SUCH_USER)
  /\ (forall viewer,
        running_games s !! k = None ->
        match viewer with Some u => u ∈ users s | None => True end ->
        _get_game s k viewer = Returned (inl ERR_NO_SUCH_RUNNING_GAME))
  /\ (forall viewer g,
        running_games s !! k = Some g ->
        match viewer with Some u => u ∈ users s | None => True end ->
        (current_userid g = None ->
         _get_game s k viewer = Raised AttributeError
         /\ get_public_game s k = (inl ERR_UNKNOWN, s))
        /\ (forall u,
              current_userid g = Some u ->
              u ∉ users s
              \/ ~ Forall (fun p => userid p ∈ users s) (rgps g) ->
              _get_game s k viewer = Raised AttributeError)
        /\ (forall u,
              current_userid g = Some u ->
              u ∈ users s ->
              Forall (fun p => userid p ∈ users s) (rgps g) ->
              match find_seat u (rgps g) with
              | None => _get_game s k viewer = Raised LookupError
              | Some i =>
                  exists view,
                    _get_game s k viewer = Returned (inr view)
                    /\ current_options view
                       = Some (calculate_current_options g i)
                    /\ gd_gameid (game_details view) = gameid g
                    /\ map ud_userid (gd_users (game_details view))
                       = map userid (rgps g)
                    /\ ud_userid (current_user_details (game_details view))
                       = u
              end)).
Proof.
  assert (Hknown : forall viewer,
             match viewer with Some u => u ∈ users s | None => True end ->
             match viewer with
             | Some u => bool_decide (u ∉ users s)
             | None => false
             end = false).
  { intros [u|] Hu; [|reflexivity]. apply bool_decide_eq_false_2. auto. }
  split; [|split; [|split]].
  - intros u Hu. unfold _get_game.
    rewrite bool_decide_eq_true_2 by assumption. reflexivity.
  - unfold _get_game.
    destruct (running_games s !! k) as [g|]; [|discriminate].
    destruct (from_running_game s g); [|discriminate]. simpl.
    destruct (current_userid g); [|discriminate].
    destruct (current_rgp g); discriminate.
  - intros viewer Hnone Hu. unfold _get_game.
    rewrite (Hknown viewer Hu), Hnone. reflexivity.
  - intros viewer g Hg Hu. split; [|split].
    + intros Hc.
      assert (H : forall v,
                 match v with Some u => u ∈ users s | None => True end ->
                 _get_game s k v = Raised AttributeError).
      { intros v Hv. unfold _get_game. rewrite (Hknown v Hv), Hg.
        rewrite from_running_game_raises by (left; exact Hc). reflexivity. }
      split; [apply H; exact Hu|].
      unfold get_public_game, api. rewrite (H None I). reflexivity.
    + intros u Hc Hbad. unfold _get_game. rewrite (Hknown viewer Hu), Hg.
      rewrite from_running_game_raises; [reflexivity|].
      destruct Hbad as [Hbad|Hbad]; [right; left; eauto | right; right; auto].
    + intros u Hc Huser Hall. unfold _get_game.
      rewrite (Hknown viewer Hu), Hg.
      rewrite (from_running_game_returns s g u Hc Huser Hall). simpl.
      rewrite Hc. unfold current_rgp. rewrite Hc.
      destruct (find_seat u (rgps g)) as [i|]; simpl; [|reflexivity].
      eexists. split; [reflexivity|]. simpl. rewrite map_map. simpl.
      repeat split; reflexivity.
Qed.

(** * Users *)

Lemma update_user_map {B} (proj : Lobby.User -> B) uid f l :
  (forall u, proj (f u) = proj u) ->
  map proj (Lobby.update_user uid f l) = map proj l.
Proof.
  tidy. intros Hf. unfold Lobby.update_user. rewrite map_map.
  apply map_ext. intros u. destruct (decide _); auto.
Qed.

Lemma update_user_same uid f l :
  Forall (fun u => Lobby.u_userid u = uid -> f u = u) l ->
  Lobby.update_user uid f l = l.
Proof.
  tidy. unfold Lobby.update_user.
  induction 1 as [|u l Hu _ IH]; simpl; [reflexivity|].
  rewrite IH. destruct (decide _); [rewrite Hu by assumption|]; reflexivity.
Qed.

Lemma update_user_twice uid f l :
  (forall u, Lobby.u_userid (f u) = Lobby.u_userid u) ->
  (forall u, f (f u) = f u) ->
  Lobby.update_user uid f (Lobby.update_user uid f l)
  = Lobby.update_user uid f l.
Proof.
  tidy. intros Hid Hf. unfold Lobby.update_user. rewrite map_map.
  apply map_ext. intros u. destruct (decide (Lobby.u_userid u = uid)).
  - rewrite Hid. destruct (decide _); [apply Hf | contradiction].
  - destruct (decide _); [contradiction | reflexivity].
Qed.

Lemma filter_update_user (test : Lobby.User -> bool) uid f l :
  (forall u, test (f u) = test u) ->
  List.filter test (Lobby.update_user uid f l)
  = Lobby.update_user uid f (List.filter test l).
Proof.
  tidy. intros Hf. unfold Lobby.update_user.
  induction l as [|u l IH]; simpl; [reflexivity|].
  destruct (decide (Lobby.u_userid u = uid)).
  - rewrite Hf. destruct (test u); simpl; rewrite IH; [|reflexivity].
    destruct (decide _); [reflexivity | contradiction].
  - destruct (test u); simpl; rewrite IH; [|reflexivity].
    destruct (decide _); [contradiction | reflexivity].
Qed.

Lemma user_row_clashes_false user l :
  Lobby.user_row_clashes user l = false ->
  ~ In (Lobby.u_screenname user) (map Lobby.u_screenname l)
  /\ ~ In (Lobby.u_email user) (map Lobby.u_email l).
Proof.
  tidy. unfold Lobby.user_row_clashes. intros H.
  split; intros Hin; apply in_map_iff in Hin as (u & Hu & Hin);
    assert (Hex : existsb
                    (fun u0 => bool_decide (Lobby.u_screenname u0
                                            = Lobby.u_screenname user)
                               || bool_decide (Lobby.u_email u0
                                               = Lobby.u_email user)) l
                  = true);
    try (rewrite Hex in H; discriminate);
    apply existsb_exists; exists u; (split; [exact Hin|]);
    apply orb_true_iff; [left | right]; apply bool_decide_eq_true;
    exact Hu.
Qed.

Lemma NoDup_snoc {A} (l : list A) x : NoDup l -> ~ In x l -> NoDup (l ++ [x]).
Proof.
  intros Hl Hx. apply NoDup_app. split; [exact Hl|]. split.
  - intros y Hy Hin. apply list_elem_of_In in Hy.
    apply list_elem_of_singleton in Hin. subst. contradiction.
  - apply NoDup_singleton.
Qed.

(** X11: [login] keeps the keys of the user table: screen names, emails
    and userids stay distinct and below the sequence, whatever the request;
    and a successful login leaves a subscribed user with the request's
    identity and email under the returned userid and screen name. *)
Theorem login_keeps_users_unique request t :
  users_ok t ->
  users_ok (Lobby.login request t).2
  /\ (forall response t',
        Lobby.login request t = (inr response, t') ->
        exists user,
          In user (Lobby.users t')
          /\ Lobby.u_userid user = Lobby.rs_userid response
          /\ Lobby.u_screenname user = Lobby.rs_screenname response
          /\ Lobby.u_identity user = Lobby.rq_identity request
          /\ Lobby.u_email user = Lobby.rq_email request
          /\ Lobby.u_unsubscribed user = false).
Proof.
  tidy. intros (Hs & He & Hi & Hq).
  unfold users_ok, Lobby.login, Lobby.api, Lobby.login_body.
  destruct (List.filter _ (Lobby.users t)) as [|user matches] eqn:Em.
  - destruct (Lobby.user_row_clashes _ _) eqn:Ec.
    + match goal with
      | |- context [List.filter ?f (Lobby.users t)] =>
          destruct (List.filter f (Lobby.users t))
      end; simpl;
        (split; [repeat split; assumption | intros r t' H; discriminate]).
    + apply user_row_clashes_false in Ec as [Hns Hne]. simpl in Hns, Hne.
      simpl. split.
      * repeat split; simpl; rewrite ?map_app; simpl.
        -- apply NoDup_snoc; assumption.
        -- apply NoDup_snoc; assumption.
        -- apply NoDup_snoc; [assumption|]. intros Hin.
           apply in_map_iff in Hin as (u & Hu & Hin).
           rewrite List.Forall_forall in Hq. specialize (Hq u Hin). lia.
        -- apply Forall_app. split.
           ++ eapply Forall_impl; [exact Hq|]. simpl. intros; lia.
           ++ repeat constructor. simpl. lia.
      * intros r t' H. inversion H; subst; clear H. simpl.
        eexists. split; [apply in_or_app; right; left; reflexivity|].
        simpl. auto.
  - simpl. split.
    + repeat split; simpl; rewrite ?update_user_map by reflexivity;
        try assumption.
      apply List.Forall_forall. intros u Hu.
      unfold Lobby.update_user in Hu. apply in_map_iff in Hu as (u0 & <- & Hu0).
      rewrite List.Forall_forall in Hq. specialize (Hq u0 Hu0).
      destruct (decide _); simpl; exact Hq.
    + intros r t' H. inversion H; subst; clear H. simpl.
      assert (Hin : In user (List.filter
                (fun u => bool_decide (Lobby.u_identity u
                                       = Lobby.rq_identity request)
                          && bool_decide (Lobby.u_email u
                                          = Lobby.rq_email request))
                (Lobby.users t))) by (rewrite Em; left; reflexivity).
      apply filter_In in Hin as [Hin Hm].
      apply andb_true_iff in Hm as [Hm1 Hm2].
      apply bool_decide_eq_true in Hm1, Hm2.
      exists (Lobby.set_unsubscribed false user).
      split; [|simpl; auto].
      unfold Lobby.update_user. apply in_map_iff. exists user.
      split; [|exact Hin]. destruct (decide _); [reflexivity|congruence].
Qed.

(** X12: logging in again with the same request changes nothing more: it
    answers with the same userid and screen name, now marked as existing,
    and returns the tables the first login left. *)
Theorem login_idempotent request t response t' :
  Forall (fun u => Lobby.u_userid u < Lobby.user_seq t) (Lobby.users t) ->
  Lobby.login request t = (inr response, t') ->
  Lobby.login request t'
  = (inr (Lobby.mkLoginResponse (Lobby.rs_userid response)
            (Lobby.rs_screenname response) true), t').
Proof.
  tidy. intros Hq. unfold Lobby.login, Lobby.api, Lobby.login_body.
  destruct (List.filter _ (Lobby.users t)) as [|user matches] eqn:Em.
  - destruct (Lobby.user_row_clashes _ _) eqn:Ec.
    { match goal with
      | |- context [List.filter ?f (Lobby.users t)] =>
          destruct (List.filter f (Lobby.users t))
      end; discriminate. }
    intros H. inversion H; subst; clear H. simpl.
    rewrite List.filter_app, Em. simpl.
    rewrite !bool_decide_eq_true_2 by reflexivity. simpl.
    unfold Lobby.from_user. simpl. f_equal.
    unfold Lobby.set_users, Lobby.set_user_seq. simpl. f_equal.
    apply update_user_same. apply Forall_app. split.
    + eapply Forall_impl; [exact Hq|]. simpl. intros u Hu Hid. lia.
    + repeat constructor.
  - intros H. inversion H; subst; clear H. simpl.
    rewrite filter_update_user by reflexivity. rewrite Em. simpl.
    destruct (decide _); [|congruence]. simpl.
    unfold Lobby.from_user, Lobby.set_users. simpl. f_equal. f_equal.
    apply update_user_twice; reflexivity.
Qed.

(** X13: a login whose email already belongs to a user of another
    identity creates nobody: it is refused with DUPLICATE_SCREENNAME when
    the screen name is taken as well, and with the internal error
    otherwise, and the tables stay as they were. *)
Theorem login_email_taken request t other :
  NoDup (map Lobby.u_email (Lobby.users t)) ->
  In other (Lobby.users t) ->
  Lobby.u_email other = Lobby.rq_email request ->
  Lobby.u_identity other <> Lobby.rq_identity request ->
  Lobby.login request t
  = (inl (if existsb
               (fun u => bool_decide (Lobby.u_screenname u
                                      = Lobby.rq_screenname request))
               (Lobby.users t)
          then Lobby.ERR_DUPLICATE_SCREENNAME else Lobby.ERR_UNKNOWN), t).
Proof.
  tidy. intros Hnd Hin He Hi.
  unfold Lobby.login, Lobby.api, Lobby.login_body.
  assert (Hnone :
            List.filter
              (fun u => bool_decide (Lobby.u_identity u
                                     = Lobby.rq_identity request)
                        && bool_decide (Lobby.u_email u
                                        = Lobby.rq_email request))
              (Lobby.users t) = []).
  { revert Hnd Hin. generalize (Lobby.users t). intros l.
    induction l as [|u l IH]; simpl; intros Hnd Hin; [reflexivity|].
    apply NoDup_cons in Hnd as [Hu Hnd].
    destruct Hin as [->|Hin].
    - rewrite (bool_decide_eq_false_2 _ Hi). simpl.
      clear IH. induction l as [|v l IH]; simpl; [reflexivity|].
      apply NoDup_cons in Hnd as [_ Hnd].
      rewrite (bool_decide_eq_false_2 (Lobby.u_email v = _)).
      + rewrite andb_false_r. apply IH; [|exact Hnd].
        intros H. apply Hu. right. exact H.
      + intros Hv. apply Hu. rewrite He, <- Hv. left.
    - rewrite (bool_decide_eq_false_2 (Lobby.u_email u = _)).
      + rewrite andb_false_r. apply IH; assumption.
      + intros Hv. apply Hu. rewrite Hv, <- He.
        apply list_elem_of_In, in_map. exact Hin. }
  rewrite Hnone.
  assert (Hclash : Lobby.user_row_clashes
                     (Lobby.mkUser (Lobby.user_seq t)
                        (Lobby.rq_identity request)
                        (Lobby.rq_screenname request)
                        (Lobby.rq_email request) false)
                     (Lobby.users t) = true).
  { apply existsb_exists. exists other. split; [exact Hin|].
    apply orb_true_iff. right. apply bool_decide_eq_true. exact He. }
  rewrite Hclash.
  match goal with
  | |- context [List.filter ?f (Lobby.users t)] =>
      assert (Hex : existsb f (Lobby.users t)
                    = negb (is_nil (List.filter f (Lobby.users t))));
      [|rewrite Hex; destruct (List.filter f (Lobby.users t)); reflexivity]
  end.
  generalize (Lobby.users t). intros l. induction l as [|u l IH];
    simpl; [reflexivity|].
  destruct (bool_decide _); simpl; [reflexivity | exact IH].
Qed.

Lemma set_users_same t : Lobby.set_users (Lobby.users t) t = t.
Proof. tidy. destruct t; reflexivity. Qed.

Lemma filter_none {A} (test : A -> bool) l :
  (forall v, In v l -> test v = false) -> List.filter test l = [].
Proof.
  induction l as [|u l IH]; simpl; intros H; [reflexivity|].
  rewrite (H u) by auto. apply IH. auto.
Qed.

Lemma filter_key_unique {K} (key : Lobby.User -> K) (l : list Lobby.User)
    user (test : Lobby.User -> bool) :
  NoDup (map key l) ->
  In user l ->
  test user = true ->
  (forall u, In u l -> test u = true -> key u = key user) ->
  List.filter test l = [user].
Proof.
  tidy. induction l as [|u l IH]; simpl; intros Hnd Hin Ht Hk;
    [destruct Hin|].
  apply NoDup_cons in Hnd as [Hu Hnd].
  assert (Hfresh : forall v, In v l -> key v <> key u).
  { intros v Hv Hvu. apply Hu. rewrite <- Hvu.
    apply list_elem_of_In, in_map. exact Hv. }
  destruct Hin as [->|Hin].
  - rewrite Ht. f_equal. apply filter_none. intros v Hv.
    destruct (test v) eqn:E; [|reflexivity].
    exfalso. apply (Hfresh v Hv). apply Hk; auto.
  - destruct (test u) eqn:E.
    + exfalso. apply (Hfresh user Hin). symmetry. apply Hk; auto.
    + apply IH; auto.
Qed.

Lemma update_user_undo (l : list Lobby.User) user :
  NoDup (map Lobby.u_userid l) ->
  In user l ->
  Lobby.u_unsubscribed user = false ->
  Lobby.update_user (Lobby.u_userid user) (Lobby.set_unsubscribed false)
    (Lobby.update_user (Lobby.u_userid user) (Lobby.set_unsubscribed true) l)
  = l.
Proof.
  tidy. intros Hnd Hin Hsub. unfold Lobby.update_user. rewrite map_map.
  rewrite <- (map_id l) at 2. apply map_ext_in. intros u Hu.
  destruct (decide (Lobby.u_userid u = Lobby.u_userid user)) as [E|E].
  - simpl. destruct (decide _); [|congruence].
    assert (u = user);
      [|subst; destruct user; unfold Lobby.set_unsubscribed; simpl in *;
        subst; reflexivity].
    clear -Hnd Hin Hu E. revert Hnd Hin Hu.
    induction l as [|v l IH]; simpl; intros Hnd Hin Hu; [destruct Hu|].
    apply NoDup_cons in Hnd as [Hv Hnd].
    destruct Hin as [->|Hin], Hu as [->|Hu]; auto.
    + exfalso. apply Hv. rewrite <- E.
      apply list_elem_of_In, in_map. exact Hu.
    + exfalso. apply Hv. rewrite E.
      apply list_elem_of_In, in_map. exact Hin.
  - destruct (decide _); [congruence | reflexivity].
Qed.

(** X14: for a subscribed user who is the first of its identity,
    [unsubscribe] followed by a [login] with that identity and email is a
    round trip: the login answers with the user, as existing, and the
    tables are back as they were before the unsubscribe. *)
Theorem unsubscribe_login_round_trip t user rest name :
  NoDup (map Lobby.u_userid (Lobby.users t)) ->
  NoDup (map Lobby.u_email (Lobby.users t)) ->
  List.filter (fun u => bool_decide (Lobby.u_identity u
                                     = Lobby.u_identity user))
    (Lobby.users t) = user :: rest ->
  Lobby.u_unsubscribed user = false ->
  exists t1,
    Lobby.unsubscribe (Lobby.u_identity user) t = (inr tt, t1)
    /\ In (Lobby.set_unsubscribed true user) (Lobby.users t1)
    /\ Lobby.login
         (Lobby.mkLoginRequest (Lobby.u_identity user) (Lobby.u_email user)
            name) t1
       = (inr (Lobby.mkLoginResponse (Lobby.u_userid user)
                 (Lobby.u_screenname user) true), t).
Proof.
  tidy. intros Hid He Hm Hsub.
  assert (Hin : In user (Lobby.users t)).
  { assert (H : In user (user :: rest)) by (left; reflexivity).
    rewrite <- Hm in H. apply filter_In in H. tauto. }
  eexists. split; [|split].
  - unfold Lobby.unsubscribe, Lobby.api. rewrite Hm. reflexivity.
  - simpl. unfold Lobby.update_user. apply in_map_iff. exists user.
    split; [|exact Hin]. destruct (decide _); [reflexivity | congruence].
  - unfold Lobby.login, Lobby.api, Lobby.login_body. simpl.
    rewrite filter_update_user by reflexivity.
    rewrite (filter_key_unique Lobby.u_email (Lobby.users t) user); auto.
    + simpl. destruct (decide _); [|congruence]. simpl.
      unfold Lobby.from_user. simpl. f_equal.
      rewrite (update_user_undo (Lobby.users t) user) by assumption.
      destruct t; reflexivity.
    + simpl. rewrite !bool_decide_eq_true_2; reflexivity.
    + intros u _ Hu. simpl in Hu. apply andb_true_iff in Hu as [_ Hu].
      apply bool_decide_eq_true in Hu. exact Hu.
Qed.

(** ** Screen names *)

Lemma player_name_inj u v : Lobby.player_name u = Lobby.player_name v -> u = v.
Proof.
  tidy. unfold Lobby.player_name. intros H. simpl in H.
  injection H as H. change ("" +:+ ?x)%string with x in H.
  assert (Hn : forall z, Z.to_int z <> Decimal.Pos Decimal.Nil
                         /\ Z.to_int z <> Decimal.Neg Decimal.Nil).
  { intros [|p|p]; simpl; split; try discriminate; intros E;
      injection E as E; exact (Unsigned.to_uint_nonnil p E). }
  apply (f_equal NilZero.int_of_string) in H.
  rewrite !NilZero.isi in H by apply Hn.
  injection H as H. apply DecimalZ.to_int_inj. exact H.
Qed.

Lemma prefix_append s x : String.prefix s (s +:+ x) = true.
Proof.
  tidy. induction s as [|a s IH]; [destruct x; reflexivity|].
  change (String a s +:+ x) with (String a (s +:+ x)). simpl.
  destruct (Ascii.ascii_dec a a); [exact IH | congruence].
Qed.

Lemma player_name_prefix u :
  String.prefix "Player " (Lobby.player_name u) = true.
Proof. tidy. apply prefix_append. Qed.

Lemma update_screenname_names uid name (l : list Lobby.User) x :
  In x (map Lobby.u_screenname
          (Lobby.update_user uid (Lobby.set_screenname name) l)) ->
  In x (map Lobby.u_screenname l) \/ x = name.
Proof.
  tidy. unfold Lobby.update_user. rewrite map_map. intros H.
  apply in_map_iff in H as (u & <- & Hu).
  destruct (decide _); simpl; [right; reflexivity|].
  left. apply in_map. exact Hu.
Qed.

Lemma update_screenname_NoDup uid name (l : list Lobby.User) :
  NoDup (map Lobby.u_screenname l) ->
  NoDup (map Lobby.u_userid l) ->
  ~ In name (map Lobby.u_screenname l) ->
  NoDup (map Lobby.u_screenname
           (Lobby.update_user uid (Lobby.set_screenname name) l)).
Proof.
  tidy. induction l as [|u l IH]; simpl; intros Hs Hi Hn; [constructor|].
  apply NoDup_cons in Hs as [Hu Hs]. apply NoDup_cons in Hi as [Hui Hi].
  rewrite list_elem_of_In in Hu. rewrite list_elem_of_In in Hui.
  destruct (decide (Lobby.u_userid u = uid)) as [E|E]; simpl.
  - rewrite update_user_same.
    + apply NoDup_cons. rewrite list_elem_of_In. split; [tauto | exact Hs].
    + apply List.Forall_forall. intros v Hv Hvid. exfalso. apply Hui.
      rewrite E, <- Hvid. apply in_map. exact Hv.
  - apply NoDup_cons. rewrite list_elem_of_In. split; [|apply IH; tauto].
    intros H. apply update_screenname_names in H as [H|H]; [tauto|].
    apply Hn. left. exact H.
Qed.

Lemma filter_new_screenname uid name (l : list Lobby.User) :
  ~ In name (map Lobby.u_screenname l) ->
  List.filter (fun u => bool_decide (Lobby.u_screenname u = name))
    (Lobby.update_user uid (Lobby.set_screenname name) l)
  = map (Lobby.set_screenname name)
      (List.filter (fun u => bool_decide (Lobby.u_userid u = uid)) l).
Proof.
  tidy. induction l as [|u l IH]; simpl; intros Hn; [reflexivity|].
  destruct (decide (Lobby.u_userid u = uid)) as [E|E].
  - rewrite (bool_decide_eq_true_2 _ E). simpl.
    rewrite bool_decide_eq_true_2 by reflexivity.
    f_equal. apply IH. tauto.
  - rewrite (bool_decide_eq_false_2 _ E).
    rewrite bool_decide_eq_false_2 by tauto. apply IH. tauto.
Qed.

(** X15: a successful [change_screenname] keeps the keys of the user
    table, gives the name to the user of that userid and to nobody else
    (looking the name up finds that user), and leaves every other row and
    every userid as it was. *)
Theorem change_screenname_keeps_unique userid screenname t t' :
  users_ok t ->
  Lobby.change_screenname userid screenname t = (inr tt, t') ->
  users_ok t'
  /\ Lobby.get_user_by_screenname screenname t'
     = (inr (Some (userid, screenname)), t')
  /\ map Lobby.u_userid (Lobby.users t') = map Lobby.u_userid (Lobby.users t)
  /\ (forall u, In u (Lobby.users t) -> Lobby.u_userid u <> userid ->
                In u (Lobby.users t')).
Proof.
  tidy. intros (Hs & He & Hi & Hq).
  unfold Lobby.change_screenname, Lobby.api.
  destruct (_ && _); [discriminate|].
  destruct (List.filter
              (fun u => bool_decide (Lobby.u_screenname u = screenname))
              (Lobby.users t)) as [|x xs] eqn:Ename; [|discriminate].
  destruct (List.filter (fun u => bool_decide (Lobby.u_userid u = userid))
              (Lobby.users t)) as [|user [|y ys]] eqn:Euser;
    try discriminate.
  intros H. inversion H; subst; clear H.
  assert (Hfree : ~ In screenname (map Lobby.u_screenname (Lobby.users t))).
  { intros Hin. apply in_map_iff in Hin as (u & Hu & Hin).
    assert (Hf : In u (List.filter
                         (fun u => bool_decide (Lobby.u_screenname u
                                                = screenname))
                         (Lobby.users t))).
    { apply filter_In. split; [exact Hin|].
      apply bool_decide_eq_true. exact Hu. }
    rewrite Ename in Hf. destruct Hf. }
  assert (Huser : Lobby.u_userid user = userid).
  { assert (Hf : In user [user]) by (left; reflexivity).
    rewrite <- Euser in Hf. apply filter_In in Hf as [_ Hf].
    apply bool_decide_eq_true in Hf. exact Hf. }
  split; [|split; [|split]].
  - unfold users_ok. simpl.
    rewrite (update_user_map Lobby.u_email) by reflexivity.
    rewrite (update_user_map Lobby.u_userid) by reflexivity.
    repeat split; try assumption.
    + apply update_screenname_NoDup; assumption.
    + apply List.Forall_forall. intros u Hu. unfold Lobby.update_user in Hu.
      apply in_map_iff in Hu as (u0 & <- & Hu0).
      rewrite List.Forall_forall in Hq. specialize (Hq u0 Hu0).
      destruct (decide _); simpl; exact Hq.
  - unfold Lobby.get_user_by_screenname, Lobby.api. simpl.
    rewrite filter_new_screenname by assumption. rewrite Euser. simpl.
    rewrite Huser. reflexivity.
  - simpl. apply update_user_map. reflexivity.
  - intros u Hu Hne. simpl. unfold Lobby.update_user. apply in_map_iff.
    exists u. split; [|exact Hu]. destruct (decide _); [contradiction|].
    reflexivity.
Qed.

(** X16: the refusals of [change_screenname].  A name some user holds,
    the caller's own current name included, is refused as a duplicate;
    so is every reserved name "Player N" with N another userid, taken or
    not; the caller's own reserved name succeeds as soon as nobody holds
    it; and a free name for a userid that is not in the table is
    NO_SUCH_USER.  No refusal changes the tables. *)
Theorem change_screenname_refusals userid t :
  (forall holder,
      In holder (Lobby.users t) ->
      Lobby.change_screenname userid (Lobby.u_screenname holder) t
      = (inl Lobby.ERR_DUPLICATE_SCREENNAME, t))
  /\ (forall other,
        other <> userid ->
        Lobby.change_screenname userid (Lobby.player_name other) t
        = (inl Lobby.ERR_DUPLICATE_SCREENNAME, t))
  /\ (forall user,
        NoDup (map Lobby.u_userid (Lobby.users t)) ->
        In user (Lobby.users t) ->
        Lobby.u_userid user = userid ->
        ~ In (Lobby.player_name userid)
            (map Lobby.u_screenname (Lobby.users t)) ->
        exists t',
          Lobby.change_screenname userid (Lobby.player_name userid) t
          = (inr tt, t')
          /\ In (Lobby.set_screenname (Lobby.player_name userid) user)
               (Lobby.users t'))
  /\ (forall screenname,
        String.prefix "Player " screenname = false ->
        ~ In screenname (map Lobby.u_screenname (Lobby.users t)) ->
        ~ In userid (map Lobby.u_userid (Lobby.users t)) ->
        Lobby.change_screenname userid screenname t
        = (inl Lobby.ERR_NO_SUCH_USER, t)).
Proof.
  tidy. split; [|split; [|split]].
  - intros holder Hin. unfold Lobby.change_screenname, Lobby.api.
    destruct (_ && _); [reflexivity|].
    destruct (List.filter _ (Lobby.users t)) as [|x xs] eqn:E;
      [|reflexivity].
    exfalso.
    assert (Hf : In holder
                   (List.filter
                      (fun u => bool_decide (Lobby.u_screenname u
                                             = Lobby.u_screenname holder))
                      (Lobby.users t))).
    { apply filter_In. split; [exact Hin|].
      apply bool_decide_eq_true. reflexivity. }
    rewrite E in Hf. destruct Hf.
  - intros other Hne. unfold Lobby.change_screenname, Lobby.api.
    rewrite player_name_prefix.
    rewrite bool_decide_eq_false_2; [reflexivity|].
    intros H. apply player_name_inj in H. contradiction.
  - intros user Hnd Hin Hid Hfree.
    unfold Lobby.change_screenname, Lobby.api.
    rewrite player_name_prefix.
    rewrite bool_decide_eq_true_2 by reflexivity. simpl.
    rewrite filter_none.
    2:{ intros v Hv. apply bool_decide_eq_false_2. intros Hname.
        apply Hfree. rewrite <- Hname. apply in_map. exact Hv. }
    rewrite (filter_key_unique Lobby.u_userid (Lobby.users t) user); auto.
    + eexists. split; [reflexivity|]. simpl.
      unfold Lobby.update_user. apply in_map_iff. exists user.
      split; [|exact Hin]. destruct (decide _); [reflexivity|contradiction].
    + apply bool_decide_eq_true. exact Hid.
    + intros u _ Hu. apply bool_decide_eq_true in Hu. congruence.
  - intros screenname Hp Hfree Hno.
    unfold Lobby.change_screenname, Lobby.api. rewrite Hp. simpl.
    rewrite filter_none.
    2:{ intros v Hv. apply bool_decide_eq_false_2. intros Hname.
        apply Hfree. rewrite <- Hname. apply in_map. exact Hv. }
    rewrite filter_none; [reflexivity|].
    intros v Hv. apply bool_decide_eq_false_2. intros Hid.
    apply Hno. rewrite <- Hid. apply in_map. exact Hv.
Qed.

(** ** Open games *)

Lemma key_unique {A K} (key : A -> K) (l : list A) a b :
  NoDup (map key l) -> In a l -> In b l -> key a = key b -> a = b.
Proof.
  induction l as [|x l IH]; simpl; intros Hnd Ha Hb E; [destruct Ha|].
  apply NoDup_cons in Hnd as [Hx Hnd]. rewrite list_elem_of_In in Hx.
  destruct Ha as [<-|Ha], Hb as [<-|Hb]; auto.
  - exfalso. apply Hx. rewrite E. apply in_map. exact Hb.
  - exfalso. apply Hx. rewrite <- E. apply in_map. exact Ha.
Qed.

Lemma NoDup_map_filter {A K} (key : A -> K) (test : A -> bool) l :
  NoDup (map key l) -> NoDup (map key (List.filter test l)).
Proof.
  induction l as [|x l IH]; simpl; intros Hnd; [constructor|].
  apply NoDup_cons in Hnd as [Hx Hnd]. rewrite list_elem_of_In in Hx.
  destruct (test x); simpl; [|auto].
  apply NoDup_cons. rewrite list_elem_of_In. split; [|auto].
  intros Hin. apply Hx. apply in_map_iff in Hin as (y & E & Hy).
  apply filter_In in Hy as [Hy _]. rewrite <- E. apply in_map. exact Hy.
Qed.

Lemma filter_filter_comm {A} (p q : A -> bool) l :
  List.filter p (List.filter q l) = List.filter q (List.filter p l).
Proof.
  induction l as [|x l IH]; simpl; [reflexivity|].
  destruct (p x) eqn:Ep, (q x) eqn:Eq; simpl; rewrite ?Ep, ?Eq, IH;
    reflexivity.
Qed.

Lemma delete_all_open_games ds t :
  Lobby.open_games
    (foldl (fun t0 game => Lobby.delete_open_game (Lobby.og_gameid game) t0)
       t ds)
  = List.filter (kept_after ds) (Lobby.open_games t).
Proof.
  tidy. revert t. induction ds as [|d ds IH]; intros t; simpl.
  - symmetry. apply filter_all. reflexivity.
  - rewrite IH. destruct t; simpl. clear.
    induction open_games as [|g l IHl]; simpl; [reflexivity|].
    unfold kept_after at 2. simpl.
    destruct (Lobby.og_gameid g =? Lobby.og_gameid d); simpl; [exact IHl|].
    fold (kept_after ds g). destruct (kept_after ds g); simpl;
      rewrite IHl; reflexivity.
Qed.

Lemma delete_all_frame ds t :
  let t' :=
    foldl (fun t0 game => Lobby.delete_open_game (Lobby.og_gameid game) t0)
      t ds in
  Lobby.gameid_seq t' = Lobby.gameid_seq t
  /\ Lobby.situations t' = Lobby.situations t
  /\ Lobby.users t' = Lobby.users t
  /\ Lobby.running_games t' = Lobby.running_games t
  /\ (forall o, In o (Lobby.ogps t') -> In o (Lobby.ogps t)).
Proof.
  tidy. revert t. induction ds as [|d ds IH]; intros t; simpl.
  - repeat split; auto.
  - destruct (IH (Lobby.delete_open_game (Lobby.og_gameid d) t))
      as (H1 & H2 & H3 & H4 & H5).
    rewrite H1, H2, H3, H4. destruct t; simpl. repeat split; try reflexivity.
    intros o Ho. apply H5 in Ho. simpl in Ho.
    apply filter_In in Ho as [Ho _]. exact Ho.
Qed.

Lemma removelast_split {A} (l : list A) :
  l <> [] -> exists x, l = removelast l ++ [x] /\ In x l.
Proof.
  destruct l as [|a l]; [congruence|]. intros _.
  exists (List.last (a :: l) a). split.
  - apply app_removelast_last. discriminate.
  - rewrite (app_removelast_last a) at 2 by discriminate.
    apply in_or_app. right. left. reflexivity.
Qed.

(** The turn of [ensure_open_games] for one situation, when it deletes:
    of that situation's empty games the last one is left, alone. *)
Lemma keep_last_empty (empty : list Lobby.OpenGame) :
  NoDup (map Lobby.og_gameid empty) ->
  empty <> [] ->
  length (List.filter (kept_after (removelast empty)) empty) = 1%nat.
Proof.
  tidy. intros Hnd Hne.
  destruct (removelast_split empty Hne) as (x & E & _).
  remember (removelast empty) as rl. clear Heqrl. subst empty.
  rewrite List.filter_app. rewrite filter_none.
  - simpl. replace (kept_after rl x) with true; [reflexivity|].
    symmetry. unfold kept_after. apply negb_true_iff.
    apply not_true_is_false. intros H. apply existsb_exists in H
      as (d & Hd & Hid). apply Z.eqb_eq in Hid.
    rewrite map_app in Hnd. apply NoDup_app in Hnd as (_ & Hdisj & _).
    apply (Hdisj (Lobby.og_gameid d)).
    + apply list_elem_of_In. apply in_map. exact Hd.
    + rewrite <- Hid. simpl. apply list_elem_of_In. left. reflexivity.
  - intros v Hv. unfold kept_after. apply negb_false_iff.
    apply existsb_exists. exists v. split; [exact Hv | apply Z.eqb_refl].
Qed.

Lemma empty_open_in sid l g :
  In g (Lobby.empty_open sid l) <->
  In g l /\ Lobby.og_situationid g = sid /\ Lobby.og_participants g = 0.
Proof.
  tidy. unfold Lobby.empty_open. rewrite filter_In, andb_true_iff.
  rewrite !Z.eqb_eq. tauto.
Qed.

(** A deleted game is an empty game of the situation on turn. *)
Lemma kept_after_others sid l g :
  NoDup (map Lobby.og_gameid l) ->
  In g l ->
  Lobby.og_situationid g <> sid \/ Lobby.og_participants g <> 0 ->
  kept_after (removelast (Lobby.empty_open sid l)) g = true.
Proof.
  tidy. intros Hnd Hg Hother. unfold kept_after. apply negb_true_iff.
  apply not_true_is_false. intros H.
  apply existsb_exists in H as (d & Hd & Hid). apply Z.eqb_eq in Hid.
  assert (Hd' : In d (Lobby.empty_open sid l)).
  { destruct (Lobby.empty_open sid l) as [|a e] eqn:E; [destruct Hd|].
    rewrite (app_removelast_last a) by discriminate.
    apply in_or_app. left. exact Hd. }
  apply empty_open_in in Hd' as (Hdl & Hs & Hp).
  assert (g = d) by (eapply key_unique; eauto). subst d. tauto.
Qed.

Lemma ensure_step_games_ok t situation :
  games_ok t -> games_ok (Lobby.ensure_step t situation).
Proof.
  tidy. intros [Hnd Hlt]. unfold Lobby.ensure_step, games_ok.
  destruct (1 <? _)%nat.
  - rewrite delete_all_open_games.
    destruct (delete_all_frame
                (removelast (Lobby.empty_open
                               (Lobby.sit_situationid situation)
                               (Lobby.open_games t))) t) as (-> & _).
    split; [apply NoDup_map_filter; exact Hnd|].
    apply List.Forall_forall. intros g Hg. apply filter_In in Hg as [Hg _].
    rewrite List.Forall_forall in Hlt. auto.
  - destruct (_ =? 0)%nat; [|split; assumption].
    destruct t; simpl in *. split.
    + rewrite map_app. apply NoDup_snoc; [exact Hnd|]. simpl.
      intros Hin. apply in_map_iff in Hin as (g & E & Hg).
      rewrite List.Forall_forall in Hlt. specialize (Hlt g Hg). lia.
    + apply List.Forall_forall. intros g Hg. apply in_app_or in Hg as [Hg|Hg].
      * rewrite List.Forall_forall in Hlt. specialize (Hlt g Hg). lia.
      * destruct Hg as [<-|[]]. simpl. lia.
Qed.

Lemma ensure_step_one_empty t situation :
  games_ok t ->
  length (Lobby.empty_open (Lobby.sit_situationid situation)
            (Lobby.open_games (Lobby.ensure_step t situation))) = 1%nat.
Proof.
  tidy. intros [Hnd Hlt]. unfold Lobby.ensure_step.
  remember (Lobby.empty_open (Lobby.sit_situationid situation)
              (Lobby.open_games t)) as empty eqn:Eempty.
  destruct (1 <? length empty)%nat eqn:E1.
  - rewrite delete_all_open_games. unfold Lobby.empty_open.
    rewrite filter_filter_comm. fold (Lobby.empty_open
      (Lobby.sit_situationid situation) (Lobby.open_games t)).
    rewrite <- Eempty. apply keep_last_empty.
    + subst empty. apply NoDup_map_filter. exact Hnd.
    + intros ->. discriminate.
  - destruct (length empty =? 0)%nat eqn:E0.
    + apply Nat.eqb_eq in E0. destruct t; simpl in *.
      unfold Lobby.empty_open in *. rewrite List.filter_app.
      rewrite length_app, <- Eempty, E0. simpl.
      rewrite Z.eqb_refl. reflexivity.
    + apply Nat.ltb_ge in E1. apply Nat.eqb_neq in E0. rewrite <- Eempty. lia.
Qed.

Lemma ensure_step_other_situations t situation sid :
  games_ok t ->
  sid <> Lobby.sit_situationid situation ->
  Lobby.empty_open sid (Lobby.open_games (Lobby.ensure_step t situation))
  = Lobby.empty_open sid (Lobby.open_games t).
Proof.
  tidy. intros [Hnd Hlt] Hsid. unfold Lobby.ensure_step.
  destruct (1 <? _)%nat.
  - rewrite delete_all_open_games. unfold Lobby.empty_open at 1.
    rewrite filter_filter_comm. apply filter_all. intros g Hg.
    apply empty_open_in in Hg as (Hg & Hs & Hp).
    apply kept_after_others; auto. left. congruence.
  - destruct (_ =? 0)%nat; [|reflexivity].
    destruct t; simpl. unfold Lobby.empty_open. rewrite List.filter_app.
    simpl. replace (Lobby.sit_situationid situation =? sid) with false.
    + simpl. apply app_nil_r.
    + symmetry. apply Z.eqb_neq. congruence.
Qed.

Lemma ensure_step_frame t situation :
  games_ok t ->
  let t' := Lobby.ensure_step t situation in
  Lobby.situations t' = Lobby.situations t
  /\ Lobby.users t' = Lobby.users t
  /\ Lobby.running_games t' = Lobby.running_games t
  /\ Lobby.gameid_seq t <= Lobby.gameid_seq t'
  /\ (forall o, In o (Lobby.ogps t') -> In o (Lobby.ogps t))
  /\ (forall g, In g (Lobby.open_games t) -> Lobby.og_participants g <> 0 ->
                In g (Lobby.open_games t'))
  /\ (forall g, In g (Lobby.open_games t') ->
                In g (Lobby.open_games t)
                \/ Lobby.og_participants g = 0
                   /\ Lobby.gameid_seq t <= Lobby.og_gameid g).
Proof.
  tidy. intros [Hnd Hlt]. unfold Lobby.ensure_step.
  destruct (1 <? _)%nat.
  - destruct (delete_all_frame
                (removelast (Lobby.empty_open
                               (Lobby.sit_situationid situation)
                               (Lobby.open_games t))) t)
      as (H1 & H2 & H3 & H4 & H5).
    simpl. rewrite H1, H2, H3, H4, delete_all_open_games.
    repeat split; auto; try lia.
    + intros g Hg Hp. apply filter_In. split; [exact Hg|].
      apply kept_after_others; auto.
    + intros g Hg. apply filter_In in Hg as [Hg _]. left. exact Hg.
  - destruct (_ =? 0)%nat.
    + destruct t; simpl. repeat split; auto; try lia.
      * intros g Hg _. apply in_or_app. left. exact Hg.
      * intros g Hg. apply in_app_or in Hg as [Hg|[<-|[]]]; [left; exact Hg|].
        right. simpl. split; [reflexivity | lia].
    + simpl. repeat split; auto; try lia.
Qed.

Lemma ensure_loop t l :
  games_ok t ->
  let t' := foldl Lobby.ensure_step t l in
  games_ok t'
  /\ (forall sid,
        (In sid (map Lobby.sit_situationid l)
         \/ length (Lobby.empty_open sid (Lobby.open_games t)) = 1%nat) ->
        length (Lobby.empty_open sid (Lobby.open_games t')) = 1%nat)
  /\ Lobby.situations t' = Lobby.situations t
  /\ Lobby.users t' = Lobby.users t
  /\ Lobby.running_games t' = Lobby.running_games t
  /\ Lobby.gameid_seq t <= Lobby.gameid_seq t'
  /\ (forall o, In o (Lobby.ogps t') -> In o (Lobby.ogps t))
  /\ (forall g, In g (Lobby.open_games t) -> Lobby.og_participants g <> 0 ->
                In g (Lobby.open_games t'))
  /\ (forall g, In g (Lobby.open_games t') ->
                In g (Lobby.open_games t)
                \/ Lobby.og_participants g = 0
                   /\ Lobby.gameid_seq t <= Lobby.og_gameid g).
Proof.
  tidy. revert t. induction l as [|s l IH]; intros t Hok; simpl.
  - repeat split; try apply Hok; auto; try lia; tauto.
  - pose proof (ensure_step_games_ok t s Hok) as Hok1.
    destruct (IH _ Hok1) as (G1 & G2 & G3 & G4 & G5 & G6 & G7 & G8 & G9).
    destruct (ensure_step_frame t s Hok) as (F3 & F4 & F5 & F6 & F7 & F8 & F9).
    split; [exact G1|]. split.
    { intros sid Hsid. apply G2.
      destruct (decide (sid = Lobby.sit_situationid s)) as [->|Hne].
      - right. apply ensure_step_one_empty. exact Hok.
      - destruct Hsid as [[E|Hin]|H1]; [congruence | left; exact Hin |].
        right. rewrite ensure_step_other_situations by assumption. exact H1. }
    rewrite G3, G4, G5, F3, F4, F5. repeat split; auto; try lia.
    intros g Hg. apply G9 in Hg as [Hg|[Hp Hid]].
    + apply F9 in Hg. exact Hg.
    + right. split; [exact Hp | lia].
Qed.

(** X17: [ensure_open_games] does what its docstring says when gameids are
    keys: afterwards every situation has exactly one open game that nobody
    has joined.  It keeps gameids distinct and below their sequence,
    removes no game somebody has joined, adds only empty games with fresh
    ids, adds no participant row, and leaves situations, users and running
    games alone. *)
Theorem ensure_open_games_one_empty t :
  games_ok t ->
  exists t',
    Lobby.ensure_open_games t = (inr tt, t')
    /\ games_ok t'
    /\ one_empty_each t'
    /\ Lobby.situations t' = Lobby.situations t
    /\ Lobby.users t' = Lobby.users t
    /\ Lobby.running_games t' = Lobby.running_games t
    /\ (forall o, In o (Lobby.ogps t') -> In o (Lobby.ogps t))
    /\ (forall g, In g (Lobby.open_games t) -> Lobby.og_participants g <> 0 ->
                  In g (Lobby.open_games t'))
    /\ (forall g, In g (Lobby.open_games t') ->
                  In g (Lobby.open_games t)
                  \/ Lobby.og_participants g = 0
                     /\ Lobby.gameid_seq t <= Lobby.og_gameid g).
Proof.
  tidy. intros Hok. eexists. split; [reflexivity|].
  destruct (ensure_loop t (Lobby.situations t) Hok)
    as (G1 & G2 & G3 & G4 & G5 & G6 & G7 & G8 & G9).
  unfold Lobby.ensure_open_games_body.
  split; [exact G1|]. split.
  { unfold one_empty_each. rewrite G3. apply List.Forall_forall.
    intros s Hs. apply G2. left. apply in_map. exact Hs. }
  repeat split; auto.
Qed.

Lemma ensure_loop_fixed t l :
  Forall (fun s => length (Lobby.empty_open (Lobby.sit_situationid s)
                             (Lobby.open_games t)) = 1%nat) l ->
  foldl Lobby.ensure_step t l = t.
Proof.
  tidy. induction 1 as [|s l Hs _ IH]; simpl; [reflexivity|].
  unfold Lobby.ensure_step at 2. rewrite Hs. simpl. exact IH.
Qed.

(** X18: [ensure_open_games] changes nothing once every situation has its
    one empty open game, so running it a second time is a no-op. *)
Theorem ensure_open_games_idempotent t :
  (one_empty_each t -> Lobby.ensure_open_games t = (inr tt, t))
  /\ (games_ok t ->
      Lobby.ensure_open_games (Lobby.ensure_open_games t).2
      = (inr tt, (Lobby.ensure_open_games t).2)).
Proof.
  tidy. assert (H1 : forall t0, one_empty_each t0 ->
                                Lobby.ensure_open_games t0 = (inr tt, t0)).
  { intros t0 H. unfold Lobby.ensure_open_games, Lobby.api,
      Lobby.ensure_open_games_body. rewrite ensure_loop_fixed by exact H.
    reflexivity. }
  split; [apply H1|]. intros Hok.
  destruct (ensure_loop t (Lobby.situations t) Hok) as (_ & G2 & G3 & _).
  apply H1. unfold one_empty_each. simpl.
  unfold Lobby.ensure_open_games_body. rewrite G3.
  apply List.Forall_forall. intros s Hs. apply G2. left.
  apply in_map. exact Hs.
Qed.

Lemma add_participants_ids gameid d l :
  map Lobby.og_gameid (Lobby.add_participants gameid d l)
  = map Lobby.og_gameid l.
Proof.
  tidy. unfold Lobby.add_participants. rewrite map_map. apply map_ext.
  intros g. destruct (decide _); reflexivity.
Qed.

Lemma add_participants_games_ok gameid d t :
  games_ok t ->
  games_ok (Lobby.set_open_games
              (Lobby.add_participants gameid d (Lobby.open_games t)) t).
Proof.
  tidy. intros [Hnd Hlt]. unfold games_ok. destruct t; simpl in *.
  rewrite add_participants_ids. split; [exact Hnd|].
  apply List.Forall_forall. intros g Hg. unfold Lobby.add_participants in Hg.
  apply in_map_iff in Hg as (g0 & <- & Hg0).
  rewrite List.Forall_forall in Hlt. specialize (Hlt g0 Hg0).
  destruct (decide _); simpl; exact Hlt.
Qed.

Lemma first_by_gameid gameid (l : list Lobby.OpenGame) :
  match List.filter (fun g => Lobby.og_gameid g =? gameid) l with
  | [] => ~ In gameid (map Lobby.og_gameid l)
  | game :: _ => In game l /\ Lobby.og_gameid game = gameid
  end.
Proof.
  tidy. destruct (List.filter _ l) as [|game rest] eqn:E.
  - intros Hin. apply in_map_iff in Hin as (g & Hid & Hg).
    assert (Hf : In g (List.filter (fun g => Lobby.og_gameid g =? gameid) l)).
    { apply filter_In. split; [exact Hg | apply Z.eqb_eq; exact Hid]. }
    rewrite E in Hf. destruct Hf.
  - assert (Hf : In game (List.filter
                            (fun g => Lobby.og_gameid g =? gameid) l)).
    { rewrite E. left. reflexivity. }
    apply filter_In in Hf as [Hg Hid]. apply Z.eqb_eq in Hid. auto.
Qed.

Lemma first_by_userid userid (l : list Lobby.User) :
  match List.filter (fun u => Lobby.u_userid u =? userid) l with
  | [] => ~ In userid (map Lobby.u_userid l)
  | user :: _ => In user l /\ Lobby.u_userid user = userid
  end.
Proof.
  tidy. destruct (List.filter _ l) as [|user rest] eqn:E.
  - intros Hin. apply in_map_iff in Hin as (g & Hid & Hg).
    assert (Hf : In g (List.filter (fun u => Lobby.u_userid u =? userid) l)).
    { apply filter_In. split; [exact Hg | apply Z.eqb_eq; exact Hid]. }
    rewrite E in Hf. destruct Hf.
  - assert (Hf : In user (List.filter
                            (fun u => Lobby.u_userid u =? userid) l)).
    { rewrite E. left. reflexivity. }
    apply filter_In in Hf as [Hg Hid]. apply Z.eqb_eq in Hid. auto.
Qed.

Lemma in_game_spec userid gameid t :
  existsb (fun o => Lobby.ogp_userid o =? userid) (Lobby.game_ogps gameid t)
  = true
  <-> In (Lobby.mkOgp userid gameid) (Lobby.ogps t).
Proof.
  tidy. rewrite existsb_exists. unfold Lobby.game_ogps. split.
  - intros (o & Ho & Hu). apply filter_In in Ho as [Ho Hg].
    apply Z.eqb_eq in Hu, Hg. destruct o; simpl in *. subst. exact Ho.
  - intros H. exists (Lobby.mkOgp userid gameid). split.
    + apply filter_In. split; [exact H | apply Z.eqb_refl].
    + apply Z.eqb_refl.
Qed.

(** X19: [leave_game] checks the game first, then the user, then the
    membership, and a refusal changes nothing.  When gameids are keys and
    the user sits in the game, it succeeds: the user's row in the game is
    gone and no participant row is new, the game has one participant less
    if anybody is left in it, and every situation has exactly one empty
    open game again. *)
Theorem leave_game_outcome userid gameid t :
  (~ In gameid (map Lobby.og_gameid (Lobby.open_games t)) ->
   Lobby.leave_game userid gameid t = (inl Lobby.ERR_NO_SUCH_OPEN_GAME, t))
  /\ (In gameid (map Lobby.og_gameid (Lobby.open_games t)) ->
      ~ In userid (map Lobby.u_userid (Lobby.users t)) ->
      Lobby.leave_game userid gameid t = (inl Lobby.ERR_NO_SUCH_USER, t))
  /\ (In gameid (map Lobby.og_gameid (Lobby.open_games t)) ->
      In userid (map Lobby.u_userid (Lobby.users t)) ->
      ~ In (Lobby.mkOgp userid gameid) (Lobby.ogps t) ->
      Lobby.leave_game userid gameid t = (inl Lobby.ERR_USER_NOT_IN_GAME, t))
  /\ (forall game,
        games_ok t ->
        In game (Lobby.open_games t) ->
        Lobby.og_gameid game = gameid ->
        In userid (map Lobby.u_userid (Lobby.users t)) ->
        In (Lobby.mkOgp userid gameid) (Lobby.ogps t) ->
        exists t',
          Lobby.leave_game userid gameid t = (inr tt, t')
          /\ games_ok t' /\ one_empty_each t'
          /\ ~ In (Lobby.mkOgp userid gameid) (Lobby.ogps t')
          /\ (forall o, In o (Lobby.ogps t') -> In o (Lobby.ogps t))
          /\ (Lobby.og_participants game <> 1 ->
              In (Lobby.mkOpenGame gameid (Lobby.og_situationid game)
                    (Lobby.og_participants game - 1))
                (Lobby.open_games t'))
          /\ Lobby.users t' = Lobby.users t
          /\ Lobby.running_games t' = Lobby.running_games t).
Proof.
  tidy. unfold Lobby.leave_game, Lobby.api, Lobby.leave_game_body.
  pose proof (first_by_gameid gameid (Lobby.open_games t)) as Hgame.
  pose proof (first_by_userid userid (Lobby.users t)) as Huser.
  destruct (List.filter _ (Lobby.open_games t)) as [|first rest].
  { split; [reflexivity|]. repeat split; intros; try contradiction.
    exfalso. apply Hgame. apply in_map_iff. eauto. }
  destruct Hgame as [Hfirst Hid]. rewrite Hid.
  split; [intros Hno; exfalso; apply Hno; rewrite <- Hid; apply in_map;
          exact Hfirst|].
  destruct (List.filter _ (Lobby.users t)) as [|user urest].
  { split; [reflexivity|]. split; intros; contradiction. }
  split; [intros _ Hno; exfalso; apply Hno; destruct Huser as [Hu <-];
          apply in_map; exact Hu|].
  pose proof (in_game_spec userid gameid t) as Hin.
  destruct (existsb _ (Lobby.game_ogps gameid t)).
  - split; [intros _ _ Hno; exfalso; apply Hno, Hin; reflexivity|].
    intros game Hok Hg Hgid _ _.
    assert (game = first) by (eapply key_unique; [apply Hok| | |]; eauto;
                              congruence).
    subst first.
    set (t1 := Lobby.set_ogps _ t).
    set (t2 := Lobby.set_open_games _ t1).
    assert (Hok2 : games_ok t2).
    { apply add_participants_games_ok. destruct t; exact Hok. }
    destruct (ensure_loop t2 (Lobby.situations t2) Hok2)
      as (G1 & G2 & G3 & G4 & G5 & G6 & G7 & G8 & G9).
    eexists. split; [reflexivity|]. simpl.
    unfold Lobby.ensure_open_games_body.
    split; [exact G1|]. split.
    { unfold one_empty_each. rewrite G3. apply List.Forall_forall.
      intros s Hs. apply G2. left. apply in_map. exact Hs. }
    assert (Hogps : forall o, In o (Lobby.ogps t2) ->
                              In o (Lobby.ogps t)
                              /\ o <> Lobby.mkOgp userid gameid).
    { intros o Ho. subst t2 t1. destruct t; simpl in *.
      apply filter_In in Ho as [Ho Hne]. split; [exact Ho|].
      intros ->. simpl in Hne. rewrite !Z.eqb_refl in Hne. discriminate. }
    split; [intros Ho; apply G7, Hogps in Ho; tauto|].
    split; [intros o Ho; apply G7, Hogps in Ho; tauto|].
    split.
    { intros Hp. apply G8; [|simpl; lia].
      subst t2 t1. destruct t; simpl in *. unfold Lobby.add_participants.
      apply in_map_iff. exists game. split; [|exact Hg].
      destruct (decide _); [|contradiction].
      rewrite Hgid. reflexivity. }
    rewrite G4, G5. subst t2 t1. destruct t; split; reflexivity.
  - split; [reflexivity|]. intros game _ _ _ _ Ho.
    apply Hin in Ho. discriminate.
Qed.

Lemma delete_all_keeps_ogps ds t o :
  In o (Lobby.ogps t) ->
  (forall d, In d ds -> Lobby.og_gameid d <> Lobby.ogp_gameid o) ->
  In o (Lobby.ogps
          (foldl (fun t0 game =>
                    Lobby.delete_open_game (Lobby.og_gameid game) t0) t ds)).
Proof.
  tidy. revert t. induction ds as [|d ds IH]; intros t Ho Hds; simpl;
    [exact Ho|].
  apply IH; [|intros d' Hd'; apply Hds; right; exact Hd'].
  destruct t; simpl in *. apply filter_In. split; [exact Ho|].
  apply negb_true_iff, Z.eqb_neq. intros E. apply (Hds d); auto.
Qed.

Lemma ensure_step_keeps_ogps t situation o g :
  games_ok t ->
  In o (Lobby.ogps t) ->
  In g (Lobby.open_games t) ->
  Lobby.og_gameid g = Lobby.ogp_gameid o ->
  Lobby.og_participants g <> 0 ->
  In o (Lobby.ogps (Lobby.ensure_step t situation)).
Proof.
  tidy. intros [Hnd Hlt] Ho Hg Hid Hp. unfold Lobby.ensure_step.
  destruct (1 <? _)%nat.
  - apply delete_all_keeps_ogps; [exact Ho|]. intros d Hd E.
    assert (Hd' : In d (Lobby.empty_open (Lobby.sit_situationid situation)
                          (Lobby.open_games t))).
    { destruct (Lobby.empty_open _ _) as [|a e] eqn:Ee; [destruct Hd|].
      rewrite (app_removelast_last a) by discriminate.
      apply in_or_app. left. exact Hd. }
    apply empty_open_in in Hd' as (Hdl & _ & Hp0).
    assert (d = g) by (eapply key_unique; eauto; congruence).
    subst d. contradiction.
  - destruct (_ =? 0)%nat; [destruct t|]; exact Ho.
Qed.

Lemma ensure_loop_keeps_ogps l t o g :
  games_ok t ->
  In o (Lobby.ogps t) ->
  In g (Lobby.open_games t) ->
  Lobby.og_gameid g = Lobby.ogp_gameid o ->
  Lobby.og_participants g <> 0 ->
  In o (Lobby.ogps (foldl Lobby.ensure_step t l)).
Proof.
  tidy. revert t. induction l as [|s l IH]; intros t Hok Ho Hg Hid Hp; simpl;
    [exact Ho|].
  apply IH; auto.
  - apply ensure_step_games_ok. exact Hok.
  - eapply ensure_step_keeps_ogps; eauto.
  - destruct (ensure_step_frame t s Hok) as (_ & _ & _ & _ & _ & F8 & _).
    apply F8; assumption.
Qed.

Lemma situation_of_add_participants game gid p gameid d t :
  situation_of
    (Lobby.mkOpenGame gid (Lobby.og_situationid game) p)
    (Lobby.set_open_games
       (Lobby.add_participants gameid d (Lobby.open_games t)) t)
  = situation_of game t.
Proof. tidy. destruct t; reflexivity. Qed.

(** X20: the refusals of [join_game].  The game is checked first, then the
    user, then whether the user already sits in the game; a game that
    already has as many participants as its situation asks for is
    GAME_FULL.  Whatever is refused, and whatever exception is mapped to
    an error, the tables are as before the call, the count of
    participants that was raised before the GAME_FULL test included. *)
Theorem join_game_refusals userid gameid t :
  (~ In gameid (map Lobby.og_gameid (Lobby.open_games t)) ->
   join_game userid gameid t = (inl Lobby.ERR_NO_SUCH_OPEN_GAME, t))
  /\ (In gameid (map Lobby.og_gameid (Lobby.open_games t)) ->
      ~ In userid (map Lobby.u_userid (Lobby.users t)) ->
      join_game userid gameid t = (inl Lobby.ERR_NO_SUCH_USER, t))
  /\ (In gameid (map Lobby.og_gameid (Lobby.open_games t)) ->
      In userid (map Lobby.u_userid (Lobby.users t)) ->
      In (Lobby.mkOgp userid gameid) (Lobby.ogps t) ->
      join_game userid gameid t = (inl Lobby.ERR_JOIN_GAME_ALREADY_IN, t))
  /\ (forall game situation,
        games_ok t ->
        In game (Lobby.open_games t) ->
        Lobby.og_gameid game = gameid ->
        In userid (map Lobby.u_userid (Lobby.users t)) ->
        ~ In (Lobby.mkOgp userid gameid) (Lobby.ogps t) ->
        situation_of game t = Some situation ->
        Lobby.sit_participants situation <= Lobby.og_participants game ->
        join_game userid gameid t = (inl Lobby.ERR_JOIN_GAME_GAME_FULL, t))
  /\ (forall err t', join_game userid gameid t = (inl err, t') -> t' = t).
Proof.
  tidy. unfold join_game, Lobby.api.
  assert (Hback : forall err t',
             match join_game_body userid gameid t with
             | Lobby.Done (inl err, _) => (inl err, t)
             | Lobby.Done (inr r, t') => (inr r, t')
             | Lobby.Thrown _ => (inl Lobby.ERR_UNKNOWN, t)
             end = (inl err, t') -> t' = t).
  { intros err t' H.
    destruct (join_game_body userid gameid t) as [[[e|r] t0]|e]; congruence. }
  cut ((~ In gameid (map Lobby.og_gameid (Lobby.open_games t)) ->
        join_game_body userid gameid t
        = Lobby.Done (inl Lobby.ERR_NO_SUCH_OPEN_GAME, t))
       /\ (In gameid (map Lobby.og_gameid (Lobby.open_games t)) ->
           ~ In userid (map Lobby.u_userid (Lobby.users t)) ->
           join_game_body userid gameid t
           = Lobby.Done (inl Lobby.ERR_NO_SUCH_USER, t))
       /\ (In gameid (map Lobby.og_gameid (Lobby.open_games t)) ->
           In userid (map Lobby.u_userid (Lobby.users t)) ->
           In (Lobby.mkOgp userid gameid) (Lobby.ogps t) ->
           join_game_body userid gameid t
           = Lobby.Done (inl Lobby.ERR_JOIN_GAME_ALREADY_IN, t))
       /\ (forall game situation,
             games_ok t ->
             In game (Lobby.open_games t) ->
             Lobby.og_gameid game = gameid ->
             In userid (map Lobby.u_userid (Lobby.users t)) ->
             ~ In (Lobby.mkOgp userid gameid) (Lobby.ogps t) ->
             situation_of game t = Some situation ->
             Lobby.sit_participants situation <= Lobby.og_participants game ->
             exists t1,
               join_game_body userid gameid t
               = Lobby.Done (inl Lobby.ERR_JOIN_GAME_GAME_FULL, t1))).
  { intros (H1 & H2 & H3 & H4). repeat split; try exact Hback.
    - intros H. rewrite H1 by exact H. reflexivity.
    - intros Ha Hb. rewrite H2 by assumption. reflexivity.
    - intros Ha Hb Hc. rewrite H3 by assumption. reflexivity.
    - intros game situation Ha Hb Hc Hd He Hf Hg.
      destruct (H4 game situation Ha Hb Hc Hd He Hf Hg) as [t1 ->].
      reflexivity. }
  clear Hback. unfold join_game_body.
  pose proof (first_by_gameid gameid (Lobby.open_games t)) as Hgame.
  pose proof (first_by_userid userid (Lobby.users t)) as Huser.
  destruct (List.filter _ (Lobby.open_games t)) as [|first rest].
  { split; [reflexivity|]. repeat split; intros; try contradiction.
    exfalso. apply Hgame. apply in_map_iff. eauto. }
  destruct Hgame as [Hfirst Hid]. rewrite Hid.
  split; [intros Hno; exfalso; apply Hno; rewrite <- Hid; apply in_map;
          exact Hfirst|].
  destruct (List.filter _ (Lobby.users t)) as [|user urest].
  { split; [reflexivity|]. split; intros; contradiction. }
  split; [intros _ Hno; exfalso; apply Hno; destruct Huser as [Hu <-];
          apply in_map; exact Hu|].
  pose proof (in_game_spec userid gameid t) as Hin.
  destruct (existsb _ (Lobby.game_ogps gameid t)).
  { split; [reflexivity|]. intros game situation _ _ _ _ Ho.
    exfalso. apply Ho, Hin. reflexivity. }
  split; [intros _ _ Ho; apply Hin in Ho; discriminate|].
  intros game situation Hok Hg Hgid _ _ Hs Hfull.
  assert (game = first) by (eapply key_unique; [apply Hok| | |]; eauto;
                            congruence).
  subst first. rewrite situation_of_add_participants, Hs.
  simpl. replace (_ <? _) with true; [eexists; reflexivity|].
  symmetry. apply Z.ltb_lt. lia.
Qed.

Lemma join_game_already_in userid gameid t :
  In gameid (map Lobby.og_gameid (Lobby.open_games t)) ->
  In userid (map Lobby.u_userid (Lobby.users t)) ->
  In (Lobby.mkOgp userid gameid) (Lobby.ogps t) ->
  join_game userid gameid t = (inl Lobby.ERR_JOIN_GAME_ALREADY_IN, t).
Proof.
  tidy. intros Hg Hu Ho. unfold join_game, Lobby.api, join_game_body.
  pose proof (first_by_gameid gameid (Lobby.open_games t)) as Hgame.
  pose proof (first_by_userid userid (Lobby.users t)) as Huser.
  destruct (List.filter _ (Lobby.open_games t)) as [|first rest];
    [contradiction|].
  destruct Hgame as [_ ->].
  destruct (List.filter _ (Lobby.users t)) as [|user urest];
    [contradiction|].
  apply in_game_spec in Ho. rewrite Ho. reflexivity.
Qed.

(** [join_game] past its checks: the game exists, the user exists and
    does not sit in it, and the game has room. *)
Lemma join_body_checked userid gameid t game situation :
  games_ok t ->
  In game (Lobby.open_games t) ->
  Lobby.og_gameid game = gameid ->
  In userid (map Lobby.u_userid (Lobby.users t)) ->
  ~ In (Lobby.mkOgp userid gameid) (Lobby.ogps t) ->
  situation_of game t = Some situation ->
  Lobby.og_participants game < Lobby.sit_participants situation ->
  join_game_body userid gameid t
  = let t1 :=
      Lobby.set_open_games
        (Lobby.add_participants gameid 1 (Lobby.open_games t)) t in
    let game1 :=
      Lobby.mkOpenGame gameid (Lobby.og_situationid game)
        (Lobby.og_participants game + 1) in
    let ogp := Lobby.mkOgp userid gameid in
    if Lobby.og_participants game + 1 =? Lobby.sit_participants situation
    then
      match _start_game game1 ogp t1 with
      | Lobby.Thrown e => Lobby.Thrown e
      | Lobby.Done (running_game, t2) =>
          Lobby.Done (inr (Some (started_gameid running_game)),
                      (Lobby.ensure_open_games t2).2)
      end
    else
      Lobby.Done
        (inr None,
         (Lobby.ensure_open_games
            (Lobby.set_ogps (Lobby.ogps t1 ++ [ogp]) t1)).2).
Proof.
  tidy. intros Hok Hg Hgid Hu Hno Hs Hroom. unfold join_game_body.
  pose proof (first_by_gameid gameid (Lobby.open_games t)) as Hgame.
  pose proof (first_by_userid userid (Lobby.users t)) as Huser.
  destruct (List.filter _ (Lobby.open_games t)) as [|first rest].
  { exfalso. apply Hgame. apply in_map_iff. eauto. }
  destruct Hgame as [Hfirst Hid].
  assert (game = first) by (eapply key_unique; [apply Hok| | |]; eauto;
                            congruence).
  subst first. rewrite Hid.
  destruct (List.filter _ (Lobby.users t)) as [|user urest];
    [contradiction|].
  destruct Huser as [_ ->].
  pose proof (in_game_spec userid gameid t) as Hin.
  destruct (existsb _ (Lobby.game_ogps gameid t));
    [exfalso; apply Hno, Hin; reflexivity|].
  rewrite situation_of_add_participants, Hs. simpl.
  replace (_ <? _) with false; [reflexivity|].
  symmetry. apply Z.ltb_ge. lia.
Qed.

(** X21: joining a game that stays short of its situation's seats after
    the join.  The call returns no running game; the user's participant
    row is in the table and the game counts one participant more; gameids
    stay keys and every situation has exactly one empty open game; users
    and running games are as before.  Joining the same game again is then
    refused with ALREADY_IN. *)
Theorem join_game_waits userid gameid t game situation :
  games_ok t ->
  In game (Lobby.open_games t) ->
  Lobby.og_gameid game = gameid ->
  In userid (map Lobby.u_userid (Lobby.users t)) ->
  ~ In (Lobby.mkOgp userid gameid) (Lobby.ogps t) ->
  situation_of game t = Some situation ->
  0 <= Lobby.og_participants game ->
  Lobby.og_participants game + 1 < Lobby.sit_participants situation ->
  exists t',
    join_game userid gameid t = (inr None, t')
    /\ In (Lobby.mkOgp userid gameid) (Lobby.ogps t')
    /\ In (Lobby.mkOpenGame gameid (Lobby.og_situationid game)
             (Lobby.og_participants game + 1)) (Lobby.open_games t')
    /\ (forall o, In o (Lobby.ogps t') ->
                  In o (Lobby.ogps t) \/ o = Lobby.mkOgp userid gameid)
    /\ games_ok t' /\ one_empty_each t'
    /\ Lobby.users t' = Lobby.users t
    /\ Lobby.running_games t' = Lobby.running_games t
    /\ join_game userid gameid t'
       = (inl Lobby.ERR_JOIN_GAME_ALREADY_IN, t').
Proof.
  tidy. intros Hok Hg Hgid Hu Hno Hs Hp0 Hroom.
  unfold join_game at 1. unfold Lobby.api.
  rewrite (join_body_checked userid gameid t game situation)
    by (auto; lia).
  cbv zeta. replace (_ =? _) with false by (symmetry; apply Z.eqb_neq; lia).
  set (t1 := Lobby.set_open_games _ t).
  set (t2 := Lobby.set_ogps _ t1).
  assert (Hok2 : games_ok t2).
  { pose proof (add_participants_games_ok gameid 1 t Hok) as H.
    subst t2 t1. destruct t; exact H. }
  set (game1 := Lobby.mkOpenGame gameid (Lobby.og_situationid game)
                  (Lobby.og_participants game + 1)).
  assert (Hg1 : In game1 (Lobby.open_games t2)).
  { subst t2 t1. destruct t; simpl in *. unfold Lobby.add_participants.
    apply in_map_iff. exists game. split; [|exact Hg].
    destruct (decide _); [|contradiction]. subst game1. rewrite Hgid.
    reflexivity. }
  assert (Ho2 : In (Lobby.mkOgp userid gameid) (Lobby.ogps t2)).
  { subst t2 t1. destruct t; simpl. apply in_or_app. right. left.
    reflexivity. }
  destruct (ensure_loop t2 (Lobby.situations t2) Hok2)
    as (G1 & G2 & G3 & G4 & G5 & G6 & G7 & G8 & G9).
  pose proof (ensure_loop_keeps_ogps (Lobby.situations t2) t2 _ game1
                Hok2 Ho2 Hg1 eq_refl) as Hkept.
  eexists. split; [reflexivity|]. simpl.
  unfold Lobby.ensure_open_games_body.
  assert (Hgame' : In game1 (Lobby.open_games
                               (foldl Lobby.ensure_step t2
                                  (Lobby.situations t2)))).
  { apply G8; [exact Hg1 | simpl; lia]. }
  assert (Hogp' : In (Lobby.mkOgp userid gameid)
                    (Lobby.ogps (foldl Lobby.ensure_step t2
                                   (Lobby.situations t2)))).
  { apply Hkept. simpl. lia. }
  assert (Husers : Lobby.users t2 = Lobby.users t)
    by (subst t2 t1; destruct t; reflexivity).
  split; [exact Hogp'|]. split; [exact Hgame'|]. split.
  { intros o Ho. apply G7 in Ho. subst t2 t1. destruct t; simpl in *.
    apply in_app_or in Ho as [Ho|[<-|[]]]; auto. }
  split; [exact G1|]. split.
  { unfold one_empty_each. rewrite G3. apply List.Forall_forall.
    intros s Hs'. apply G2. left. apply in_map. exact Hs'. }
  split; [rewrite G4; exact Husers|].
  split; [rewrite G5; subst t2 t1; destruct t; reflexivity|].
  apply join_game_already_in.
  - apply in_map_iff. exists game1. split; [reflexivity | exact Hgame'].
  - rewrite G4, Husers. exact Hu.
  - exact Hogp'.
Qed.

(** ** Starting a game *)

Lemma start_seats_spec (k : Z) (all_ogps : list Lobby.OpenGameParticipant)
    (players : list Lobby.SituationPlayer) f :
  let seats := start_seats k all_ogps players f in
  length seats = Nat.min (length all_ogps) (length players)
  /\ map userid seats
     = map Lobby.ogp_userid (firstn (length players) all_ogps)
  /\ map stack seats = map Lobby.sp_stack (firstn (length all_ogps) players)
  /\ map contributed seats
     = map Lobby.sp_contributed (firstn (length all_ogps) players)
  /\ map order seats
     = map (fun i => k + Z.of_nat i) (seq 0 (length seats))
  /\ Forall (fun p => folded p = false) seats.
Proof.
  tidy. revert k players.
  induction all_ogps as [|ogp l IH]; intros k [|s_p players]; simpl;
    try (repeat split; (reflexivity || constructor)).
  destruct (IH (k + 1) players) as (H1 & H2 & H3 & H4 & H5 & H6).
  rewrite H2, H3, H4, H5. repeat split.
  - rewrite H1. reflexivity.
  - f_equal; [lia|]. rewrite <- seq_shift, map_map. apply map_ext.
    intros i. lia.
  - constructor; [reflexivity | exact H6].
Qed.

Lemma orders_from_NoDup (k : Z) n :
  NoDup (map (fun i => k + Z.of_nat i) (seq 0 n)).
Proof.
  tidy. assert (Hinj : Inj eq eq (fun i => k + Z.of_nat i))
    by (intros x y H; lia).
  apply (NoDup_fmap_2 (fun i => k + Z.of_nat i)). apply NoDup_seq.
Qed.

Lemma seats_chips_sums l :
  seats_chips l
  = foldr Z.add 0 (map stack l) + foldr Z.add 0 (map contributed l).
Proof. induction l as [|p l IH]; simpl; lia. Qed.

Lemma count_unfolded_all l :
  Forall (fun p => folded p = false) l -> count_unfolded l = length l.
Proof.
  unfold count_unfolded. induction 1 as [|p l Hp _ IH]; simpl;
    [reflexivity|]. rewrite Hp. simpl. rewrite IH. reflexivity.
Qed.

Lemma seat_step_userids l l' :
  Forall2 seat_step l l' -> map userid l' = map userid l.
Proof.
  tidy. induction 1 as [|p p' l l' Hp _ IH]; simpl; [reflexivity|].
  rewrite IH. destruct Hp as (-> & _). reflexivity.
Qed.

(** [_start_game] goes through when the open game has its situation, the
    situation's [current_player_num] indexes a participant, and no
    running game has the gameid yet. *)
Lemma start_game_done open_game final_ogp t situation current :
  situation_of open_game t = Some situation ->
  python_index (Lobby.game_ogps (Lobby.og_gameid open_game) t ++ [final_ogp])
    (Lobby.sit_current_player_num situation) = Some current ->
  Lobby.running_games t !! Lobby.og_gameid open_game = None ->
  exists rg,
    _start_game open_game final_ogp t
    = Lobby.Done
        (rg,
         Lobby.set_running_games
           (<[Lobby.og_gameid open_game := rg]> (Lobby.running_games t))
           (Lobby.delete_open_game (Lobby.og_gameid open_game) t))
    /\ gameid rg = Lobby.og_gameid open_game
    /\ current_userid rg = Some (Lobby.ogp_userid current)
    /\ map userid (rgps rg)
       = map Lobby.ogp_userid
           (firstn (length (Lobby.sit_players situation))
              (Lobby.game_ogps (Lobby.og_gameid open_game) t
               ++ [final_ogp])).
Proof.
  tidy. intros Hs Hc Hr. unfold _start_game. rewrite Hs, Hc, Hr.
  eexists. split; [reflexivity|].
  match goal with
  | |- context [_deal_to_board (set_rgps ?s ?g)] =>
      set (seats := s); set (g0 := set_rgps seats g)
  end.
  destruct (deal_to_board_board g0) as (_ & _ & B3 & _).
  destruct (deal_to_board_trace g0) as (_ & T2 & _).
  pose proof (deal_to_board_seat_step g0) as Hstep.
  split; [exact T2|]. split; [exact B3|].
  destruct (start_seats_spec 0 (Lobby.game_ogps (Lobby.og_gameid open_game) t
                                ++ [final_ogp])
              (Lobby.sit_players situation)
              (deal_from_ranges (Lobby.sit_players situation)
                 (Lobby.sit_board situation)))
    as (_ & S2 & _).
  fold seats in S2. rewrite <- S2. apply (seat_step_userids _ _ Hstep).
Qed.

(** X23: the running game [_start_game] returns.  It takes the gameid of
    the open game and is stored under it, where no running game was; the
    user on turn is the participant [current_player_num] indexes, from
    the back when negative; seats pair the participants with the
    situation's players in order, numbered from 0, nobody folded, with
    the situation's stacks and contributions, so the chips of the game are
    the situation's; seat orders are distinct, and a game of two or more
    seats has the shape of a hand in play.  The open game is deleted with
    its participant rows. *)
Theorem start_game_seats open_game final_ogp t rg t2 :
  _start_game open_game final_ogp t = Lobby.Done (rg, t2) ->
  exists situation current,
    let all_ogps :=
      Lobby.game_ogps (Lobby.og_gameid open_game) t ++ [final_ogp] in
    let players := Lobby.sit_players situation in
    situation_of open_game t = Some situation
    /\ python_index all_ogps (Lobby.sit_current_player_num situation)
       = Some current
    /\ Lobby.running_games t !! Lobby.og_gameid open_game = None
    /\ Lobby.running_games t2 !! Lobby.og_gameid open_game = Some rg
    /\ gameid rg = Lobby.og_gameid open_game
    /\ current_userid rg = Some (Lobby.ogp_userid current)
    /\ is_finished rg = false
    /\ length (rgps rg) = Nat.min (length all_ogps) (length players)
    /\ map userid (rgps rg)
       = map Lobby.ogp_userid (firstn (length players) all_ogps)
    /\ map order (rgps rg) = map Z.of_nat (seq 0 (length (rgps rg)))
    /\ NoDup (order <$> rgps rg)
    /\ map stack (rgps rg)
       = map Lobby.sp_stack (firstn (length all_ogps) players)
    /\ map contributed (rgps rg)
       = map Lobby.sp_contributed (firstn (length all_ogps) players)
    /\ total_chips rg
       = foldr Z.add 0 (map Lobby.sp_stack (firstn (length all_ogps) players))
         + foldr Z.add 0
             (map Lobby.sp_contributed (firstn (length all_ogps) players))
         + Lobby.sit_pot_pre situation
    /\ Forall (fun p => folded p = false) (rgps rg)
    /\ ((2 <= length (rgps rg))%nat -> table_ok rg)
    /\ (forall g, In g (Lobby.open_games t2) <->
                  In g (Lobby.open_games t)
                  /\ Lobby.og_gameid g <> Lobby.og_gameid open_game)
    /\ (forall o, In o (Lobby.ogps t2) <->
                  In o (Lobby.ogps t)
                  /\ Lobby.ogp_gameid o <> Lobby.og_gameid open_game).
Proof.
  tidy. unfold _start_game.
  destruct (situation_of open_game t) as [situation|]; [|discriminate].
  destruct (python_index _ _) as [current|] eqn:Hc; [|discriminate].
  destruct (Lobby.running_games t !! Lobby.og_gameid open_game) eqn:Hr;
    [discriminate|].
  intros H. injection H as Hrg Ht2.
  exists situation, current. cbv zeta.
  split; [reflexivity|]. split; [exact Hc|]. split; [reflexivity|].
  match type of Hrg with
  | _deal_to_board (set_rgps ?s _) = _ => set (seats := s) in *
  end.
  match type of Hrg with
  | _deal_to_board ?g = _ => set (g0 := g) in *
  end.
  destruct (start_seats_spec 0 (Lobby.game_ogps (Lobby.og_gameid open_game) t
                                ++ [final_ogp])
              (Lobby.sit_players situation)
              (deal_from_ranges (Lobby.sit_players situation)
                 (Lobby.sit_board situation)))
    as (S1 & S2 & S3 & S4 & S5 & S6).
  fold seats in S1, S2, S3, S4, S5, S6.
  destruct (deal_to_board_seats g0) as (D1 & D2 & D3 & _ & D5 & _).
  destruct (deal_to_board_board g0) as (_ & _ & B3 & B4).
  destruct (deal_to_board_trace g0) as (_ & T2 & _).
  pose proof (deal_to_board_seat_step g0) as Hstep.
  set (rg0 := _deal_to_board g0) in *. change (rgps g0) with seats in *.
  clearbody rg0. subst rg0.
  assert (Hlen : length (rgps rg) = length seats).
  { rewrite <- (length_map stack (rgps rg)), D1. apply length_map. }
  assert (Huid : map userid (rgps rg) = map userid seats
                 /\ map order (rgps rg) = map order seats).
  { clear -Hstep. induction Hstep as [|p p' l l' Hp _ IH]; simpl;
      [split; reflexivity|].
    destruct IH as [-> ->]. destruct Hp as (-> & -> & _). split; reflexivity. }
  destruct Huid as [Huid Hord].
  assert (Hfold : Forall (fun p => folded p = false) (rgps rg)).
  { apply List.Forall_forall. intros p Hp.
    apply (in_map folded) in Hp. rewrite D3 in Hp.
    apply in_map_iff in Hp as (q & <- & Hq).
    rewrite List.Forall_forall in S6. apply S6. exact Hq. }
  split.
  { rewrite <- Ht2. simpl. apply lookup_insert_eq. }
  split; [exact T2|]. split; [exact B3|]. split; [exact B4|].
  split; [rewrite Hlen; exact S1|].
  split; [rewrite Huid; exact S2|].
  split.
  { rewrite Hord, S5, Hlen. apply map_ext. intros i. lia. }
  split.
  { change (order <$> rgps rg) with (map order (rgps rg)).
    rewrite Hord, S5. apply orders_from_NoDup. }
  split; [rewrite D1; exact S3|].
  split; [rewrite D2; exact S4|].
  split.
  { unfold total_chips. rewrite seats_chips_sums, D1, D2, S3, S4, D5.
    reflexivity. }
  split; [exact Hfold|].
  split.
  { intros Htwo. split.
    - eapply List.Forall_impl; [|exact Hfold]. simpl. intros p Hp Hf.
      congruence.
    - rewrite count_unfolded_all by exact Hfold. exact Htwo. }
  rewrite <- Ht2. simpl. split.
  - intros g. rewrite filter_In, negb_true_iff, Z.eqb_neq. tauto.
  - intros o. rewrite filter_In, negb_true_iff, Z.eqb_neq. tauto.
Qed.

(** X22: the join that fills a game starts it.  When the user takes the
    last seat of the situation, [current_player_num] indexes a
    participant and no running game has the gameid, [join_game] returns
    the gameid; the running game is stored under it with that gameid and
    the waiting participants followed by the joining user as its seats,
    other running games are untouched; the open game and its participant
    rows are gone;
    gameids stay keys and every situation has exactly one empty open
    game. *)
Theorem join_game_starts uid gameid t game situation current :
  games_ok t ->
  In game (Lobby.open_games t) ->
  Lobby.og_gameid game = gameid ->
  In uid (map Lobby.u_userid (Lobby.users t)) ->
  ~ In (Lobby.mkOgp uid gameid) (Lobby.ogps t) ->
  situation_of game t = Some situation ->
  Lobby.og_participants game + 1 = Lobby.sit_participants situation ->
  python_index (Lobby.game_ogps gameid t ++ [Lobby.mkOgp uid gameid])
    (Lobby.sit_current_player_num situation) = Some current ->
  Lobby.running_games t !! gameid = None ->
  exists rg t',
    join_game uid gameid t = (inr (Some gameid), t')
    /\ Lobby.running_games t' !! gameid = Some rg
    /\ (forall k, k <> gameid ->
                  Lobby.running_games t' !! k = Lobby.running_games t !! k)
    /\ started_gameid rg = gameid
    /\ current_userid rg = Some (Lobby.ogp_userid current)
    /\ map userid (rgps rg)
       = map Lobby.ogp_userid
           (firstn (length (Lobby.sit_players situation))
              (Lobby.game_ogps gameid t ++ [Lobby.mkOgp uid gameid]))
    /\ ~ In gameid (map Lobby.og_gameid (Lobby.open_games t'))
    /\ (forall o, In o (Lobby.ogps t') ->
                  In o (Lobby.ogps t) /\ Lobby.ogp_gameid o <> gameid)
    /\ games_ok t' /\ one_empty_each t'
    /\ Lobby.users t' = Lobby.users t.
Proof.
  tidy. intros Hok Hg Hgid Hu Hno Hs Hfill Hc Hr.
  unfold join_game, Lobby.api.
  rewrite (join_body_checked uid gameid t game situation)
    by (auto; lia).
  cbv zeta. replace (_ =? _) with true by (symmetry; apply Z.eqb_eq; lia).
  set (t1 := Lobby.set_open_games _ t).
  set (game1 := Lobby.mkOpenGame gameid (Lobby.og_situationid game)
                  (Lobby.og_participants game + 1)).
  assert (Hs1 : situation_of game1 t1 = Some situation).
  { subst t1 game1. rewrite situation_of_add_participants. exact Hs. }
  destruct (start_game_done game1 (Lobby.mkOgp uid gameid) t1
              situation current Hs1 Hc Hr)
    as (rg & Estart & Hid2 & Hcur2 & Huids).
  rewrite Estart.
  change (Lobby.og_gameid game1) with gameid in *.
  change (Lobby.game_ogps gameid t1) with (Lobby.game_ogps gameid t) in Huids.
  set (t2 := Lobby.set_running_games
               (<[gameid := rg]> (Lobby.running_games t1))
               (Lobby.delete_open_game gameid t1)).
  assert (Hopen2 : Lobby.open_games t2
                   = List.filter
                       (fun g => negb (Lobby.og_gameid g =? gameid))
                       (Lobby.open_games t1)) by reflexivity.
  assert (Hogps2 : Lobby.ogps t2
                   = List.filter
                       (fun o => negb (Lobby.ogp_gameid o =? gameid))
                       (Lobby.ogps t)) by reflexivity.
  assert (Hrun2 : Lobby.running_games t2
                  = <[gameid := rg]> (Lobby.running_games t))
    by reflexivity.
  assert (Hseq2 : Lobby.gameid_seq t2 = Lobby.gameid_seq t) by reflexivity.
  assert (Husers2 : Lobby.users t2 = Lobby.users t) by reflexivity.
  clearbody t2.
  assert (Hok2 : games_ok t2).
  { destruct Hok as [Hnd Hlt]. split.
    - rewrite Hopen2. apply NoDup_map_filter.
      subst t1. simpl. rewrite add_participants_ids. exact Hnd.
    - rewrite Hseq2. apply List.Forall_forall. intros g Hg2.
      rewrite Hopen2 in Hg2. apply filter_In in Hg2 as [Hg2 _].
      subst t1. simpl in Hg2. unfold Lobby.add_participants in Hg2.
      apply in_map_iff in Hg2 as (g0 & <- & Hg0).
      rewrite List.Forall_forall in Hlt. specialize (Hlt g0 Hg0).
      destruct (decide _); simpl; exact Hlt. }
  destruct (ensure_loop t2 (Lobby.situations t2) Hok2)
    as (G1 & G2 & G3 & G4 & G5 & G6 & G7 & G8 & G9).
  exists rg. eexists.
  split; [unfold started_gameid; rewrite Hid2; reflexivity|]. simpl.
  unfold Lobby.ensure_open_games_body. rewrite G5, G4, Hrun2.
  split; [apply lookup_insert_eq|].
  split.
  { intros k Hk. apply lookup_insert_ne. congruence. }
  split; [exact Hid2|]. split; [exact Hcur2|]. split; [exact Huids|].
  split.
  { intros Hin. apply in_map_iff in Hin as (g & Eg & Hin).
    apply G9 in Hin as [Hin|[_ Hge]].
    - rewrite Hopen2 in Hin. apply filter_In in Hin as [_ Hne].
      apply negb_true_iff, Z.eqb_neq in Hne. contradiction.
    - rewrite Hseq2 in Hge. destruct Hok as [_ Hlt].
      rewrite List.Forall_forall in Hlt. specialize (Hlt game Hg). lia. }
  split.
  { intros o Ho. apply G7 in Ho. rewrite Hogps2 in Ho.
    apply filter_In in Ho as [Ho Hne].
    apply negb_true_iff, Z.eqb_neq in Hne. auto. }
  split; [exact G1|]. split.
  { unfold one_empty_each. rewrite G3. apply List.Forall_forall.
    intros s Hs2. apply G2. left. apply in_map. exact Hs2. }
  exact Husers2.
Qed.

(** ** Situations *)

Lemma situation_players_spec (k : Z) l :
  length (Lobby.situation_players k l) = length l
  /\ map Lobby.sp_order (Lobby.situation_players k l)
     = map (fun i => k + Z.of_nat i) (seq 0 (length l))
  /\ map Lobby.sp_stack (Lobby.situation_players k l)
     = map Lobby.spd_stack l
  /\ map Lobby.sp_contributed (Lobby.situation_players k l)
     = map Lobby.spd_contributed l
  /\ map Lobby.sp_range_raw (Lobby.situation_players k l)
     = map Lobby.spd_range_raw l
  /\ map Lobby.sp_left_to_act (Lobby.situation_players k l)
     = map Lobby.spd_left_to_act l.
Proof.
  tidy. revert k. induction l as [|p l IH]; intros k; simpl;
    [repeat split; reflexivity|].
  destruct (IH (k + 1)) as (H1 & H2 & H3 & H4 & H5 & H6).
  rewrite H1, H2, H3, H4, H5, H6. repeat split.
  f_equal; [lia|]. rewrite <- seq_shift, map_map. apply map_ext.
  intros i. lia.
Qed.

Lemma description_taken_spec d (l : list Lobby.Situation) :
  existsb (fun s => bool_decide (Lobby.sit_description s = d)) l = true
  <-> In d (map Lobby.sit_description l).
Proof.
  tidy. rewrite existsb_exists, in_map_iff. split.
  - intros (s & Hs & E). apply bool_decide_eq_true in E. eauto.
  - intros (s & E & Hs). exists s. split; [exact Hs|].
    apply bool_decide_eq_true. exact E.
Qed.

(** X25: [_add_situation] refuses exactly the descriptions already in the
    table, and keeps nothing then.  Otherwise it appends one situation
    under the next situationid, whose [participants] is the number of
    players of the DTO and whose player rows are numbered from 0 in the
    DTO's order with its stacks, contributions, ranges and flags.
    Descriptions and situationids stay keys either way. *)
Theorem add_situation_outcome dto t :
  situations_ok t ->
  situations_ok (Lobby._add_situation dto t).2
  /\ (In (Lobby.sd_description dto)
        (map Lobby.sit_description (Lobby.situations t)) ->
      Lobby._add_situation dto t = (Some Lobby.ERR_DUPLICATE_SITUATION, t))
  /\ (~ In (Lobby.sd_description dto)
          (map Lobby.sit_description (Lobby.situations t)) ->
      exists s,
        Lobby._add_situation dto t
        = (None,
           Lobby.set_situation_seq (Lobby.situation_seq t + 1)
             (Lobby.set_situations (Lobby.situations t ++ [s]) t))
        /\ Lobby.sit_situationid s = Lobby.situation_seq t
        /\ Lobby.sit_description s = Lobby.sd_description dto
        /\ Lobby.sit_participants s
           = Z.of_nat (length (Lobby.sit_players s))
        /\ Lobby.sit_current_player_num s = Lobby.sd_current_player dto
        /\ length (Lobby.sit_players s) = length (Lobby.sd_players dto)
        /\ map Lobby.sp_order (Lobby.sit_players s)
           = map Z.of_nat (seq 0 (length (Lobby.sd_players dto)))
        /\ map Lobby.sp_stack (Lobby.sit_players s)
           = map Lobby.spd_stack (Lobby.sd_players dto)
        /\ map Lobby.sp_contributed (Lobby.sit_players s)
           = map Lobby.spd_contributed (Lobby.sd_players dto)).
Proof.
  tidy. intros (Hd & Hi & Hq). unfold Lobby._add_situation.
  pose proof (description_taken_spec (Lobby.sd_description dto)
                (Lobby.situations t)) as Htaken.
  destruct (existsb _ (Lobby.situations t)).
  - split; [repeat split; assumption|]. split; [reflexivity|].
    intros Hno. exfalso. apply Hno, Htaken. reflexivity.
  - assert (Hfree : ~ In (Lobby.sd_description dto)
                      (map Lobby.sit_description (Lobby.situations t))).
    { intros H. apply Htaken in H. discriminate. }
    destruct (situation_players_spec 0 (Lobby.sd_players dto))
      as (P1 & P2 & P3 & P4 & _).
    split; [|split; [intros H; contradiction|]].
    + unfold situations_ok. simpl. rewrite !map_app. simpl. repeat split.
      * apply NoDup_snoc; [exact Hd|]. simpl. exact Hfree.
      * apply NoDup_snoc; [exact Hi|]. simpl. intros Hin.
        apply in_map_iff in Hin as (s & E & Hs).
        rewrite List.Forall_forall in Hq. specialize (Hq s Hs). lia.
      * apply List.Forall_forall. intros s Hs.
        apply in_app_or in Hs as [Hs|[<-|[]]]; simpl; [|lia].
        rewrite List.Forall_forall in Hq. specialize (Hq s Hs). lia.
    + intros _. eexists. split; [reflexivity|]. simpl.
      rewrite P1, P2, P3, P4. repeat split; reflexivity.
Qed.

(** X26: [_add_all_situations] is not all-or-nothing.  When the first
    situation is refused the second is not attempted, new as it may be;
    when the first is new and the second is refused, the error comes back
    and the first stays in the table; when both are new and differ, both
    are appended in order and no error comes back. *)
Theorem add_all_situations_outcome hu three t :
  (description_taken (Lobby.sd_description hu) t ->
   Lobby._add_all_situations hu three t
   = (Some Lobby.ERR_DUPLICATE_SITUATION, t))
  /\ (~ description_taken (Lobby.sd_description hu) t ->
      description_taken (Lobby.sd_description three) t
      \/ Lobby.sd_description three = Lobby.sd_description hu ->
      Lobby._add_all_situations hu three t
      = (Some Lobby.ERR_DUPLICATE_SITUATION, (Lobby._add_situation hu t).2)
      /\ In (Lobby.sd_description hu)
           (map Lobby.sit_description
              (Lobby.situations (Lobby._add_all_situations hu three t).2)))
  /\ (~ description_taken (Lobby.sd_description hu) t ->
      ~ description_taken (Lobby.sd_description three) t ->
      Lobby.sd_description three <> Lobby.sd_description hu ->
      exists t',
        Lobby._add_all_situations hu three t = (None, t')
        /\ map Lobby.sit_description (Lobby.situations t')
           = map Lobby.sit_description (Lobby.situations t)
             ++ [Lobby.sd_description hu; Lobby.sd_description three]
        /\ map Lobby.sit_situationid (Lobby.situations t')
           = map Lobby.sit_situationid (Lobby.situations t)
             ++ [Lobby.situation_seq t; Lobby.situation_seq t + 1]).
Proof.
  tidy. unfold description_taken, Lobby._add_all_situations,
    Lobby._add_situation.
  pose proof (description_taken_spec (Lobby.sd_description hu)
                (Lobby.situations t)) as Hhu.
  destruct (existsb _ (Lobby.situations t)) eqn:Ehu.
  { split; [reflexivity|]. split; intros Hno; exfalso; apply Hno, Hhu;
      reflexivity. }
  assert (Hfree : ~ In (Lobby.sd_description hu)
                    (map Lobby.sit_description (Lobby.situations t))).
  { intros H. apply Hhu in H. discriminate. }
  split; [intros H; contradiction|].
  cbn [Lobby.situations Lobby.set_situation_seq Lobby.set_situations
       Lobby.situation_seq].
  match goal with
  | |- context [existsb ?f (Lobby.situations t ++ [?s])] =>
      pose proof (description_taken_spec (Lobby.sd_description three)
                    (Lobby.situations t ++ [s])) as Hthree;
        destruct (existsb f (Lobby.situations t ++ [s])) eqn:Ethree
  end.
  - split.
    + intros _ _. split; [reflexivity|]. simpl. rewrite map_app.
      apply in_or_app. right. left. reflexivity.
    + intros _ Hno Hne. exfalso.
      assert (H : true = true) by reflexivity. apply Hthree in H.
      rewrite map_app in H. apply in_app_or in H as [H|[H|[]]];
        [contradiction|]. simpl in H. congruence.
  - split.
    + intros _ Hdup. exfalso.
      assert (H : false = true); [|discriminate].
      apply Hthree. rewrite map_app. apply in_or_app.
      destruct Hdup as [H|H]; [left; exact H|].
      right. left. simpl. congruence.
    + intros _ _ _. eexists. split; [reflexivity|]. simpl.
      rewrite !map_app. simpl. rewrite <- !app_assoc. simpl.
      split; reflexivity.
Qed.

(** ** A user's games *)

Lemma filter_split_perm {A} (test : A -> bool) l :
  Permutation (List.filter test l ++ List.filter (fun x => negb (test x)) l) l.
Proof.
  induction l as [|x l IH]; simpl; [constructor|].
  destruct (test x); simpl.
  - constructor. exact IH.
  - symmetry. apply Permutation_cons_app. symmetry. exact IH.
Qed.

Lemma user_rgp_games_in uid t g :
  In g (user_rgp_games uid t) <->
  exists k p, Lobby.running_games t !! k = Some g
              /\ In p (rgps g) /\ userid p = uid.
Proof.
  tidy. unfold user_rgp_games, concatenate. rewrite in_concat. split.
  - intros (l & Hl & Hg). apply in_map_iff in Hl as ([k g0] & <- & Hrow).
    simpl in Hg. apply in_map_iff in Hg as (p & <- & Hp).
    apply filter_In in Hp as [Hp Hu]. apply Z.eqb_eq in Hu.
    apply list_elem_of_In, elem_of_map_to_list in Hrow. eauto.
  - intros (k & p & Hk & Hp & Hu).
    exists (map (fun _ => g) (List.filter (seat_of_user uid) (rgps g))).
    split.
    + apply in_map_iff. exists (k, g). split; [reflexivity|].
      apply list_elem_of_In, elem_of_map_to_list. exact Hk.
    + apply in_map_iff. exists p. split; [reflexivity|].
      apply filter_In. split; [exact Hp | apply Z.eqb_eq; exact Hu].
Qed.

(** X24: [get_user_running_games] never refuses and changes nothing, and it
    does not check that the userid is a user's.  Every seat the user holds
    gives one entry, in the running list when its game has a user on turn
    and in the finished list when it has none; a userid without a seat
    gets two empty lists. *)
Theorem user_games_partition uid t :
  exists details,
    get_user_running_games uid t = (inr details, t)
    /\ ugd_userid details = uid
    /\ Permutation (running_details details ++ finished_details details)
         (map summary_from_running_game (user_rgp_games uid t))
    /\ (forall k g p,
          Lobby.running_games t !! k = Some g ->
          In p (rgps g) -> userid p = uid ->
          In (summary_from_running_game g)
            (if bool_decide (current_userid g = None)
             then finished_details details
             else running_details details))
    /\ ((forall k g, Lobby.running_games t !! k = Some g ->
                     Forall (fun p => userid p <> uid) (rgps g)) ->
        running_details details = [] /\ finished_details details = []).
Proof.
  unfold get_user_running_games, Lobby.api. eexists.
  split; [reflexivity|]. simpl. split; [reflexivity|]. split; [|split].
  - rewrite <- map_app. apply Permutation_map.
    eapply Permutation_trans; [|apply (filter_split_perm
      (fun g => bool_decide (current_userid g <> None)))].
    apply Permutation_app_head.
    erewrite filter_ext; [reflexivity|]. intros g. simpl.
    repeat case_bool_decide; simpl; congruence.
  - intros k g p Hk Hp Hu.
    assert (Hin : In g (user_rgp_games uid t))
      by (apply user_rgp_games_in; eauto).
    destruct (bool_decide (current_userid g = None)) eqn:E;
      apply in_map, filter_In; (split; [exact Hin|]).
    + exact E.
    + apply bool_decide_eq_true. apply bool_decide_eq_false in E. exact E.
  - intros Hnone.
    assert (Hempty : user_rgp_games uid t = []).
    { destruct (user_rgp_games uid t) as [|g l] eqn:E; [reflexivity|].
      exfalso. assert (Hin : In g (user_rgp_games uid t))
        by (rewrite E; left; reflexivity).
      apply user_rgp_games_in in Hin as (k & p & Hk & Hp & Hu).
      specialize (Hnone k g Hk). rewrite List.Forall_forall in Hnone.
      apply (Hnone p Hp). exact Hu. }
    rewrite Hempty. split; reflexivity.
Qed.

End Engine.

(** * The statements at the example games *)

Lemma hu_game_ready : action_ready hu_game 1.
Proof.
  split; [eexists; reflexivity|]. split.
  - refine (bool_decide_unpack _ _). vm_compute. exact I.
  - exists 0%nat, hu_bb. repeat split. discriminate.
Defined.

(** The button raises to 6 in the heads-up game: chips are conserved. *)
Lemma chips_conserved_witness :
  exists g',
    apply_action_result example_deck 0 holdem_cards hu_game 1
      (Aggressive 6 true) = Returned g'
    /\ total_chips g' = total_chips hu_game.
Proof.
  apply (proj1 (proj2 (chips_conserved example_deck 0 holdem_cards))).
  - exact hu_game_ready.
  - discriminate.
Defined.

Lemma hu_game_table_ok : table_ok hu_game.
Proof.
  split.
  - repeat constructor; discriminate.
  - vm_compute. lia.
Defined.

(** The button folds before the flop: the big blind gets a walk. *)
Lemma finish_or_advance_witness :
  apply_action_result example_deck 0 holdem_cards hu_game 1 Fold
  = Returned (set_is_finished true (act_fold 1 hu_game)).
Proof.
  apply (proj1 (finish_or_advance example_deck 0 holdem_cards
                  hu_game 1 hu_btn Fold (act_fold 1 hu_game)
                  hu_game_table_ok eq_refl eq_refl));
    reflexivity.
Defined.

(** The round closes before the flop: the street advances. *)
Lemma finish_betting_round_completes_witness :
  exists g',
    _finish_betting_round example_deck 0 holdem_cards hu_called
      (rgps hu_called) = Returned g'.
Proof.
  apply (proj1 (finish_betting_round_completes example_deck 0 holdem_cards
                  hu_called (rgps hu_called)));
    discriminate.
Defined.

(** After the button's raise the turn passes to the big blind. *)
Lemma next_to_act_witness :
  exists next,
    In next (seats_left_to_act (act_aggressive hu_game 1 6))
    /\ apply_action_result example_deck 0 holdem_cards hu_game 1
         (Aggressive 6 true)
       = Returned (set_current_userid (Some (userid next))
                     (act_aggressive hu_game 1 6)).
Proof.
  destruct (next_to_act example_deck 0 holdem_cards hu_game 1 hu_btn
              (Aggressive 6 true) (act_aggressive hu_game 1 6))
    as (next & Hin & Happly & _).
  - reflexivity.
  - reflexivity.
  - refine (bool_decide_unpack _ _). vm_compute. exact I.
  - discriminate.
  - intros [_ H]. discriminate H.
  - exists next. split; assumption.
Defined.

(** The first flop card is the three of hearts: it is nobody's hole card
    and was not on the board. *)
Lemma deal_to_board_disjoint_witness :
  ~ In h3 (board hu_flop)
  /\ Forall (fun p => ~ In h3 (cards_dealt p)) (rgps hu_flop).
Proof.
  destruct (proj1 (proj2
              (deal_to_board_disjoint example_deck 0 holdem_cards hu_flop))
              h3) as [Hboard Hseats].
  - left. reflexivity.
  - split; [exact Hboard|]. apply List.Forall_forall. exact Hseats.
Defined.

(** The heads-up game has no rows yet; after one row its history is still
    in increasing order below [next_hh]. *)
Lemma hand_history_orders_increase_witness :
  hh_ordered (_record_hand_history_item 0 hu_game (HTimeout 11)).
Proof.
  apply (proj2 (proj2 (proj2 (proj2
    (hand_history_orders_increase 0 hu_game (HTimeout 11) (HTimeout 11)))))).
  split; constructor.
Defined.

(** The resolver ends the hand on the button's split action. *)
Lemma terminate_is_internal_witness :
  _perform_action example_deck 0 holdem_cards example_resolver
    example_finish_game hu_game 1 split_action (example_options hu_game 1)
  = Returned
      (Terminate,
       example_finish_game
         (update_rgp 1 (set_left_to_act false)
            (set_is_finished true
               (_record_range_action 0 hu_game hu_btn split_action
                  false true)))).
Proof.
  apply (proj2 (proj2 (proj2
           (terminate_is_internal example_deck 0 holdem_cards
              example_resolver example_finish_game)))
           hu_game 1%nat hu_btn split_action (example_options hu_game 1));
    reflexivity.
Defined.

(** The big blind submits while the button is on turn. *)
Lemma validation_failure_leaves_state_witness :
  perform_action example_deck 0 holdem_cards example_options
    example_resolver example_finish_game 1 10 split_action example_session
  = (inl ERR_NOT_USERS_TURN, example_session).
Proof.
  apply (proj1 (proj2
           (validation_failure_leaves_state example_deck 0 holdem_cards
              example_options example_resolver example_finish_game
              example_session 1 10 split_action))
           hu_game).
  - reflexivity.
  - discriminate.
Defined.



(** The public view of the heads-up game after the button's range was
    recorded shows no row that is private to a viewer. *)
Lemma history_view_witness :
  Forall (fun dto => example_should_include_for dto None = true)
    (_get_history_items HistoryItem id example_should_include_for
       all_tables (_record_rgp_range 0 hu_game hu_btn (range hu_btn)) None).
Proof.
  apply List.Forall_forall.
  apply (proj1 (proj2 (proj2
           (history_view example_options HistoryItem id
              example_should_include_for all_tables unit (fun _ => tt)
              example_screenname example_description
              (_record_rgp_range 0 hu_game hu_btn (range hu_btn)))))).
  reflexivity.
Defined.

(** The flop dealt when the round closes skips the hole cards the dealer
    proposes, and the big blind's range loses the combination that uses a
    flop card; the four chips in front of the seats move to the pot. *)
Example flop_is_dealt :
  match _finish_betting_round example_deck 0 holdem_cards hu_called
          (rgps hu_called) with
  | Returned g' =>
      board g' = [h3; mkCard 9 Clubs; mkCard 8 Clubs]
      /\ map range (rgps g')
         = [[mkCombo As Ks 1]; [mkCombo Qs Qh 1; mkCombo c7 c6 1]]
      /\ current_round g' = FLOP
      /\ pot_pre g' = 4
      /\ current_userid g' = Some 10
      /\ map left_to_act (rgps g') = [true; true]
      /\ map h_body (history g') = [HBoard FLOP (board g')]
  | Raised _ => False
  end.
Proof. vm_compute. repeat split. Qed.

(** The scenario of section 8: the button raises to 6, the big blind is
    left to act and on turn, and the bet count goes to 2. *)
Example button_raises_to_six :
  apply_action_result example_deck 0 holdem_cards hu_game 1
    (Aggressive 6 true)
  = Returned
      (mkGame 1
         [hu_bb;
          set_left_to_act false (set_contributed 6 (set_stack 194 hu_btn))]
         [] PREFLOP 0 2 2 2 (Some 10) false 0 0 []).
Proof. reflexivity. Qed.

(** * The further statements at the example games and lobby *)

Lemma hu_game_orders : NoDup (order <$> rgps hu_game).
Proof. refine (bool_decide_unpack _ _). vm_compute. exact I. Defined.

(** The button raises to 6 in the heads-up game: the call returns, and the
    hand is still in play. *)
Lemma hand_in_play_never_raises_witness :
  exists g',
    apply_action_result example_deck 0 holdem_cards hu_game 1
      (Aggressive 6 true) = Returned g'
    /\ NoDup (order <$> rgps g')
    /\ (is_finished g' = false -> table_ok g').
Proof.
  apply (hand_in_play_never_raises example_deck 0 holdem_cards hu_game 1
           (Aggressive 6 true)).
  - exact hu_game_table_ok.
  - exact hu_game_orders.
  - eexists. reflexivity.
  - discriminate.
Defined.

(** The button folds: both seats keep their user, order and hole cards. *)
Lemma apply_action_result_keeps_seats_witness :
  Forall2 seat_step (rgps hu_game)
    (rgps (set_is_finished true (act_fold 1 hu_game)))
  /\ length (rgps (set_is_finished true (act_fold 1 hu_game)))
     = length (rgps hu_game).
Proof.
  destruct (apply_action_result_keeps_seats example_deck 0 holdem_cards
              hu_game 1 Fold (set_is_finished true (act_fold 1 hu_game)))
    as (H1 & H2 & _).
  - reflexivity.
  - split; assumption.
Defined.

(** The button raises: the street, the board and the history stay; had the
    round closed, the flop would have been dealt and recorded. *)
Lemma apply_action_result_trace_witness :
  exists g',
    apply_action_result example_deck 0 holdem_cards hu_game 1
      (Aggressive 6 true) = Returned g'
    /\ (current_round g' = current_round hu_game /\ board g' = board hu_game
        \/ exists r, NEXT_ROUND (current_round hu_game) = Some r
                     /\ current_round g' = r).
Proof.
  eexists. split; [reflexivity|].
  destruct (apply_action_result_trace example_deck 0 holdem_cards hu_game 1
              (Aggressive 6 true) _ eq_refl)
    as [(H1 & H2 & _)|(r & H1 & H2 & _)].
  - left. split; assumption.
  - right. exists r. split; assumption.
Defined.

(** The button folds its whole range: the range-action row, then the
    action result and the button's range. *)
Lemma perform_action_rows_witness :
  exists g4,
    next_hh g4 = 3 /\ last_action_time g4 = 0
    /\ _perform_action example_deck 0 holdem_cards example_resolver
         example_finish_game hu_game 1 fold_all (example_options hu_game 1)
       = match apply_action_result example_deck 0 holdem_cards g4 1 Fold with
         | Returned g5 =>
             Returned (Fold, if is_finished g5 then example_finish_game g5
                             else g5)
         | Raised e => Raised e
         end.
Proof.
  destruct (perform_action_rows example_deck 0 holdem_cards example_resolver
              example_finish_game hu_game 1 hu_btn fold_all
              (example_options hu_game 1) Fold _ _ eq_refl eq_refl
              ltac:(discriminate) eq_refl)
    as (_ & g4 & _ & Hn & Ht & _ & Hp).
  exists g4. split; [exact Hn|]. split; [exact Ht | exact Hp].
Defined.

(** Acting in game 1 leaves the key 2 and the users of the session alone. *)
Lemma perform_action_frame_witness :
  running_games
    (perform_action example_deck 0 holdem_cards example_options
       example_resolver example_finish_game 1 11 fold_all example_session).2
  !! 2
  = running_games example_session !! 2.
Proof.
  apply (perform_action_frame example_deck 0 holdem_cards example_options
           example_resolver example_finish_game example_session 1 11
           fold_all 2).
  discriminate.
Defined.

(** A week later the sweep times the button out: one game. *)
Lemma process_timeouts_count_and_frame_witness :
  exists s',
    process_timeouts example_deck 700000 holdem_cards example_options
      example_resolver example_finish_game example_session = (inr 1, s')
    /\ users s' = users example_session.
Proof.
  eexists. split; [vm_compute; reflexivity|].
  apply (process_timeouts_count_and_frame example_deck 700000 holdem_cards
           example_options example_resolver example_finish_game
           example_session 1 _).
  vm_compute. reflexivity.
Defined.

(** The timeout of the one-seat game raises, and the sweep is rolled
    back. *)
Lemma process_timeouts_all_or_nothing_witness :
  process_timeouts example_deck 700000 holdem_cards example_options
    example_resolver example_finish_game lone_session
  = (inl ERR_UNKNOWN, lone_session).
Proof.
  apply (process_timeouts_all_or_nothing example_deck 700000 holdem_cards
           example_options example_resolver example_finish_game
           lone_session 2 lone_game ValueError).
  - reflexivity.
  - discriminate.
  - reflexivity.
  - reflexivity.
Defined.

Lemma lobby_users_ok : users_ok lobby.
Proof.
  repeat split;
    try (refine (bool_decide_unpack _ _); vm_compute; exact I).
Defined.

Lemma lobby_games_ok : games_ok lobby.
Proof.
  split; [refine (bool_decide_unpack _ _); vm_compute; exact I|].
  repeat constructor.
Defined.

Lemma lobby_seated_games_ok : games_ok lobby_seated.
Proof.
  split; [refine (bool_decide_unpack _ _); vm_compute; exact I|].
  repeat constructor.
Defined.

(** Carol logs in for the first time: the keys of the user table hold. *)
Lemma login_keeps_users_unique_witness :
  users_ok
    (Lobby.login
       (Lobby.mkLoginRequest "https://id.example/carol" "carol@example.org"
          "carol") lobby).2.
Proof.
  apply (login_keeps_users_unique
           (Lobby.mkLoginRequest "https://id.example/carol"
              "carol@example.org" "carol") lobby).
  exact lobby_users_ok.
Defined.

(** Carol logs in twice: the second login finds her and changes nothing. *)
Lemma login_idempotent_witness :
  Lobby.login
    (Lobby.mkLoginRequest "https://id.example/carol" "carol@example.org"
       "carol")
    (Lobby.login
       (Lobby.mkLoginRequest "https://id.example/carol" "carol@example.org"
          "carol") lobby).2
  = (inr (Lobby.mkLoginResponse 3 "carol" true),
     (Lobby.login
        (Lobby.mkLoginRequest "https://id.example/carol" "carol@example.org"
           "carol") lobby).2).
Proof.
  apply (login_idempotent
           (Lobby.mkLoginRequest "https://id.example/carol"
              "carol@example.org" "carol") lobby
           (Lobby.mkLoginResponse 3 "carol" false)).
  - repeat constructor.
  - reflexivity.
Defined.

(** Another identity logs in with Alice's email and a free screen name. *)
Lemma login_email_taken_witness :
  Lobby.login
    (Lobby.mkLoginRequest "https://id.example/mallory" "alice@example.org"
       "mallory") lobby
  = (inl Lobby.ERR_UNKNOWN, lobby).
Proof.
  apply (login_email_taken
           (Lobby.mkLoginRequest "https://id.example/mallory"
              "alice@example.org" "mallory") lobby alice).
  - refine (bool_decide_unpack _ _). vm_compute. exact I.
  - left. reflexivity.
  - reflexivity.
  - discriminate.
Defined.

(** Alice unsubscribes and logs in again. *)
Lemma unsubscribe_login_round_trip_witness :
  exists t1,
    Lobby.unsubscribe (Lobby.u_identity alice) lobby = (inr tt, t1)
    /\ Lobby.login
         (Lobby.mkLoginRequest (Lobby.u_identity alice)
            (Lobby.u_email alice) "anything") t1
       = (inr (Lobby.mkLoginResponse 1 "alice" true), lobby).
Proof.
  destruct (unsubscribe_login_round_trip lobby alice [] "anything")
    as (t1 & H1 & _ & H2).
  - refine (bool_decide_unpack _ _). vm_compute. exact I.
  - refine (bool_decide_unpack _ _). vm_compute. exact I.
  - reflexivity.
  - reflexivity.
  - exists t1. split; assumption.
Defined.

(** Alice takes the screen name alicia, and is found under it. *)
Lemma change_screenname_keeps_unique_witness :
  users_ok (Lobby.change_screenname 1 "alicia" lobby).2
  /\ Lobby.get_user_by_screenname "alicia"
       (Lobby.change_screenname 1 "alicia" lobby).2
     = (inr (Some (1, "alicia")),
        (Lobby.change_screenname 1 "alicia" lobby).2).
Proof.
  destruct (change_screenname_keeps_unique 1 "alicia" lobby
              (Lobby.change_screenname 1 "alicia" lobby).2)
    as (H1 & H2 & _).
  - exact lobby_users_ok.
  - reflexivity.
  - split; assumption.
Defined.

(** With no open game at all, each situation gets its empty game. *)
Lemma ensure_open_games_one_empty_witness :
  exists t',
    Lobby.ensure_open_games lobby_bare = (inr tt, t')
    /\ one_empty_each t'.
Proof.
  destruct (ensure_open_games_one_empty lobby_bare)
    as (t' & H1 & _ & H2 & _).
  - split; constructor.
  - exists t'. split; assumption.
Defined.

(** Alice takes a seat in the three-handed game 2 and waits. *)
Lemma join_game_waits_witness :
  exists t',
    join_game example_deck 0 holdem_cards example_deal 1 2 lobby
    = (inr None, t')
    /\ In (Lobby.mkOgp 1 2) (Lobby.ogps t')
    /\ one_empty_each t'.
Proof.
  destruct (join_game_waits example_deck 0 holdem_cards example_deal 1 2
              lobby (Lobby.mkOpenGame 2 2 0) three_situation)
    as (t' & H1 & H2 & _ & _ & _ & H3 & _).
  - exact lobby_games_ok.
  - right. left. reflexivity.
  - reflexivity.
  - left. reflexivity.
  - intros [].
  - reflexivity.
  - simpl. lia.
  - simpl. lia.
  - exists t'. repeat split; assumption.
Defined.

(** Bob takes the second seat of the heads-up game 1: the game starts with
    Bob, on the button, to act. *)
Lemma join_game_starts_witness :
  exists rg t',
    join_game example_deck 0 holdem_cards example_deal 2 1 lobby_seated
    = (inr (Some 1), t')
    /\ Lobby.running_games t' !! 1 = Some rg
    /\ current_userid rg = Some 2
    /\ map userid (rgps rg) = [1; 2]
    /\ one_empty_each t'.
Proof.
  destruct (join_game_starts example_deck 0 holdem_cards example_deal 2 1
              lobby_seated (Lobby.mkOpenGame 1 1 1) hu_situation
              (Lobby.mkOgp 2 1))
    as (rg & t' & H1 & H2 & _ & _ & H3 & H4 & _ & _ & _ & H5 & _).
  - exact lobby_seated_games_ok.
  - left. reflexivity.
  - reflexivity.
  - right. left. reflexivity.
  - intros [H|[]]. discriminate H.
  - reflexivity.
  - reflexivity.
  - reflexivity.
  - reflexivity.
  - exists rg, t'. repeat split; assumption.
Defined.

(** The heads-up game as [_start_game] builds it for Alice and Bob: 400
    chips, two seats in play. *)
Lemma start_game_seats_witness :
  exists rg t2,
    _start_game example_deck 0 holdem_cards example_deal
      (Lobby.mkOpenGame 1 1 2) (Lobby.mkOgp 2 1) lobby_seated
    = Lobby.Done (rg, t2)
    /\ is_finished rg = false
    /\ NoDup (order <$> rgps rg)
    /\ table_ok rg.
Proof.
  eexists. eexists. split; [reflexivity|].
  destruct (start_game_seats example_deck 0 holdem_cards example_deal
              (Lobby.mkOpenGame 1 1 2) (Lobby.mkOgp 2 1) lobby_seated
              _ _ eq_refl)
    as (situation & current & H).
  cbv zeta in H.
  destruct H as (_ & _ & _ & _ & _ & _ & H1 & _ & _ & _ & H2 & _ & _ & _
                 & _ & H3 & _).
  split; [exact H1|]. split; [exact H2|]. apply H3. simpl. lia.
Defined.

(** The heads-up situation goes into an empty table. *)
Lemma add_situation_outcome_witness :
  situations_ok (Lobby._add_situation hu_details empty_tables).2.
Proof.
  apply (add_situation_outcome hu_details empty_tables).
  repeat split; constructor.
Defined.
